(** * Recipe price runner: a shallow embedding of the pricing engine

    The development follows [recipe-price-runner-modifier.ts] (the pricing
    engine and the guarded calculation run) and [server.ts] with
    [mock-data.ts] (the simplified preview endpoint).

    Modelling conventions.
    - A JavaScript string is the list of its UTF-16 code units ([jsstr]).
      Case mapping and canonical decomposition are modelled on Basic Latin
      and Latin-1 (plus the ligature OE), which covers every table of the
      program; other code units are left unchanged.  The model is exact on
      the texts of [latin1Text]; beyond them the engine maps and reorders
      more than the model does, and a statement that depends on it is made
      for [latin1Text] only.
    - A JavaScript number is an exact rational ([Q]): the values NaN and
      Infinity and the rounding error of IEEE doubles are not represented.
      Where the program can divide by zero the model says so explicitly.
    - Property lookup in an object literal used as a table is lookup among
      the keys written in the literal, in insertion order.  This is what
      [table[key]] does except under a name inherited from
      [Object.prototype] ([inheritedProperty]), where the program finds a
      function and computes NaN: the statements about the numbers computed
      from [UNIT_TO_G], [UNIT_TO_ML] and [categoryEstimates] are made for
      the other keys, [isPlainUnit] and [isPlainCategory].
    - A thrown exception is the [Throw] outcome of the [completion] monad. *)

From Stdlib Require Import List Bool Arith ZArith NArith QArith Qround Qminmax Lqa.
From Stdlib Require Import String Ascii Lia.
Import ListNotations.

Set Implicit Arguments.

(** ** Strings *)

Module JsString.

Definition jsstr := list N.

(** Decoding of the UTF-8 bytes of a literal of this file into code units
    (all literals of the program are in the Basic Multilingual Plane). *)
Fixpoint decode (pending acc : N) (bs : list N) : jsstr :=
  match bs with
  | [] => []
  | b :: r =>
      if (b <? 128)%N then b :: decode 0 0 r
      else if (b <? 192)%N then
        let acc' := (acc * 64 + (b - 128))%N in
        if (pending <=? 1)%N then acc' :: decode 0 0 r
        else decode (pending - 1) acc' r
      else if (b <? 224)%N then decode 1 (b - 192) r
      else if (b <? 240)%N then decode 2 (b - 224) r
      else decode 3 (b - 240) r
  end.

Definition js (s : string) : jsstr :=
  decode 0 0 (map N_of_ascii (list_ascii_of_string s)).

Definition str_eqb (a b : jsstr) : bool :=
  if list_eq_dec N.eq_dec a b then true else false.

(** [s.startsWith(p)]: the rest of [s] after [p], when [p] is a prefix. *)
Fixpoint stripPrefix (p s : jsstr) : option jsstr :=
  match p, s with
  | [], _ => Some s
  | _ :: _, [] => None
  | a :: p', b :: s' => if (a =? b)%N then stripPrefix p' s' else None
  end.

Definition startsWith (s p : jsstr) : bool :=
  match stripPrefix p s with Some _ => true | None => false end.

Definition endsWith (s p : jsstr) : bool := startsWith (rev s) (rev p).

(** [s.includes(p)] *)
Fixpoint includes (s p : jsstr) : bool :=
  startsWith s p ||
  match s with
  | [] => false
  | _ :: s' => includes s' p
  end.

(** WhiteSpace and LineTerminator code units: the class [\s] of regular
    expressions, which is also what [trim] removes. *)
Definition isWhiteSpace (c : N) : bool :=
  existsb (N.eqb c)
    [9; 10; 11; 12; 13; 32; 160; 5760; 8232; 8233; 8239; 8287; 12288; 65279]%N
  || ((8192 <=? c) && (c <=? 8202))%N.

Fixpoint trimStart (s : jsstr) : jsstr :=
  match s with
  | c :: s' => if isWhiteSpace c then trimStart s' else s
  | [] => []
  end.

Definition trim (s : jsstr) : jsstr := rev (trimStart (rev (trimStart s))).

(** [s.split(/\s+/)]: the pieces between maximal runs of white space,
    empty pieces at the two ends included. *)
Fixpoint splitWs (cur : jsstr) (inSep : bool) (s : jsstr) : list jsstr :=
  match s with
  | [] => [rev cur]
  | c :: s' =>
      if isWhiteSpace c then
        if inSep then splitWs cur true s' else rev cur :: splitWs [] true s'
      else splitWs (c :: cur) false s'
  end.

Definition split_ws (s : jsstr) : list jsstr := splitWs [] false s.

Definition isUpperAscii (c : N) : bool := ((65 <=? c) && (c <=? 90))%N.
Definition isLowerAscii (c : N) : bool := ((97 <=? c) && (c <=? 122))%N.

(** [toLowerCase] on one code unit. *)
Definition lowerChar (c : N) : N :=
  if isUpperAscii c then (c + 32)%N
  else if ((192 <=? c) && (c <=? 222) && negb (c =? 215))%N then (c + 32)%N
  else if (c =? 338)%N then 339%N
  else if (c =? 376)%N then 255%N
  else c.

Definition toLowerCase (s : jsstr) : jsstr := map lowerChar s.

(** Canonical decomposition (NFD) of one lower-case code unit. *)
Definition nfdChar (c : N) : jsstr :=
  let dec (base mark : N) := [base; mark] in
  match c with
  | 224 => dec 97 768  | 225 => dec 97 769  | 226 => dec 97 770
  | 227 => dec 97 771  | 228 => dec 97 776  | 229 => dec 97 778
  | 231 => dec 99 807
  | 232 => dec 101 768 | 233 => dec 101 769 | 234 => dec 101 770
  | 235 => dec 101 776
  | 236 => dec 105 768 | 237 => dec 105 769 | 238 => dec 105 770
  | 239 => dec 105 776
  | 241 => dec 110 771
  | 242 => dec 111 768 | 243 => dec 111 769 | 244 => dec 111 770
  | 245 => dec 111 771 | 246 => dec 111 776
  | 249 => dec 117 768 | 250 => dec 117 769 | 251 => dec 117 770
  | 252 => dec 117 776
  | 253 => dec 121 769 | 255 => dec 121 776
  | _ => [c]
  end%N.

Definition isCombiningMark (c : N) : bool := ((768 <=? c) && (c <=? 879))%N.

(** [normalizeText]: lower case, NFD, then removal of U+0300..U+036F. *)
Definition normalizeText (text : jsstr) : jsstr :=
  filter (fun c => negb (isCombiningMark c)) (flat_map nfdChar (toLowerCase text)).

(** The texts on which [toLowerCase] and [normalizeText] above are those of
    the engine: code units up to U+00FF. *)
Definition latin1Text (text : jsstr) : bool := forallb (fun c => (c <? 256)%N) text.

End JsString.
Export JsString.
Arguments js _%_string.

(** ** Completions: a value or a thrown exception *)

Inductive exn : Type :=
  | SyntaxError (pattern reason : jsstr)
  | DbError (message : jsstr).

(** [error.message]; the wording of a SyntaxError is the engine's, and every
    pattern of the program carries the flag [i]. *)
Definition message_of (e : exn) : jsstr :=
  match e with
  | SyntaxError pattern reason =>
      js "Invalid regular expression: /" ++ pattern ++ js "/i: " ++ reason
  | DbError message => message
  end.

Inductive completion (A : Type) : Type :=
  | Normal (a : A)
  | Throw (e : exn).
Arguments Normal {A} a.
Arguments Throw {A} e.

Definition bind {A B} (c : completion A) (k : A -> completion B) : completion B :=
  match c with
  | Normal a => k a
  | Throw e => Throw e
  end.

Notation "x <- c ;; k" := (bind c (fun x => k))
  (at level 61, c at next level, right associativity).

(** ** Numbers *)

Module JsNumber.
Local Open Scope Q_scope.

(** [Math.round]: to the nearest integer, halves towards plus infinity. *)
Definition Math_round (x : Q) : Q := inject_Z (Qfloor (x + (1 # 2))).
Definition Math_ceil (x : Q) : Q := inject_Z (Qceiling x).
Definition Math_max (a b : Q) : Q := if Qle_bool a b then b else a.
Definition Math_min (a b : Q) : Q := if Qle_bool a b then a else b.

Definition Qltb (a b : Q) : bool := negb (Qle_bool b a).
Definition Qgtb (a b : Q) : bool := Qltb b a.

(** [Math.round(x * 100) / 100] *)
Definition roundCents (x : Q) : Q := Math_round (x * 100) / 100.

(** The common last line [Math.max(0.01, Math.round(cost * 100) / 100)]. *)
Definition atLeastOneCent (cost : Q) : Q := Math_max (1 # 100) (roundCents cost).

(** A whole number of cents. *)
Definition wholeCents (x : Q) : Prop := exists k : Z, x == inject_Z k / 100.

End JsNumber.
Export JsNumber.

(** ** The static tables of the engine *)

Module Tables.
Local Open Scope Q_scope.

Inductive SizeUnit : Type := Uml | Ug.

Record StandardSize : Type := sz { size : Q; sizeUnit : SizeUnit }.

(** [new Set(items)]: the first occurrence of each item, in order. *)
Fixpoint newSet (items : list jsstr) : list jsstr :=
  match items with
  | [] => []
  | x :: r => x :: filter (fun y => negb (str_eqb x y)) (newSet r)
  end.

(** The property names that every object literal inherits from
    [Object.prototype].  Under one of them [table[key]] is a function (the
    prototype itself under [__proto__]): it is not [undefined], it is
    truthy, and arithmetic on it gives NaN. *)
Definition objectPrototypeNames : list jsstr :=
  [ js "constructor"; js "__defineGetter__"; js "__defineSetter__";
    js "hasOwnProperty"; js "__lookupGetter__"; js "__lookupSetter__";
    js "isPrototypeOf"; js "propertyIsEnumerable"; js "toString"; js "valueOf";
    js "__proto__"; js "toLocaleString" ].

Definition inheritedProperty (key : jsstr) : bool :=
  existsb (fun name => str_eqb name key) objectPrototypeNames.

(** A recipe unit whose lower-case, trimmed form is read in [UNIT_TO_G] and
    [UNIT_TO_ML] as a key of the literal or not at all, and a category
    that is read so in [categoryEstimates] ([null] is not looked up). *)
Definition isPlainUnit (unit : jsstr) : bool :=
  negb (inheritedProperty (trim (toLowerCase unit))).

Definition isPlainCategory (ingredientCategory : option jsstr) : bool :=
  match ingredientCategory with
  | Some category => negb (inheritedProperty category)
  | None => true
  end.

(** [table[key]] on the keys of the literal: the value that the program
    reads for every [key] but those of [inheritedProperty]. *)
Fixpoint lookup {V : Type} (table : list (jsstr * V)) (key : jsstr) : option V :=
  match table with
  | [] => None
  | (k, v) :: r => if str_eqb k key then Some v else lookup r key
  end.

Definition categoryEstimates : list (jsstr * Q) :=
  [ (js "Viandes", 8.99); (js "Poissons", 12.99);
    (js "Produits laitiers", 4.99); (js "Fruits et légumes", 2.99);
    (js "Boulangerie", 3.49); (js "Épicerie", 3.99); (js "Surgelés", 5.99) ].

Definition UNIT_TO_ML : list (jsstr * Q) :=
  [ (js "c. à soupe", 15); (js "c.s.", 15); (js "tbsp", 15);
    (js "cuillère à soupe", 15); (js "cuilleres a soupe", 15);
    (js "c. à thé", 5); (js "c.t.", 5); (js "tsp", 5);
    (js "cuillère à thé", 5); (js "cuilleres a the", 5); (js "tasse", 250);
    (js "tasses", 250); (js "cup", 250); (js "cups", 250); (js "ml", 1);
    (js "millilitre", 1); (js "millilitres", 1); (js "cl", 10);
    (js "centilitre", 10); (js "centilitres", 10); (js "l", 1000);
    (js "litre", 1000); (js "litres", 1000) ].

Definition UNIT_TO_G : list (jsstr * Q) :=
  [ (js "g", 1); (js "gramme", 1); (js "grammes", 1); (js "kg", 1000);
    (js "kilogramme", 1000); (js "kilogrammes", 1000); (js "lb", 454);
    (js "lbs", 454); (js "livre", 454); (js "livres", 454); (js "oz", 28.35);
    (js "once", 28.35); (js "onces", 28.35); (js "pincée", 0.5);
    (js "pincee", 0.5); (js "pinch", 0.5) ].

Definition PRODUCT_STANDARD_SIZES : list (jsstr * StandardSize) :=
  [ (js "huile", sz 750 Uml); (js "huile d'olive", sz 750 Uml);
    (js "huile olive", sz 750 Uml); (js "huile végétale", sz 946 Uml);
    (js "huile vegetale", sz 946 Uml); (js "huile de canola", sz 946 Uml);
    (js "vinaigre", sz 500 Uml); (js "vinaigre balsamique", sz 250 Uml);
    (js "sauce soya", sz 450 Uml); (js "sauce soja", sz 450 Uml);
    (js "sirop d'érable", sz 540 Uml); (js "sirop erable", sz 540 Uml);
    (js "miel", sz 500 Uml); (js "lait", sz 2000 Uml);
    (js "crème", sz 473 Uml); (js "creme", sz 473 Uml);
    (js "bouillon", sz 900 Uml); (js "moutarde", sz 250 Uml);
    (js "moutarde de dijon", sz 250 Uml); (js "mayonnaise", sz 450 Uml);
    (js "ketchup", sz 750 Uml); (js "sriracha", sz 480 Uml);
    (js "sauce piquante", sz 150 Uml); (js "tabasco", sz 60 Uml);
    (js "sambal", sz 200 Uml); (js "pâte de tomate", sz 156 Uml);
    (js "pate de tomate", sz 156 Uml); (js "pâte de tomates", sz 156 Uml);
    (js "pate de tomates", sz 156 Uml); (js "vin", sz 750 Uml);
    (js "vin rouge", sz 750 Uml); (js "vin blanc", sz 750 Uml);
    (js "bouillon de boeuf", sz 900 Uml);
    (js "bouillon de poulet", sz 900 Uml);
    (js "bouillon de légumes", sz 900 Uml);
    (js "bouillon de legumes", sz 900 Uml); (js "paprika", sz 50 Ug);
    (js "paprika fumé", sz 50 Ug); (js "paprika fume", sz 50 Ug);
    (js "cumin", sz 50 Ug); (js "origan", sz 25 Ug); (js "oregano", sz 25 Ug);
    (js "thym", sz 25 Ug); (js "thym frais", sz 25 Ug);
    (js "feuille de laurier", sz 10 Ug); (js "feuilles de laurier", sz 10 Ug);
    (js "laurier", sz 10 Ug); (js "basilic", sz 250 Uml);
    (js "basilic frais", sz 250 Uml); (js "basilic haché", sz 250 Uml);
    (js "romarin", sz 250 Uml); (js "romarin frais", sz 250 Uml);
    (js "persil", sz 250 Uml); (js "persil frais", sz 250 Uml);
    (js "persil haché", sz 250 Uml); (js "coriandre", sz 250 Uml);
    (js "coriandre fraîche", sz 250 Uml); (js "coriandre fraiche", sz 250 Uml);
    (js "coriandre hachée", sz 250 Uml); (js "coriandre hachee", sz 250 Uml);
    (js "menthe", sz 250 Uml); (js "menthe fraîche", sz 250 Uml);
    (js "menthe fraiche", sz 250 Uml); (js "ciboulette", sz 250 Uml);
    (js "aneth", sz 250 Uml); (js "cannelle", sz 50 Ug);
    (js "muscade", sz 30 Ug); (js "poivre", sz 50 Ug); (js "sel", sz 500 Ug);
    (js "ail en poudre", sz 50 Ug); (js "poudre d'ail", sz 50 Ug);
    (js "oignon en poudre", sz 50 Ug); (js "poudre d'oignon", sz 50 Ug);
    (js "herbes de provence", sz 30 Ug); (js "épices italiennes", sz 30 Ug);
    (js "epices italiennes", sz 30 Ug); (js "cari", sz 50 Ug);
    (js "curry", sz 50 Ug); (js "gingembre moulu", sz 40 Ug);
    (js "piment", sz 40 Ug); (js "cayenne", sz 40 Ug);
    (js "farine", sz 2500 Ug); (js "sucre", sz 2000 Ug);
    (js "cassonade", sz 1000 Ug); (js "riz", sz 900 Ug);
    (js "pâtes", sz 450 Ug); (js "pates", sz 450 Ug);
    (js "spaghetti", sz 450 Ug); (js "quinoa", sz 400 Ug);
    (js "avoine", sz 1000 Ug); (js "chapelure", sz 425 Ug);
    (js "beurre", sz 454 Ug); (js "fromage", sz 400 Ug);
    (js "parmesan", sz 200 Ug); (js "yogourt", sz 650 Ug);
    (js "crème fraîche", sz 250 Uml); (js "creme fraiche", sz 250 Uml);
    (js "crème sure", sz 500 Uml); (js "creme sure", sz 500 Uml) ].

Definition UNIT_BASED_INGREDIENTS : list jsstr :=
  newSet [ js "oeuf"; js "oeufs"; js "oeuf"; js "œuf"; js "œufs"; js "oignon";
    js "oignons"; js "oignon vert"; js "oignons verts"; js "échalote verte";
    js "echalote verte"; js "ail"; js "gousse d'ail"; js "gousses d'ail";
    js "citron"; js "citrons"; js "lime"; js "limes"; js "orange";
    js "oranges"; js "pomme"; js "pommes"; js "banane"; js "bananes";
    js "avocat"; js "avocats"; js "tomate"; js "tomates"; js "poivron";
    js "poivrons"; js "concombre"; js "concombres"; js "carotte";
    js "carottes"; js "pomme de terre"; js "pommes de terre"; js "patate";
    js "patates"; js "poulet"; js "poitrine de poulet"; js "cuisse de poulet";
    js "pain"; js "baguette"; js "piment"; js "piment oiseau"; js "jalapeño";
    js "jalapeno" ].

Definition UNIT_WEIGHT_IN_GRAMS : list (jsstr * Q) :=
  [ (js "ail", 5); (js "gousse d'ail", 5); (js "gousses d'ail", 5);
    (js "oignon", 150); (js "oignons", 150); (js "oeuf", 50); (js "oeufs", 50);
    (js "citron", 100); (js "citrons", 100); (js "lime", 70); (js "limes", 70);
    (js "orange", 180); (js "oranges", 180); (js "pomme", 180);
    (js "pommes", 180); (js "banane", 120); (js "bananes", 120);
    (js "avocat", 200); (js "avocats", 200); (js "tomate", 150);
    (js "tomates", 150); (js "poivron", 150); (js "poivrons", 150);
    (js "concombre", 300); (js "concombres", 300); (js "carotte", 80);
    (js "carottes", 80); (js "pomme de terre", 200);
    (js "pommes de terre", 200); (js "patate", 200); (js "patates", 200);
    (js "thym frais", 10); (js "thym", 10); (js "feuille de laurier", 0.3);
    (js "feuilles de laurier", 0.3); (js "laurier", 0.3);
    (js "basilic frais", 15); (js "romarin frais", 10); (js "romarin", 10);
    (js "persil frais", 15); (js "persil", 15); (js "coriandre fraîche", 15);
    (js "coriandre fraiche", 15); (js "coriandre", 15);
    (js "menthe fraîche", 10); (js "menthe fraiche", 10); (js "menthe", 10);
    (js "oignon vert", 15); (js "oignons verts", 15);
    (js "échalote verte", 15); (js "echalote verte", 15);
    (js "piment oiseau", 5); (js "piment", 10); (js "jalapeño", 15);
    (js "jalapeno", 15); (js "gingembre", 10); (js "gingembre frais", 10);
    (js "échalote", 30); (js "echalote", 30); (js "brocoli", 300);
    (js "laitue", 400); (js "chou", 500); (js "chou-fleur", 500);
    (js "courgette", 200); (js "courgettes", 200); (js "céleri", 40);
    (js "celeri", 40); (js "champignon", 20); (js "champignons", 20) ].

Definition INGREDIENT_KEYWORDS : list (jsstr * list jsstr) :=
  [ (js "poulet", [js "poulet"; js "volaille"; js "poitrine poulet"; js "cuisse poulet"; js "aile poulet"]);
    (js "boeuf", [js "boeuf"; js "bifteck"; js "steak"; js "viande hachee"; js "haché"]);
    (js "porc", [js "porc"; js "cotelette"; js "longe"; js "filet porc"; js "bacon"; js "jambon"]);
    (js "poisson", [js "poisson"; js "saumon"; js "tilapia"; js "truite"; js "morue"; js "sole"; js "thon"]);
    (js "oeuf", [js "oeuf"; js "oeufs"]);
    (js "lait", [js "lait"; js "lactose"]);
    (js "fromage", [js "fromage"; js "cheddar"; js "mozzarella"; js "parmesan"; js "brie"; js "feta"]);
    (js "yogourt", [js "yogourt"; js "yaourt"; js "grec"; js "iogo"]);
    (js "pain", [js "pain"; js "baguette"; js "croute"; js "tranche"]);
    (js "pates", [js "pate"; js "pates"; js "spaghetti"; js "macaroni"; js "penne"; js "fusilli"; js "catelli"]);
    (js "riz", [js "riz"; js "basmati"; js "jasmin"]);
    (js "tomate", [js "tomate"; js "tomates"]);
    (js "oignon", [js "oignon"; js "oignons"; js "echalote"]);
    (js "ail", [js "ail"; js "gousse"]);
    (js "carotte", [js "carotte"; js "carottes"]);
    (js "pomme de terre", [js "pomme terre"; js "patate"; js "patates"; js "pommes terre"]);
    (js "beurre", [js "beurre"; js "margarine"]);
    (js "huile", [js "huile"; js "olive"; js "canola"; js "vegetale"]);
    (js "sucre", [js "sucre"; js "cassonade"]);
    (js "farine", [js "farine"; js "ble"]);
    (js "legumes", [js "legume"; js "legumes"; js "brocoli"; js "epinard"; js "courgette"; js "poivron"]);
    (js "fruits", [js "pomme"; js "banane"; js "orange"; js "fraise"; js "bleuet"; js "framboise"]) ].

Definition EXCLUDED_PRODUCT_KEYWORDS : list jsstr :=
  [ js "pampers"; js "huggies"; js "couche"; js "couches"; js "diaper";
    js "diapers"; js "tablet"; js "tablette"; js "samsung"; js "apple";
    js "iphone"; js "ipad"; js "galaxy"; js "television"; js "televiseur";
    js "tele"; js "ecran"; js "monitor"; js "matelas"; js "meuble";
    js "meubles"; js "furniture"; js "velo"; js "vélo"; js "bicycle";
    js "exercice"; js "fitness"; js "pelle"; js "neige"; js "outils";
    js "tools"; js "shampoo"; js "shampooing"; js "savon"; js "soap";
    js "detergent"; js "nettoyant"; js "papier toilette"; js "toilet paper";
    js "mouchoir"; js "tissue"; js "vetement"; js "vêtement"; js "clothing";
    js "shirt"; js "pantalon"; js "matcha"; js "supplement"; js "vitamine";
    js "vitamin"; js "fonctionnel"; js "functional"; js "adaptogene";
    js "adaptogen" ].

Definition INGREDIENT_PRICE_CAPS : list (jsstr * Q) :=
  [ (js "eau", 3); (js "water", 3); (js "sel", 4); (js "salt", 4);
    (js "poivre", 8); (js "pepper", 8); (js "sucre", 6); (js "sugar", 6);
    (js "miel", 12); (js "honey", 12); (js "sirop", 12); (js "syrup", 12);
    (js "sauce soya", 6); (js "soy sauce", 6); (js "sauce soja", 6);
    (js "sauce poisson", 6); (js "fish sauce", 6); (js "vinaigre", 6);
    (js "vinegar", 6); (js "huile", 12); (js "oil", 12); (js "moutarde", 5);
    (js "mustard", 5); (js "ketchup", 5); (js "mayonnaise", 6); (js "mayo", 6);
    (js "sambal", 6); (js "sriracha", 6); (js "ail", 5); (js "garlic", 5);
    (js "oignon", 4); (js "onion", 4); (js "echalote", 4); (js "shallot", 4);
    (js "oignons verts", 4); (js "green onion", 4); (js "gingembre", 5);
    (js "ginger", 5); (js "coriandre", 4); (js "cilantro", 4);
    (js "persil", 4); (js "parsley", 4); (js "basilic", 4); (js "basil", 4);
    (js "thym", 4); (js "thyme", 4); (js "romarin", 4); (js "rosemary", 4);
    (js "menthe", 4); (js "mint", 4); (js "laurier", 4); (js "bay", 4);
    (js "piment", 4); (js "chili", 4); (js "jalapeno", 4); (js "cumin", 5);
    (js "paprika", 5); (js "curcuma", 5); (js "carotte", 5); (js "carrot", 5);
    (js "celeri", 4); (js "celery", 4); (js "pomme de terre", 6);
    (js "potato", 6); (js "patate", 6); (js "tomate", 6); (js "tomato", 6);
    (js "concombre", 4); (js "cucumber", 4); (js "poivron", 5);
    (js "bell pepper", 5); (js "laitue", 4); (js "lettuce", 4);
    (js "epinard", 5); (js "spinach", 5); (js "brocoli", 5);
    (js "broccoli", 5); (js "chou", 4); (js "cabbage", 4); (js "courgette", 4);
    (js "zucchini", 4); (js "champignon", 6); (js "mushroom", 6);
    (js "citron", 4); (js "lemon", 4); (js "lime", 4); (js "orange", 5);
    (js "pomme", 5); (js "apple", 5); (js "banane", 4); (js "banana", 4);
    (js "beurre", 8); (js "butter", 8); (js "creme", 6); (js "cream", 6);
    (js "lait", 6); (js "milk", 6); (js "yogourt", 6); (js "yogurt", 6);
    (js "ricotta", 8); (js "feta", 10); (js "parmesan", 12);
    (js "bouillon", 5); (js "broth", 5); (js "stock", 5);
    (js "pate tomate", 4); (js "tomato paste", 4); (js "concentre", 5);
    (js "farine", 6); (js "flour", 6); (js "oeuf", 8); (js "egg", 8);
    (js "tapioca", 6); (js "fecule", 5); (js "starch", 5); (js "levure", 5);
    (js "yeast", 5); (js "gelatine", 5); (js "pates", 6); (js "pasta", 6);
    (js "spaghetti", 6); (js "macaroni", 6); (js "riz", 8); (js "rice", 8);
    (js "quinoa", 10); (js "couscous", 6); (js "noix", 15); (js "nut", 15);
    (js "amande", 15); (js "almond", 15); (js "arachide", 8); (js "peanut", 8);
    (js "sesame", 8) ].

Definition EQUIVALENCE_CACHE_TTL : Z := 5 * 60 * 1000.
Definition MAX_CALCULATION_TIME_MS : Z := 10 * 60 * 1000.
Definition GLOBAL_MAX_INGREDIENT_PRICE : Q := 50.
Definition GLOBAL_MAX_INGREDIENT_COST : Q := 60.
Definition MAX_RECIPE_TOTAL : Q := 200.

End Tables.
Export Tables.

(** ** UnitConverter and EquivalenceCache *)

(** One entry of [ingredientEquivalenceCache], a [Map] from normalized
    ingredient name to [{ toQuantity, toUnit }], in insertion order. *)
Record Equivalence : Type := mkEquivalence { toQuantity : Q; toUnit : jsstr }.

Definition EquivalenceCache := list (jsstr * Equivalence).

(** [text.includes('...')] and [text === '...'] against a literal. *)
Definition has (text : jsstr) (s : string) : bool := includes text (js s).
Definition eqLit (text : jsstr) (s : string) : bool := str_eqb text (js s).
Arguments has _ _%_string.
Arguments eqLit _ _%_string.

Section UnitConverter.
Local Open Scope Q_scope.

(** The module-level cache, as the functions below read it. *)
Variable ingredientEquivalenceCache : EquivalenceCache.

Definition getUnitWeightFromEquivalences (ingredientName : jsstr) : option Q :=
  let normalized := normalizeText ingredientName in
  let exact :=
    match lookup ingredientEquivalenceCache normalized with
    | Some dbEquivalence =>
        if str_eqb (toUnit dbEquivalence) (js "g")
        then Some (toQuantity dbEquivalence) else None
    | None => None
    end in
  match exact with
  | Some q => Some q
  | None =>
      match
        find (fun kv =>
                str_eqb (toUnit (snd kv)) (js "g")
                && (includes normalized (fst kv) || includes (fst kv) normalized))
             ingredientEquivalenceCache
      with
      | Some kv => Some (toQuantity (snd kv))
      | None => None
      end
  end.

Definition getUnitWeightInGrams (ingredientName : jsstr) : option Q :=
  match getUnitWeightFromEquivalences ingredientName with
  | Some dbWeight => Some dbWeight
  | None =>
      let normalized := normalizeText ingredientName in
      match
        find (fun kw =>
                let keyNorm := normalizeText (fst kw) in
                str_eqb normalized keyNorm || includes normalized keyNorm
                || includes keyNorm normalized)
             UNIT_WEIGHT_IN_GRAMS
      with
      | Some kw => Some (snd kw)
      | None => None
      end
  end.

Definition getProductStandardSize (ingredientName : jsstr) : option StandardSize :=
  let normalized := normalizeText ingredientName in
  match find (fun kv => str_eqb (normalizeText (fst kv)) normalized)
             PRODUCT_STANDARD_SIZES with
  | Some kv => Some (snd kv)
  | None =>
      match
        find (fun kv =>
                let keyNorm := normalizeText (fst kv) in
                includes normalized keyNorm || includes keyNorm normalized)
             PRODUCT_STANDARD_SIZES
      with
      | Some kv => Some (snd kv)
      | None => None
      end
  end.

Definition isUnitBasedIngredient (ingredientName : jsstr) : bool :=
  let normalized := normalizeText ingredientName in
  existsb (fun item =>
             includes normalized (normalizeText item)
             || includes (normalizeText item) normalized)
          UNIT_BASED_INGREDIENTS.

Definition weightUnits : list jsstr :=
  [ js "g"; js "kg"; js "gramme"; js "grammes"; js "kilogramme";
    js "kilogrammes"; js "lb"; js "lbs"; js "oz" ].

Definition volumeUnits : list jsstr :=
  [ js "ml"; js "l"; js "cl"; js "millilitre"; js "millilitres"; js "litre";
    js "litres"; js "centilitre"; js "centilitres";
    js "c. à soupe"; js "c.s."; js "tbsp"; js "cuillère à soupe";
    js "cuilleres a soupe";
    js "c. à thé"; js "c.t."; js "tsp"; js "cuillère à thé";
    js "cuilleres a the";
    js "tasse"; js "tasses"; js "cup"; js "cups" ].

(** [list.includes(x)] on an array of strings. *)
Definition arrayIncludes (l : list jsstr) (x : jsstr) : bool :=
  existsb (fun y => str_eqb y x) l.

Definition isWeightOrVolumeUnit (unit : jsstr) : bool :=
  let u := trim (toLowerCase unit) in
  arrayIncludes weightUnits u || arrayIncludes volumeUnits u.

(** ** CostCalculator *)

Definition countingUnits : list jsstr :=
  [ js "gousse"; js "gousses"; js "branche"; js "branches"; js "tige";
    js "tiges"; js "feuille"; js "feuilles"; js "tranche"; js "tranches";
    js "morceau"; js "morceaux"; js "unité"; js "unités"; js "pièce";
    js "pièces"; [] ].

(** The chain of tests on the normalized name that fixes
    [packageSizeGrams] and [isProbablyPerItemPrice] in
    [calculateProportionalCost]. *)
Definition packagingByFamily (normalized : jsstr) (productPrice : Q) : Q * bool :=
  let perItem (threshold item package : Q) :=
    let isProbablyPerItemPrice := Qltb productPrice threshold in
    (if isProbablyPerItemPrice then item else package, isProbablyPerItemPrice) in
  if has normalized "ail" || has normalized "gousse" then (50, false)
  else if has normalized "oignon vert" || has normalized "oignons vert"
          || has normalized "oignons verts" || has normalized "echalote verte"
          || has normalized "echalotes verte" || has normalized "echalotes vertes"
       then (100, false)
  else if has normalized "herbe" || has normalized "thym" || has normalized "romarin"
          || has normalized "basilic" || has normalized "persil"
          || has normalized "coriandre" || has normalized "menthe"
          || has normalized "laurier"
       then (30, false)
  else if has normalized "carotte" then perItem 0.80 80 1000
  else if has normalized "oignon" && negb (has normalized "vert") then perItem 0.80 150 1500
  else if (has normalized "pomme" && has normalized "terre") || has normalized "patate"
       then perItem 0.80 200 2000
  else if has normalized "citron" || has normalized "lime" then perItem 1.50 100 1000
  else if has normalized "orange" then perItem 1.50 180 1000
  else if has normalized "piment" || has normalized "jalapeno" then (100, false)
  else if has normalized "banane" then perItem 1.00 120 1000
  else if has normalized "pomme" && negb (has normalized "terre") then perItem 1.50 180 1000
  else if has normalized "tomate" then perItem 1.50 150 1000
  else if has normalized "avocat" then perItem 3.00 200 600
  else if has normalized "concombre" then perItem 1.50 300 600
  else if has normalized "poivron" then perItem 1.50 150 500
  else if has normalized "celeri" then (500, false)
  else (500, false).

(** The default package size by product family, used when the size table
    has no entry and the recipe unit is a weight or a volume. *)
Definition defaultStandardSize (normalized unitLower : jsstr) : option StandardSize :=
  if has normalized "poulet" || has normalized "boeuf" || has normalized "porc"
     || has normalized "viande" || has normalized "jambon" || has normalized "saucisse"
     || has normalized "bacon" || has normalized "dinde"
  then Some (sz 1000 Ug)
  else if has normalized "poisson" || has normalized "saumon"
          || has normalized "crevette" || has normalized "morue"
       then Some (sz 500 Ug)
  else if has normalized "fromage" then Some (sz 400 Ug)
  else if str_eqb unitLower (js "g") || str_eqb unitLower (js "kg")
       then Some (sz 500 Ug)
  else if str_eqb unitLower (js "ml") || str_eqb unitLower (js "l")
       then Some (sz 500 Uml)
  else None.

(** [standardSize] as [calculateProportionalCost] resolves it. *)
Definition resolveStandardSize (ingredientName unitLower : jsstr) : option StandardSize :=
  match getProductStandardSize ingredientName with
  | Some s => Some s
  | None =>
      if isWeightOrVolumeUnit unitLower
      then defaultStandardSize (normalizeText ingredientName) unitLower
      else None
  end.

(** [recipeQuantityInStandardUnit]: the recipe quantity in ml or g, with the
    density 1 approximation across the two tables; [None] is [null].  For a
    unit of [inheritedProperty] the program has NaN here. *)
Definition recipeQuantityInStandardUnit
    (standardSize : StandardSize) (quantity : Q) (unitLower : jsstr) : option Q :=
  match sizeUnit standardSize with
  | Uml =>
      match lookup UNIT_TO_ML unitLower with
      | Some f => Some (quantity * f)
      | None =>
          match lookup UNIT_TO_G unitLower with
          | Some f => Some (quantity * f)
          | None => None
          end
      end
  | Ug =>
      match lookup UNIT_TO_G unitLower with
      | Some f => Some (quantity * f)
      | None =>
          match lookup UNIT_TO_ML unitLower with
          | Some f => Some (quantity * f)
          | None => None
          end
      end
  end.

(** The test that sends [calculateProportionalCost] to its count-based
    branch. *)
Definition isCountBased (ingredientName unitLower : jsstr) : bool :=
  let hasWeightVolumeUnit := isWeightOrVolumeUnit unitLower in
  let isCountingUnit := arrayIncludes countingUnits unitLower in
  negb hasWeightVolumeUnit && (isUnitBasedIngredient ingredientName || isCountingUnit).

Definition calculateProportionalCost
    (quantity : Q) (unit : jsstr) (productPrice : Q) (ingredientName : jsstr) : Q :=
  let unitLower := trim (toLowerCase unit) in
  if isCountBased ingredientName unitLower then
    match getUnitWeightInGrams ingredientName with
    | Some unitWeight =>
        let totalWeightNeeded := quantity * unitWeight in
        let '(packageSizeGrams, isProbablyPerItemPrice) :=
          packagingByFamily (normalizeText ingredientName) productPrice in
        let cost :=
          if isProbablyPerItemPrice then productPrice * quantity
          else
            let proportion := totalWeightNeeded / packageSizeGrams in
            let cost := productPrice * proportion in
            let numPackagesNeeded := Math_ceil proportion in
            Math_min cost (productPrice * numPackagesNeeded) in
        atLeastOneCent cost
    | None =>
        let multiplier := Math_min (Math_ceil quantity) 2 in
        productPrice * multiplier
    end
  else
    match resolveStandardSize ingredientName unitLower with
    | None => productPrice
    | Some standardSize =>
        match recipeQuantityInStandardUnit standardSize quantity unitLower with
        | None => productPrice
        | Some recipeQuantity =>
            let proportion := recipeQuantity / size standardSize in
            let proportionalPrice := productPrice * proportion in
            atLeastOneCent proportionalPrice
        end
    end.

Definition normalizeQuantityToPackages (quantity : Q) (unit : jsstr) : Q :=
  let u := trim (toLowerCase unit) in
  if eqLit u "g" || eqLit u "gramme" || eqLit u "grammes"
  then Math_max 1 (Math_ceil (quantity / 500))
  else if eqLit u "kg" || eqLit u "kilogramme" || eqLit u "kilogrammes"
  then Math_max 1 (Math_ceil quantity)
  else if eqLit u "ml" || eqLit u "millilitre" || eqLit u "millilitres"
  then Math_max 1 (Math_ceil (quantity / 500))
  else if eqLit u "l" || eqLit u "litre" || eqLit u "litres"
  then Math_max 1 (Math_ceil quantity)
  else if eqLit u "cl" || eqLit u "centilitre" || eqLit u "centilitres"
  then Math_max 1 (Math_ceil (quantity / 50))
  else if eqLit u "c. à soupe" || eqLit u "c.s." || eqLit u "tbsp"
          || eqLit u "cuillère à soupe"
  then 1
  else if eqLit u "c. à thé" || eqLit u "c.t." || eqLit u "tsp"
          || eqLit u "cuillère à thé"
  then 1
  else if eqLit u "tasse" || eqLit u "tasses" || eqLit u "cup" || eqLit u "cups"
  then 1
  else if str_eqb u [] || eqLit u "unité" || eqLit u "unités" || eqLit u "pièce"
          || eqLit u "pièces"
  then 1
  else 1.

(** [quantityNormalized] of [calculateCostFromUnitPrice]: the recipe
    quantity in kg or L; [None] is [null].  For a unit of
    [inheritedProperty] and a price per kg or L the program has NaN
    here. *)
Definition quantityNormalizedFor
    (quantity : Q) (unitLower priceUnitLower ingredientName : jsstr) : option Q :=
  if str_eqb priceUnitLower (js "kg") then
    match lookup UNIT_TO_G unitLower with
    | Some f => Some ((quantity * f) / 1000)
    | None =>
        if eqLit unitLower "g" then Some (quantity / 1000)
        else if eqLit unitLower "kg" then Some quantity
        else
          match lookup UNIT_TO_ML unitLower with
          | Some f => Some ((quantity * f) / 1000)
          | None =>
              if str_eqb unitLower [] || eqLit unitLower "unité" || eqLit unitLower "unités"
                 || eqLit unitLower "pièce" || eqLit unitLower "pièces" then
                match getUnitWeightInGrams ingredientName with
                | Some unitWeight => Some ((quantity * unitWeight) / 1000)
                | None => None
                end
              else None
          end
    end
  else if str_eqb priceUnitLower (js "l") then
    match lookup UNIT_TO_ML unitLower with
    | Some f => Some ((quantity * f) / 1000)
    | None =>
        if eqLit unitLower "ml" then Some (quantity / 1000)
        else if eqLit unitLower "l" then Some quantity
        else
          match lookup UNIT_TO_G unitLower with
          | Some f => Some ((quantity * f) / 1000)
          | None => None
          end
    end
  else None.

Definition calculateCostFromUnitPrice
    (quantity : Q) (unit : jsstr) (unitPrice : Q) (ingredientName priceUnit : jsstr) : Q :=
  let unitLower := trim (toLowerCase unit) in
  let priceUnitLower := toLowerCase priceUnit in
  if str_eqb priceUnitLower (js "unité") || str_eqb priceUnitLower [] then
    atLeastOneCent (unitPrice * quantity)
  else
    match quantityNormalizedFor quantity unitLower priceUnitLower ingredientName with
    | Some quantityNormalized => atLeastOneCent (unitPrice * quantityNormalized)
    | None =>
        if isUnitBasedIngredient ingredientName && str_eqb priceUnitLower (js "kg") then
          let defaultUnitWeight := 100 in
          atLeastOneCent (unitPrice * ((quantity * defaultUnitWeight) / 1000))
        else atLeastOneCent (unitPrice * quantity)
    end.

End UnitConverter.

(** ** ProductMatcher *)

Record UnifiedPriceData : Type := mkUnifiedPriceData {
  up_genericProduct : option jsstr;
  up_regularPrice : option Q;
  up_salePrice : option Q;
  up_unitPrice : option Q;
  up_quantity : Q;
  up_unit : jsstr
}.

Record Promo : Type := mkPromo { promo_productName : jsstr; promoPrice : Q }.
Record Ref : Type := mkRef { ref_productName : jsstr; ref_price : Q }.

Record CachedStoreData : Type := mkCachedStoreData {
  unified : list UnifiedPriceData;
  promos : list Promo;
  refs : list Ref
}.

Record UnifiedMatch : Type := mkUnifiedMatch {
  um_unitPrice : Q;
  um_normalizedUnit : jsstr;
  um_productPrice : Q;
  um_quantity : Q;
  um_unit : jsstr
}.

(** The score [fullNameNorm.length / productNorm.length] of
    [findUnifiedPrice], kept as a pair of lengths: a zero denominator with
    a positive numerator is the value Infinity of the program. *)
Inductive LengthRatio : Type := Ratio (num den : nat).

Definition ratio_gtb (a b : LengthRatio) : bool :=
  let '(Ratio n1 d1) := a in
  let '(Ratio n2 d2) := b in
  match d1, d2 with
  | O, O => false
  | O, S _ => true
  | S _, O => false
  | S _, S _ => (n2 * d1 <? n1 * d2)%nat
  end.

Definition isEmpty (s : jsstr) : bool := match s with [] => true | _ => false end.
Definition isNone {A} (o : option A) : bool := match o with None => true | _ => false end.

(** The loop of [findUnifiedPrice] over [storeData.unified]; an exact match
    of the normalized names leaves the loop at once. *)
Fixpoint findUnifiedLoop (fullNameNorm : jsstr) (searchTerms : list jsstr)
    (entries : list UnifiedPriceData)
    (bestMatch : option UnifiedPriceData) (bestScore : LengthRatio)
    : option UnifiedPriceData :=
  match entries with
  | [] => bestMatch
  | unified :: rest =>
      let continue := findUnifiedLoop fullNameNorm searchTerms rest in
      match up_genericProduct unified with
      | None => continue bestMatch bestScore
      | Some genericProduct =>
          if isEmpty genericProduct then continue bestMatch bestScore
          else
            let productNorm := normalizeText genericProduct in
            if str_eqb productNorm fullNameNorm then Some unified
            else
              let matches :=
                includes productNorm fullNameNorm
                || includes fullNameNorm productNorm
                || existsb (fun term => includes productNorm term) searchTerms in
              if matches then
                let score := Ratio (List.length fullNameNorm) (List.length productNorm) in
                if isNone bestMatch || ratio_gtb score bestScore
                then continue (Some unified) score
                else continue bestMatch bestScore
              else continue bestMatch bestScore
      end
  end.

Section FindUnifiedPrice.
Local Open Scope Q_scope.

Definition findUnifiedPrice (ingredientName : jsstr) (storeData : CachedStoreData)
    : option UnifiedMatch :=
  let searchTerms :=
    filter (fun t => (2 <? List.length t)%nat) (split_ws (normalizeText ingredientName)) in
  let fullNameNorm := normalizeText ingredientName in
  match findUnifiedLoop fullNameNorm searchTerms (unified storeData) None (Ratio 0 1) with
  | None => None
  | Some bestMatch =>
      let productPrice :=
        match up_salePrice bestMatch with
        | Some p => p
        | None => match up_regularPrice bestMatch with Some p => p | None => 0 end
        end in
      if Qeq_bool productPrice 0 then None
      else
        let unit := toLowerCase (up_unit bestMatch) in
        let quantity :=
          if Qeq_bool (up_quantity bestMatch) 0 then 1 else up_quantity bestMatch in
        let orUnite := if isEmpty unit then js "unité" else unit in
        let result (normalizedUnitPrice : Q) (normalizedUnit : jsstr) :=
          Some (mkUnifiedMatch normalizedUnitPrice normalizedUnit productPrice
                  (up_quantity bestMatch) (up_unit bestMatch)) in
        match up_unitPrice bestMatch with
        | Some unitPrice =>
            if eqLit unit "g" || eqLit unit "kg" then result unitPrice (js "kg")
            else if eqLit unit "ml" || eqLit unit "l" then result unitPrice (js "l")
            else result unitPrice orUnite
        | None =>
            if Qgtb quantity 0 then
              if eqLit unit "g" then result ((productPrice / quantity) * 1000) (js "kg")
              else if eqLit unit "ml" then result ((productPrice / quantity) * 1000) (js "l")
              else if eqLit unit "kg" then result (productPrice / quantity) (js "kg")
              else if eqLit unit "l" then result (productPrice / quantity) (js "l")
              else result (productPrice / quantity) orUnite
            else None
        end
  end.

End FindUnifiedPrice.

Definition getRelatedKeywords (ingredientName : jsstr) : list jsstr :=
  let normalized := normalizeText ingredientName in
  newSet
    (flat_map
       (fun entry =>
          let '(key, values) := entry in
          let keyNorm := normalizeText key in
          (if includes normalized keyNorm || includes keyNorm normalized
           then values else [])
          ++ (if existsb (fun v => includes normalized (normalizeText v)) values
              then values else []))
       INGREDIENT_KEYWORDS).

(** *** Whole-word matching through a regular expression

    [matchesWholeWord(text, word)] tests [text] against
    [new RegExp(`(^|\s|[^a-z])${word}($|\s|[^a-z])`, 'i')]; [word] is pasted
    into the pattern as it is. *)

Definition regexSyntaxChars : jsstr := js "\^$.*+?()[]{}|".

(** A word whose characters all stand for themselves in a pattern. *)
Definition isLiteralWord (word : jsstr) : bool :=
  forallb (fun c => negb (existsb (N.eqb c) regexSyntaxChars)) word.

(** A word with an opening parenthesis and neither a closing parenthesis,
    a backslash nor an opening bracket: the parenthesis opens a group that
    the pattern never closes, and the constructor throws a SyntaxError. *)
Definition opensUnterminatedGroup (word : jsstr) : bool :=
  existsb (N.eqb 40) word
  && negb (existsb (fun c => (c =? 41) || (c =? 92) || (c =? 91))%N word).

Definition wholeWordPattern (word : jsstr) : jsstr :=
  js "(^|\s|[^a-z])" ++ word ++ js "($|\s|[^a-z])".

(** Canonicalize of the [i] flag: the upper-case code unit. *)
Definition canonicalize (c : N) : N :=
  if isLowerAscii c then (c - 32)%N
  else if ((224 <=? c) && (c <=? 254) && negb (c =? 247))%N then (c - 32)%N
  else if (c =? 255)%N then 376%N
  else if (c =? 181)%N then 924%N
  else c.

(** The class [[^a-z]] under the [i] flag; it contains the white space. *)
Definition notAsciiLetter (c : N) : bool := negb (isLowerAscii c || isUpperAscii c).

(** The literal [word] at the head of [text], case-insensitively. *)
Fixpoint matchLiteral (word text : jsstr) : option jsstr :=
  match word, text with
  | [], _ => Some text
  | _ :: _, [] => None
  | a :: word', b :: text' =>
      if (canonicalize a =? canonicalize b)%N then matchLiteral word' text' else None
  end.

Definition boundaryAfter (rest : jsstr) : bool :=
  match rest with
  | [] => true
  | c :: _ => notAsciiLetter c
  end.

(** Some position of [text] carries [word] between two boundaries: the
    start of input or a non-letter before, the end of input or a non-letter
    after. *)
Fixpoint wholeWordFrom (boundaryBefore : bool) (text word : jsstr) : bool :=
  (boundaryBefore
   && match matchLiteral word text with
      | Some rest => boundaryAfter rest
      | None => false
      end)
  || match text with
     | [] => false
     | c :: text' => wholeWordFrom (notAsciiLetter c) text' word
     end.

Section ProductMatcher.
Local Open Scope Q_scope.

(** The answer of the regular-expression engine, [RegExp(pattern,
    'i').test(text)], on the patterns that the model does not interpret
    (those with syntax characters coming from [word]). *)
Variable regexpTest : jsstr -> jsstr -> completion bool.

Definition matchesWholeWord (text word : jsstr) : completion bool :=
  if isLiteralWord word then Normal (wholeWordFrom true text word)
  else if opensUnterminatedGroup word then Throw (SyntaxError (wholeWordPattern word) (js "Unterminated group"))
  else regexpTest (wholeWordPattern word) text.

(** The words of length at least 2 of a normalized name. *)
Definition wordsOf (norm : jsstr) : list jsstr :=
  filter (fun w => (2 <=? List.length w)%nat) (split_ws norm).

(** The loop of [scorePromoMatch] over [ingredientWords]; it returns
    [(exactWordMatches, partialMatches)]. *)
Fixpoint countWordMatches (ingredientWords promoWords : list jsstr)
    (exactWordMatches partialMatches : Q) : Q * Q :=
  match ingredientWords with
  | [] => (exactWordMatches, partialMatches)
  | ingWord :: rest =>
      if existsb (fun pw => str_eqb pw ingWord) promoWords then
        countWordMatches rest promoWords (exactWordMatches + 1) partialMatches
      else if existsb (fun pw => startsWith pw ingWord || endsWith pw ingWord) promoWords then
        if (4 <=? List.length ingWord)%nat
        then countWordMatches rest promoWords exactWordMatches (partialMatches + 0.5)
        else countWordMatches rest promoWords exactWordMatches partialMatches
      else countWordMatches rest promoWords exactWordMatches partialMatches
  end.

(** [baseScore], the score before the bonus of the related keywords. *)
Definition baseScore (ingredientWords promoWords : list jsstr) : Q :=
  let '(exactWordMatches, partialMatches) :=
    countWordMatches ingredientWords promoWords 0 0 in
  let n := inject_Z (Z.of_nat (List.length ingredientWords)) in
  let exactScore := exactWordMatches / n in
  let partialScore := partialMatches / n * 0.3 in
  exactScore + partialScore.

(** The last loop of [scorePromoMatch], over the related keywords. *)
Fixpoint keywordFloor (relatedKeywords promoWords : list jsstr) (promoNorm : jsstr)
    (baseScore : Q) : completion Q :=
  match relatedKeywords with
  | [] => Normal baseScore
  | kw :: rest =>
      if existsb (fun pw => str_eqb pw kw) promoWords then Normal (Math_max baseScore 0.5)
      else
        hit <- matchesWholeWord promoNorm kw ;;
        if hit then Normal (Math_max baseScore 0.5)
        else keywordFloor rest promoWords promoNorm baseScore
  end.

Definition isExcludedProduct (promoNorm : jsstr) : bool :=
  existsb (fun excluded => includes promoNorm excluded) EXCLUDED_PRODUCT_KEYWORDS.

(** The test for a match of the full ingredient name as a word:
    [promoWords.some(pw => pw === ingredientNorm) ||
     matchesWholeWord(promoNorm, ingredientNorm)]. *)
Definition matchesFullName (ingredientNorm promoNorm : jsstr) : completion bool :=
  if existsb (fun pw => str_eqb pw ingredientNorm) (wordsOf promoNorm) then Normal true
  else matchesWholeWord promoNorm ingredientNorm.

Definition scorePromoMatch (ingredientName promoName : jsstr) : completion Q :=
  let ingredientNorm := normalizeText ingredientName in
  let promoNorm := normalizeText promoName in
  if isExcludedProduct promoNorm then Normal 0
  else
    let ingredientWords := wordsOf ingredientNorm in
    let promoWords := wordsOf promoNorm in
    whole <- matchesFullName ingredientNorm promoNorm ;;
    if whole then Normal 1
    else if (List.length ingredientWords =? 0)%nat then Normal 0
    else
      keywordFloor (getRelatedKeywords ingredientName) promoWords promoNorm
        (baseScore ingredientWords promoWords).

(** ** PriceSelector *)

Definition getIngredientPriceCap (ingredientName : jsstr) : Q :=
  let normalized := normalizeText ingredientName in
  match
    find (fun kc =>
            includes normalized (normalizeText (fst kc))
            || includes (normalizeText (fst kc)) normalized)
         INGREDIENT_PRICE_CAPS
  with
  | Some kc => snd kc
  | None => GLOBAL_MAX_INGREDIENT_PRICE
  end.

Inductive PriceSource : Type := Unified | Promo_ | Reference | Estimate.

Record IngredientPricingResultWithUnit : Type := mkPricing {
  pr_ingredientName : jsstr;
  price : Q;
  source : PriceSource;
  normalizedUnit : option jsstr
}.

Record BestCandidate : Type := mkBest {
  best_price : Q;
  best_score : Q;
  best_productName : jsstr
}.

(** The loop over [storeData.promos] and, with the same body, over
    [storeData.refs]: entries above the cap are skipped, the score must
    reach 0.5, the higher score wins and then the lower price. *)
Fixpoint bestCandidateLoop (ingredientName : jsstr) (ingredientPriceCap : Q)
    (entries : list (jsstr * Q)) (best : option BestCandidate)
    : completion (option BestCandidate) :=
  match entries with
  | [] => Normal best
  | (productName, entryPrice) :: rest =>
      if Qgtb entryPrice ingredientPriceCap
      then bestCandidateLoop ingredientName ingredientPriceCap rest best
      else
        score <- scorePromoMatch ingredientName productName ;;
        if Qle_bool 0.5 score then
          let better :=
            match best with
            | None => true
            | Some b =>
                Qgtb score (best_score b)
                || (Qeq_bool score (best_score b) && Qltb entryPrice (best_price b))
            end in
          bestCandidateLoop ingredientName ingredientPriceCap rest
            (if better then Some (mkBest entryPrice score productName) else best)
        else bestCandidateLoop ingredientName ingredientPriceCap rest best
  end.

(** [ingredientCategory ? categoryEstimates[ingredientCategory] || 3.99 : 3.99];
    for a category of [inheritedProperty] the program has a function here,
    and NaN after [Math.min]. *)
Definition categoryEstimate (ingredientCategory : option jsstr) : Q :=
  match ingredientCategory with
  | Some category =>
      if isEmpty category then 3.99
      else
        match lookup categoryEstimates category with
        | Some e => if Qeq_bool e 0 then 3.99 else e
        | None => 3.99
        end
  | None => 3.99
  end.

Definition findBestPrice (ingredientName : jsstr) (ingredientCategory : option jsstr)
    (storeData : CachedStoreData) : completion IngredientPricingResultWithUnit :=
  let ingredientPriceCap := getIngredientPriceCap ingredientName in
  let unifiedMatch := findUnifiedPrice ingredientName storeData in
  let fromUnified :=
    match unifiedMatch with
    | Some m => if Qgtb (um_unitPrice m) 0 then Some m else None
    | None => None
    end in
  match fromUnified with
  | Some m =>
      let cappedPrice := Math_min (um_unitPrice m) ingredientPriceCap in
      Normal (mkPricing ingredientName cappedPrice Unified (Some (um_normalizedUnit m)))
  | None =>
      bestPromo <-
        bestCandidateLoop ingredientName ingredientPriceCap
          (map (fun p => (promo_productName p, promoPrice p)) (promos storeData)) None ;;
      match bestPromo with
      | Some b => Normal (mkPricing ingredientName (best_price b) Promo_ None)
      | None =>
          bestRef <-
            bestCandidateLoop ingredientName ingredientPriceCap
              (map (fun r => (ref_productName r, ref_price r)) (refs storeData)) None ;;
          match bestRef with
          | Some b => Normal (mkPricing ingredientName (best_price b) Reference None)
          | None =>
              let estimate := categoryEstimate ingredientCategory in
              let estimate := Math_min estimate ingredientPriceCap in
              Normal (mkPricing ingredientName estimate Estimate None)
          end
      end
  end.

End ProductMatcher.

(** ** RecipeAggregator *)

Record Recipe : Type := mkRecipe {
  recipe_id : jsstr;
  recipe_name : jsstr;
  estimatedPrice : option Q
}.

Record Store : Type := mkStore { store_id : jsstr; store_name : jsstr }.

Record Ingredient : Type := mkIngredient {
  ingredient_id : jsstr;
  ingredient_name : jsstr;
  ingredient_category : option jsstr
}.

Record RecipeIngredient : Type := mkRecipeIngredient {
  ri_recipeId : jsstr;
  ri_ingredientId : jsstr;
  ri_quantity : Q;
  ri_unit : jsstr
}.

(** A value of the [aggregatedIngs] map. *)
Record AggregatedIng : Type := mkAggregated {
  agg_ingredientId : jsstr;
  agg_quantity : Q;
  agg_unit : jsstr
}.

Record IngredientBreakdownItem : Type := mkBreakdown {
  bd_ingredientId : jsstr;
  bd_ingredientName : jsstr;
  bd_quantity : Q;
  bd_unit : jsstr;
  bd_unitPrice : Q;
  bd_priceUnit : jsstr;
  bd_calculatedCost : Q;
  bd_source : PriceSource
}.

(** What the body of the per-pair [try] computes before it touches the
    price table. *)
Record PairResult : Type := mkPairResult {
  totalCost : Q;
  missingCount : nat;
  isComplete : bool;
  breakdown : list IngredientBreakdownItem
}.

Section RecipeAggregator.
Local Open Scope Q_scope.

Variable regexpTest : jsstr -> jsstr -> completion bool.
Variable ingredientEquivalenceCache : EquivalenceCache.

(** [x || 1] on a number and [s || 'unité'] on a string. *)
Definition orOne (x : Q) : Q := if Qeq_bool x 0 then 1 else x.
Definition orUnite (s : jsstr) : jsstr := if isEmpty s then js "unité" else s.

(** The [aggregatedIngs] map in insertion order: a repeated ingredient adds
    its quantity to the entry of its first line and keeps that unit. *)
Fixpoint addAggregated (aggregatedIngs : list AggregatedIng) (ri : RecipeIngredient)
    : list AggregatedIng :=
  match aggregatedIngs with
  | [] => [mkAggregated (ri_ingredientId ri) (orOne (ri_quantity ri)) (orUnite (ri_unit ri))]
  | existing :: rest =>
      if str_eqb (agg_ingredientId existing) (ri_ingredientId ri)
      then mkAggregated (agg_ingredientId existing)
             (agg_quantity existing + orOne (ri_quantity ri)) (agg_unit existing) :: rest
      else existing :: addAggregated rest ri
  end.

Definition aggregateIngredients (recipeIngs : list RecipeIngredient) : list AggregatedIng :=
  fold_left addAggregated recipeIngs [].

(** [new Map(allIngredients.map(i => [i.id, i])).get(id)]: the last
    ingredient with this id. *)
Definition ingredientMap_get (allIngredients : list Ingredient) (id : jsstr)
    : option Ingredient :=
  find (fun i => str_eqb (ingredient_id i) id) (rev allIngredients).

(** [recipeIngredientsMap.get(recipe.id) || []] *)
Definition recipeIngredientsMap_get (allRecipeIngredients : list RecipeIngredient)
    (recipeId : jsstr) : list RecipeIngredient :=
  filter (fun ri => str_eqb (ri_recipeId ri) recipeId) allRecipeIngredients.

Definition capIngredientCost (costForQuantity : Q) : Q :=
  if Qgtb costForQuantity GLOBAL_MAX_INGREDIENT_COST
  then GLOBAL_MAX_INGREDIENT_COST else costForQuantity.

Definition isTruthyUnit (normalizedUnit : option jsstr) : bool :=
  match normalizedUnit with
  | Some u => negb (isEmpty u)
  | None => false
  end.

Definition usesUnitPrice (pricing : IngredientPricingResultWithUnit) : bool :=
  match source pricing with
  | Unified => isTruthyUnit (normalizedUnit pricing)
  | _ => false
  end.

Definition priceUnitLabel (pricing : IngredientPricingResultWithUnit) (unit : jsstr) : jsstr :=
  if usesUnitPrice pricing then
    match normalizedUnit pricing with Some u => u | None => js "unité" end
  else
    let unitLower := toLowerCase unit in
    if existsb (fun u => includes unitLower u) [js "g"; js "kg"; js "lb"; js "oz"]
    then js "kg"
    else if existsb (fun u => includes unitLower u)
              [js "ml"; js "l"; js "cl"; js "tasse"; js "cup"]
    then js "l"
    else js "unité".

Definition isEstimate (s : PriceSource) : bool :=
  match s with Estimate => true | _ => false end.

(** The loop over [aggregatedIngs.values()]. *)
Fixpoint priceIngredients (allIngredients : list Ingredient) (storeData : CachedStoreData)
    (ings : list AggregatedIng)
    (totalCost : Q) (missingCount : nat) (breakdown : list IngredientBreakdownItem)
    : completion (Q * nat * list IngredientBreakdownItem) :=
  match ings with
  | [] => Normal (totalCost, missingCount, breakdown)
  | ri :: rest =>
      match ingredientMap_get allIngredients (agg_ingredientId ri) with
      | None =>
          priceIngredients allIngredients storeData rest totalCost (S missingCount) breakdown
      | Some ingredient =>
          pricing <-
            findBestPrice regexpTest (ingredient_name ingredient)
              (ingredient_category ingredient) storeData ;;
          let missingCount :=
            if isEstimate (source pricing) then S missingCount else missingCount in
          let quantity := orOne (agg_quantity ri) in
          let unit := orUnite (agg_unit ri) in
          let costForQuantity :=
            if usesUnitPrice pricing then
              calculateCostFromUnitPrice ingredientEquivalenceCache quantity unit
                (price pricing) (ingredient_name ingredient)
                (match normalizedUnit pricing with Some u => u | None => [] end)
            else
              calculateProportionalCost ingredientEquivalenceCache quantity unit
                (price pricing) (ingredient_name ingredient) in
          let costForQuantity := capIngredientCost costForQuantity in
          let item :=
            mkBreakdown (agg_ingredientId ri) (ingredient_name ingredient) quantity unit
              (price pricing) (priceUnitLabel pricing unit)
              (roundCents costForQuantity) (source pricing) in
          priceIngredients allIngredients storeData rest
            (totalCost + costForQuantity) missingCount (breakdown ++ [item])
      end
  end.

(** The pricing of one recipe at one store, up to the computation of
    [isComplete]. *)
Definition priceRecipeAtStore (allIngredients : list Ingredient)
    (allRecipeIngredients : list RecipeIngredient)
    (recipe : Recipe) (storeData : CachedStoreData) : completion PairResult :=
  let recipeIngs := recipeIngredientsMap_get allRecipeIngredients (recipe_id recipe) in
  let aggregatedIngs := aggregateIngredients recipeIngs in
  r <- priceIngredients allIngredients storeData aggregatedIngs 0 0%nat [] ;;
  let '(totalCost, missingCount, breakdown) := r in
  let totalCost := roundCents totalCost in
  let totalCost := if Qgtb totalCost MAX_RECIPE_TOTAL then MAX_RECIPE_TOTAL else totalCost in
  let isComplete := (missingCount =? 0)%nat && Qgtb totalCost 0 in
  Normal (mkPairResult totalCost missingCount isComplete breakdown).

End RecipeAggregator.

(** ** CalculationRun *)

Record RecipeStorePrice : Type := mkRecipeStorePrice {
  rsp_id : Z;
  rsp_recipeId : jsstr;
  rsp_storeId : jsstr;
  rsp_weekOf : jsstr;
  rsp_totalCost : Q;
  rsp_missingIngredientsCount : nat;
  rsp_isComplete : bool;
  rsp_ingredientBreakdown : list IngredientBreakdownItem;
  rsp_calculatedAt : jsstr
}.

Record FlyerPromotion : Type := mkFlyerPromotion {
  fp_storeId : jsstr;
  fp_productName : jsstr;
  fp_promoPrice : Q;
  fp_validUntil : jsstr
}.

Record IngredientEquivalenceRow : Type := mkEquivalenceRow {
  eqv_ingredientId : jsstr;
  eqv_toQuantity : option Q;
  eqv_toUnit : jsstr
}.

(** The tables behind [db]. *)
Record Database : Type := mkDatabase {
  tbl_recipes : list Recipe;
  tbl_stores : list Store;
  tbl_ingredients : list Ingredient;
  tbl_recipeIngredients : list RecipeIngredient;
  tbl_unifiedPrices : list (jsstr * UnifiedPriceData);
  tbl_flyerPromotions : list FlyerPromotion;
  tbl_referencePrices : list (jsstr * Ref);
  tbl_recipeStorePrices : list RecipeStorePrice;
  tbl_ingredientEquivalences : list IngredientEquivalenceRow
}.

(** The module-level state together with the database. *)
Record World : Type := mkWorld {
  db : Database;
  isCalculating : bool;
  calculationStartTime : option Z;
  equivalenceCache : EquivalenceCache;
  lastEquivalenceCacheLoad : Z
}.

(** What one call reads from outside: the clock at its three readings, the
    two dates, the time stamp of each row, and the database statements that
    fail, each with the exception it throws. *)
Record Environment : Type := mkEnvironment {
  now_atEntry : Z;
  now_atStart : Z;
  now_atCacheLoad : Z;
  today : jsstr;
  weekOf : jsstr;
  calculatedAt : jsstr -> jsstr -> jsstr;
  fails_equivalences : option exn;
  fails_baseCatalogs : option exn;
  fails_storeCatalog : jsstr -> option exn;
  fails_priceRow : jsstr -> jsstr -> option exn;
  fails_rollup : option exn
}.

Record Summary : Type := mkSummary {
  success : bool;
  recipesProcessed : nat;
  storesProcessed : nat;
  errors : list jsstr
}.

(** The local variables of a run that survive its [try] block. *)
Record RunState : Type := mkRunState {
  run_db : Database;
  run_errors : list jsstr;
  run_recipesProcessed : nat;
  run_storesProcessed : nat
}.

(** Lexicographic order on code units, the order of ISO dates. *)
Fixpoint str_leb (a b : jsstr) : bool :=
  match a, b with
  | [], _ => true
  | _ :: _, [] => false
  | x :: a', y :: b' => (x <? y)%N || ((x =? y)%N && str_leb a' b')
  end.

Definition set_recipeStorePrices (d : Database) (rows : list RecipeStorePrice) : Database :=
  mkDatabase (tbl_recipes d) (tbl_stores d) (tbl_ingredients d) (tbl_recipeIngredients d)
    (tbl_unifiedPrices d) (tbl_flyerPromotions d) (tbl_referencePrices d) rows
    (tbl_ingredientEquivalences d).

Definition set_recipes (d : Database) (rs : list Recipe) : Database :=
  mkDatabase rs (tbl_stores d) (tbl_ingredients d) (tbl_recipeIngredients d)
    (tbl_unifiedPrices d) (tbl_flyerPromotions d) (tbl_referencePrices d)
    (tbl_recipeStorePrices d) (tbl_ingredientEquivalences d).

(** [ingredientEquivalenceCache.set(key, value)] *)
Fixpoint cache_set (cache : EquivalenceCache) (key : jsstr) (value : Equivalence)
    : EquivalenceCache :=
  match cache with
  | [] => [(key, value)]
  | (k, v) :: rest =>
      if str_eqb k key then (k, value) :: rest else (k, v) :: cache_set rest key value
  end.

(** The rows of the equivalence query: the inner join with the ingredients,
    restricted to a non-null [toQuantity]. *)
Definition selectEquivalences (d : Database) : list (jsstr * option Q * jsstr) :=
  flat_map
    (fun e =>
       match eqv_toQuantity e with
       | None => []
       | Some _ =>
           map (fun i => (ingredient_name i, eqv_toQuantity e, eqv_toUnit e))
             (filter (fun i => str_eqb (eqv_ingredientId e) (ingredient_id i))
                (tbl_ingredients d))
       end)
    (tbl_ingredientEquivalences d).

Definition loadIngredientEquivalences (env : Environment) (w : World) : World :=
  let now := now_atCacheLoad env in
  if ((now - lastEquivalenceCacheLoad w <? EQUIVALENCE_CACHE_TTL)%Z
      && (0 <? List.length (equivalenceCache w))%nat)
  then w
  else
    match fails_equivalences env with
    | Some _ => w
    | None =>
        let cache :=
          fold_left
            (fun cache row =>
               let '(ingredientName, toQuantity, toUnit) := row in
               match toQuantity with
               | Some q =>
                   if isEmpty toUnit then cache
                   else cache_set cache (normalizeText ingredientName) (mkEquivalence q toUnit)
               | None => cache
               end)
            (selectEquivalences (db w)) [] in
        mkWorld (db w) (isCalculating w) (calculationStartTime w) cache now
    end.

(** The three per-store queries. *)
Definition loadStoreData (env : Environment) (d : Database) (storeId : jsstr)
    : CachedStoreData :=
  mkCachedStoreData
    (map snd (filter (fun r => str_eqb (fst r) storeId) (tbl_unifiedPrices d)))
    (map (fun p => mkPromo (fp_productName p) (fp_promoPrice p))
       (filter (fun p => str_eqb (fp_storeId p) storeId
                         && str_leb (today env) (fp_validUntil p))
          (tbl_flyerPromotions d)))
    (map snd (filter (fun r => str_eqb (fst r) storeId) (tbl_referencePrices d))).

(** The id that the database gives to an inserted row. *)
Definition nextId (rows : list RecipeStorePrice) : Z :=
  fold_left (fun m r => Z.max m (rsp_id r + 1)) rows 1%Z.

(** Select by (recipe, store, week), then update by id or insert. *)
Definition upsertPrice (env : Environment) (rows : list RecipeStorePrice)
    (recipeId storeId : jsstr) (r : PairResult) : list RecipeStorePrice :=
  let sameKey (row : RecipeStorePrice) :=
    str_eqb (rsp_recipeId row) recipeId && str_eqb (rsp_storeId row) storeId
    && str_eqb (rsp_weekOf row) (weekOf env) in
  match find sameKey rows with
  | Some existingPrice =>
      map (fun row =>
             if (rsp_id row =? rsp_id existingPrice)%Z then
               mkRecipeStorePrice (rsp_id row) (rsp_recipeId row) (rsp_storeId row)
                 (rsp_weekOf row) (totalCost r) (missingCount r) (isComplete r)
                 (breakdown r) (calculatedAt env recipeId storeId)
             else row)
          rows
  | None =>
      rows ++ [mkRecipeStorePrice (nextId rows) recipeId storeId (weekOf env)
                 (totalCost r) (missingCount r) (isComplete r) (breakdown r)
                 (calculatedAt env recipeId storeId)]
  end.

(** The final SQL statement: each recipe with a complete row of positive
    cost takes the least such cost as its estimated price. *)
Definition minCompleteCost (rows : list RecipeStorePrice) (recipeId : jsstr) : option Q :=
  fold_left
    (fun m row =>
       if str_eqb (rsp_recipeId row) recipeId && Qgtb (rsp_totalCost row) 0
          && rsp_isComplete row
       then match m with
            | None => Some (rsp_totalCost row)
            | Some c => Some (Math_min c (rsp_totalCost row))
            end
       else m)
    rows None.

Definition updateEstimatedPrices (d : Database) : Database :=
  set_recipes d
    (map (fun r =>
            match minCompleteCost (tbl_recipeStorePrices d) (recipe_id r) with
            | Some min_price => mkRecipe (recipe_id r) (recipe_name r) (Some min_price)
            | None => r
            end)
       (tbl_recipes d)).

Section CalculationRun.

Variable regexpTest : jsstr -> jsstr -> completion bool.

(** [STORE_IDS.ADONIS] and [STORE_IDS.PROVIGO]: the engine imports
    [STORE_IDS] from a module that is not among the sources, so the two
    identifiers are parameters here. *)
Variable STORE_IDS_ADONIS STORE_IDS_PROVIGO : jsstr.

Variable env : Environment.

Definition isExcludedStore (storeId : jsstr) : bool :=
  str_eqb storeId STORE_IDS_ADONIS || str_eqb storeId STORE_IDS_PROVIGO.

(** The filter applied to the stores before any pricing. *)
Definition removeExcludedStores (rawStores : list Store) : list Store :=
  filter (fun store => negb (isExcludedStore (store_id store))) rawStores.

Definition pairErrorMessage (recipeId storeId : jsstr) (e : exn) : jsstr :=
  js "Recipe " ++ recipeId ++ js " / Store " ++ storeId ++ js ": " ++ message_of e.

(** The body of the per-pair [try]: pricing, then the write to the price
    table. *)
Definition processPair (cache : EquivalenceCache)
    (allIngredients : list Ingredient) (allRecipeIngredients : list RecipeIngredient)
    (store : Store) (storeData : CachedStoreData) (recipe : Recipe)
    (rows : list RecipeStorePrice) : completion (list RecipeStorePrice) :=
  r <- priceRecipeAtStore regexpTest cache allIngredients allRecipeIngredients
         recipe storeData ;;
  match fails_priceRow env (recipe_id recipe) (store_id store) with
  | Some e => Throw e
  | None => Normal (upsertPrice env rows (recipe_id recipe) (store_id store) r)
  end.

(** The inner loop, over the recipes, with its [try]/[catch]. *)
Fixpoint recipeLoop (cache : EquivalenceCache)
    (allIngredients : list Ingredient) (allRecipeIngredients : list RecipeIngredient)
    (store : Store) (storeData : CachedStoreData)
    (recipes : list Recipe) (st : RunState) : RunState :=
  match recipes with
  | [] => st
  | recipe :: rest =>
      let st' :=
        match processPair cache allIngredients allRecipeIngredients store storeData
                recipe (tbl_recipeStorePrices (run_db st)) with
        | Normal rows =>
            mkRunState (set_recipeStorePrices (run_db st) rows) (run_errors st)
              (run_recipesProcessed st) (S (run_storesProcessed st))
        | Throw e =>
            mkRunState (run_db st)
              (run_errors st ++ [pairErrorMessage (recipe_id recipe) (store_id store) e])
              (run_recipesProcessed st) (run_storesProcessed st)
        end in
      recipeLoop cache allIngredients allRecipeIngredients store storeData rest st'
  end.

(** The outer loop, over the stores kept by the filter; a failing store
    query leaves the loop with its exception. *)
Fixpoint storeLoop (cache : EquivalenceCache)
    (allRecipes : list Recipe) (allIngredients : list Ingredient)
    (allRecipeIngredients : list RecipeIngredient)
    (allStores : list Store) (st : RunState) : RunState * option exn :=
  match allStores with
  | [] => (st, None)
  | store :: rest =>
      match fails_storeCatalog env (store_id store) with
      | Some e => (st, Some e)
      | None =>
          let storeData := loadStoreData env (run_db st) (store_id store) in
          let st' :=
            recipeLoop cache allIngredients allRecipeIngredients store storeData
              allRecipes st in
          storeLoop cache allRecipes allIngredients allRecipeIngredients rest
            (mkRunState (run_db st') (run_errors st')
               (List.length allRecipes) (run_storesProcessed st'))
      end
  end.

(** The [try] block of the run: the state it leaves and the exception that
    reached the outer [catch], if any. *)
Definition runBody (cache : EquivalenceCache) (d : Database) : RunState * option exn :=
  let st0 := mkRunState d [] 0 0 in
  match fails_baseCatalogs env with
  | Some e => (st0, Some e)
  | None =>
      let allRecipes := tbl_recipes d in
      let rawStores := tbl_stores d in
      let allIngredients := tbl_ingredients d in
      let allRecipeIngredients := tbl_recipeIngredients d in
      let allStores := removeExcludedStores rawStores in
      let '(st, fatal) :=
        storeLoop cache allRecipes allIngredients allRecipeIngredients allStores st0 in
      match fatal with
      | Some e => (st, Some e)
      | None =>
          match fails_rollup env with
          | Some e => (st, Some e)
          | None =>
              (mkRunState (updateEstimatedPrices (run_db st)) (run_errors st)
                 (run_recipesProcessed st) (run_storesProcessed st), None)
          end
      end
  end.

(** The automatic reset of a lock held for more than ten minutes. *)
Definition autoReset (w : World) : World :=
  match isCalculating w, calculationStartTime w with
  | true, Some startTime =>
      if (startTime =? 0)%Z then w
      else
        let elapsed := (now_atEntry env - startTime)%Z in
        if (MAX_CALCULATION_TIME_MS <? elapsed)%Z
        then mkWorld (db w) false None (equivalenceCache w) (lastEquivalenceCacheLoad w)
        else w
  | _, _ => w
  end.

(** [isCalculating = true; calculationStartTime = Date.now()] *)
Definition acquireLock (w : World) : World :=
  mkWorld (db w) true (Some (now_atStart env)) (equivalenceCache w)
    (lastEquivalenceCacheLoad w).

Definition alreadyInProgress : Summary :=
  mkSummary false 0 0 [js "Calculation already in progress"].

Definition runRecipePriceCalculation (w : World) : Summary * World :=
  let w := autoReset w in
  if isCalculating w then (alreadyInProgress, w)
  else
    let w := loadIngredientEquivalences env (acquireLock w) in
    let '(st, fatal) := runBody (equivalenceCache w) (db w) in
    let summary :=
      match fatal with
      | None =>
          mkSummary true (run_recipesProcessed st) (run_storesProcessed st) (run_errors st)
      | Some e =>
          mkSummary false (run_recipesProcessed st) (run_storesProcessed st)
            (run_errors st ++ [message_of e])
      end in
    (summary, mkWorld (run_db st) false None (equivalenceCache w) (lastEquivalenceCacheLoad w)).

(** [forceResetCalculationFlag] *)
Definition forceResetCalculationFlag (w : World) : World :=
  mkWorld (db w) false None (equivalenceCache w) (lastEquivalenceCacheLoad w).

(** [forceResetCalculationLock] *)
Definition forceResetCalculationLock (w : World) : bool * World :=
  (isCalculating w,
   mkWorld (db w) false None (equivalenceCache w) (lastEquivalenceCacheLoad w)).

End CalculationRun.

(** ** The preview endpoint of [server.ts] *)

Module Preview.
Local Open Scope Q_scope.

(** The numbers of the endpoint, with the two infinities and NaN: the
    search for the best price starts at Infinity and the price per gram is
    a division by a quantity of the table.  Zero carries no sign. *)
Inductive num : Type := Fin (q : Q) | PosInf | NegInf | NaN.

Definition sign_of (q : Q) : comparison := (q ?= 0).

Definition num_mul (a b : num) : num :=
  let inf (positive : bool) := if positive then PosInf else NegInf in
  let infTimes (positive : bool) (q : Q) :=
    match sign_of q with
    | Eq => NaN
    | Gt => inf positive
    | Lt => inf (negb positive)
    end in
  match a, b with
  | NaN, _ | _, NaN => NaN
  | Fin x, Fin y => Fin (x * y)
  | PosInf, Fin y | Fin y, PosInf => infTimes true y
  | NegInf, Fin y | Fin y, NegInf => infTimes false y
  | PosInf, PosInf | NegInf, NegInf => PosInf
  | PosInf, NegInf | NegInf, PosInf => NegInf
  end.

Definition num_div (a b : num) : num :=
  match a, b with
  | NaN, _ | _, NaN => NaN
  | Fin x, Fin y =>
      match sign_of y with
      | Eq => match sign_of x with Eq => NaN | Gt => PosInf | Lt => NegInf end
      | _ => Fin (x / y)
      end
  | Fin _, _ => Fin 0
  | PosInf, Fin y => match sign_of y with Lt => NegInf | _ => PosInf end
  | NegInf, Fin y => match sign_of y with Lt => PosInf | _ => NegInf end
  | _, _ => NaN
  end.

Definition num_add (a b : num) : num :=
  match a, b with
  | NaN, _ | _, NaN => NaN
  | Fin x, Fin y => Fin (x + y)
  | PosInf, NegInf | NegInf, PosInf => NaN
  | PosInf, _ | _, PosInf => PosInf
  | NegInf, _ | _, NegInf => NegInf
  end.

Definition num_ltb (a b : num) : bool :=
  match a, b with
  | NaN, _ | _, NaN => false
  | Fin x, Fin y => Qltb x y
  | NegInf, NegInf | PosInf, _ => false
  | NegInf, _ => true
  | Fin _, PosInf => true
  | Fin _, NegInf => false
  end.

(** [parseFloat(x.toFixed(2))]: two decimals, halves away from zero. *)
Definition toFixed2 (x : num) : num :=
  match x with
  | Fin q =>
      if Qle_bool 0 q then Fin (inject_Z (Qfloor (q * 100 + (1 # 2))) / 100)
      else Fin (- (inject_Z (Qfloor (- q * 100 + (1 # 2))) / 100))
  | _ => x
  end.

(** The values that an identifier property can hold. *)
Inductive jsval : Type := VUndefined | VNum (q : Q) | VStr (s : jsstr).

(** [a === b], which is also the test of [Array.prototype.includes] here. *)
Definition strictEquals (a b : jsval) : bool :=
  match a, b with
  | VUndefined, VUndefined => true
  | VNum x, VNum y => Qeq_bool x y
  | VStr s, VStr t => str_eqb s t
  | _, _ => false
  end.

(** An entry of [prices]. *)
Record PriceEntry : Type := mkPriceEntry {
  pe_storeId : jsval;
  pe_ingredientId : jsval;
  pe_price : num;
  pe_quantity : num;
  pe_unit : jsstr
}.

(** An element of [recipe.ingredients]; a property that the object does
    not have reads as [VUndefined]. *)
Record RecipeLine : Type := mkRecipeLine {
  line_id : jsval;
  line_ingredientId : jsval;
  line_quantity : num;
  line_unit : jsstr
}.

Record PreviewRecipe : Type := mkPreviewRecipe {
  pv_name : jsval;
  pv_ingredients : list RecipeLine
}.

Record BestDeal : Type := mkBestDeal {
  deal_storeId : jsval;
  deal_price : num;
  deal_unit : jsstr;
  costCalculated : num
}.

Record CalculatedIngredient : Type := mkCalculated {
  ci_line : RecipeLine;
  ci_error : option jsstr;
  bestDeal : option BestDeal
}.

Record RecipeTotal : Type := mkRecipeTotal {
  recipeName : jsval;
  ingredients : list CalculatedIngredient;
  totalPrice : num
}.

Definition getStandardQuantityInGrams (quantity : num) (unit : jsstr) : num :=
  let u := trim (toLowerCase unit) in
  if eqLit u "kg" then num_mul quantity (Fin 1000)
  else if eqLit u "lb" || eqLit u "lbs" || eqLit u "livre" then num_mul quantity (Fin 454)
  else if eqLit u "l" then num_mul quantity (Fin 1000)
  else if eqLit u "ml" then quantity
  else quantity.

Definition allowedStoreIds : list jsval := [VNum 1; VNum 2; VNum 3; VNum 4].

Definition notAvailable : jsstr := js "Non disponible dans les épiceries sélectionnées".

Definition availablePricesFor (prices : list PriceEntry) (ingredient : RecipeLine)
    : list PriceEntry :=
  filter (fun p =>
            strictEquals (pe_ingredientId p) (line_id ingredient)
            && existsb (fun a => strictEquals a (pe_storeId p)) allowedStoreIds)
         prices.

(** The [forEach] that keeps the cheapest cost and its deal. *)
Definition bestDealStep (ingredient : RecipeLine) (acc : num * option BestDeal)
    (p : PriceEntry) : num * option BestDeal :=
  let '(bestPrice, bestDeal) := acc in
  let storeQtyInGrams := getStandardQuantityInGrams (pe_quantity p) (pe_unit p) in
  let pricePerGram := num_div (pe_price p) storeQtyInGrams in
  let recipeNeedInGrams :=
    getStandardQuantityInGrams (line_quantity ingredient) (line_unit ingredient) in
  let costForRecipe := num_mul pricePerGram recipeNeedInGrams in
  if num_ltb costForRecipe bestPrice
  then (costForRecipe,
        Some (mkBestDeal (pe_storeId p) (pe_price p) (pe_unit p) (toFixed2 costForRecipe)))
  else (bestPrice, bestDeal).

(** The callback of [recipe.ingredients.map], with the two variables of
    the recipe that it updates. *)
Definition calculateIngredient (prices : list PriceEntry)
    (acc : num * bool * list CalculatedIngredient) (ingredient : RecipeLine)
    : num * bool * list CalculatedIngredient :=
  let '(recipeTotalPrice, isRecipeValid, done) := acc in
  let availablePrices := availablePricesFor prices ingredient in
  match availablePrices with
  | [] => (recipeTotalPrice, false, done ++ [mkCalculated ingredient (Some notAvailable) None])
  | _ :: _ =>
      let '(bestPrice, bestDeal) :=
        fold_left (bestDealStep ingredient) availablePrices (PosInf, None) in
      (num_add recipeTotalPrice bestPrice, isRecipeValid,
       done ++ [mkCalculated ingredient None bestDeal])
  end.

(** The handler of [GET /calculate]. *)
Definition calculate (recipes : list PreviewRecipe) (prices : list PriceEntry)
    : list RecipeTotal :=
  map (fun recipe =>
         let '(recipeTotalPrice, isRecipeValid, calculatedIngredients) :=
           fold_left (calculateIngredient prices) (pv_ingredients recipe) (Fin 0, true, []) in
         mkRecipeTotal (pv_name recipe) calculatedIngredients
           (if isRecipeValid then toFixed2 recipeTotalPrice else Fin 0))
      recipes.

(** *** The data of [mock-data.ts] *)

Definition STORE_IDS_PROVIGO : jsstr := js "provigo".
Definition STORE_IDS_ADONIS : jsstr := js "adonis".

Definition mockLine (ingredientId : string) (quantity : Q) (unit : string) : RecipeLine :=
  mkRecipeLine VUndefined (VStr (js ingredientId)) (Fin quantity) (js unit).

Definition mockPrice (storeId ingredientId : string) (price quantity : Q) (unit : string)
    : PriceEntry :=
  mkPriceEntry (VStr (js storeId)) (VStr (js ingredientId)) (Fin price) (Fin quantity)
    (js unit).

Definition recipes : list PreviewRecipe :=
  [ mkPreviewRecipe VUndefined
      [ mockLine "ing_boeuf" 1 "lb"; mockLine "ing_patates" 1 "kg";
        mockLine "ing_mais" 398 "ml" ];
    mkPreviewRecipe VUndefined
      [ mockLine "ing_safran" 2 "g"; mockLine "ing_boeuf" 500 "g" ] ].

Definition prices : list PriceEntry :=
  [ mockPrice "iga" "ing_boeuf" 6.99 1 "lb";
    mockPrice "iga" "ing_patates" 4.99 5 "lb";
    mockPrice "iga" "ing_mais" 1.99 398 "ml";
    mockPrice "super-c" "ing_boeuf" 4.44 1 "lb";
    mockPrice "super-c" "ing_patates" 2.99 5 "lb";
    mockPrice "super-c" "ing_mais" 0.99 398 "ml";
    mockPrice "metro" "ing_boeuf" 5.49 1 "lb";
    mockPrice "metro" "ing_patates" 3.49 5 "lb";
    mockPrice "metro" "ing_mais" 1.49 398 "ml";
    mockPrice "maxi" "ing_boeuf" 4.99 1 "lb";
    mockPrice "maxi" "ing_patates" 2.49 5 "lb";
    mockPrice "maxi" "ing_mais" 0.89 398 "ml";
    mockPrice "adonis" "ing_boeuf" 1.00 1 "lb";
    mockPrice "adonis" "ing_patates" 0.99 5 "lb";
    mockPrice "adonis" "ing_mais" 0.49 398 "ml";
    mockPrice "provigo" "ing_boeuf" 5.99 1 "lb" ].

End Preview.

(** * Vocabulary of the statements *)

Section CostVocabulary.
Local Open Scope Q_scope.



End CostVocabulary.

Section MatcherVocabulary.
Local Open Scope Q_scope.

(** The value 1.0 as the result of a call. *)
Definition scoresOne (c : completion Q) : Prop :=
  match c with
  | Normal s => s == 1
  | Throw _ => False
  end.

Definition hasExactWord (promoWords : list jsstr) (ingWord : jsstr) : bool :=
  existsb (fun pw => str_eqb pw ingWord) promoWords.

(** A partial match in the words of the specification: an ingredient word
    of at least 4 characters, without an exact match, that is a prefix or a
    suffix of some candidate word. *)
Definition isPartialWord (promoWords : list jsstr) (ingWord : jsstr) : bool :=
  negb (hasExactWord promoWords ingWord)
  && existsb (fun pw => startsWith pw ingWord || endsWith pw ingWord) promoWords
  && (4 <=? List.length ingWord)%nat.

Definition count (f : jsstr -> bool) (l : list jsstr) : Q :=
  inject_Z (Z.of_nat (List.length (filter f l))).

(** The formula of the specification:
    [exactWordMatches / n + 0.3 * (partialMatches / n)], the two counts
    being numbers of words. *)
Definition specBaseScore (ingredientWords promoWords : list jsstr) : Q :=
  let n := inject_Z (Z.of_nat (List.length ingredientWords)) in
  count (hasExactWord promoWords) ingredientWords / n
  + 0.3 * (count (isPartialWord promoWords) ingredientWords / n).

(** The formula that the loop computes: a partial word weighs one half. *)
Definition halfWeightBaseScore (ingredientWords promoWords : list jsstr) : Q :=
  let n := inject_Z (Z.of_nat (List.length ingredientWords)) in
  count (hasExactWord promoWords) ingredientWords / n
  + 0.3 * (0.5 * count (isPartialWord promoWords) ingredientWords / n).

End MatcherVocabulary.

Section SelectorVocabulary.
Local Open Scope Q_scope.

Variable regexpTest : jsstr -> jsstr -> completion bool.

(** The unified catalog yields a price: a match with a positive unit
    price. *)
Definition unifiedPriceFound (ingredientName : jsstr) (storeData : CachedStoreData) : bool :=
  match findUnifiedPrice ingredientName storeData with
  | Some m => Qgtb (um_unitPrice m) 0
  | None => false
  end.

(** A promotion or a reference price that the selector accepts: within
    the cap of the ingredient and with a score of at least 0.5. *)
Definition accepted (ingredientName : jsstr) (entry : jsstr * Q) : bool :=
  negb (Qgtb (snd entry) (getIngredientPriceCap ingredientName))
  && match scorePromoMatch regexpTest ingredientName (fst entry) with
     | Normal score => Qle_bool 0.5 score
     | Throw _ => false
     end.

Definition promoEntries (storeData : CachedStoreData) : list (jsstr * Q) :=
  map (fun p => (promo_productName p, promoPrice p)) (promos storeData).

Definition refEntries (storeData : CachedStoreData) : list (jsstr * Q) :=
  map (fun r => (ref_productName r, ref_price r)) (refs storeData).

(** No source of the priority chain yields a price. *)
Definition noPriceFound (ingredientName : jsstr) (storeData : CachedStoreData) : bool :=
  negb (unifiedPriceFound ingredientName storeData)
  && forallb (fun e => negb (accepted ingredientName e)) (promoEntries storeData)
  && forallb (fun e => negb (accepted ingredientName e)) (refEntries storeData).

End SelectorVocabulary.

Section AggregatorVocabulary.

Variable regexpTest : jsstr -> jsstr -> completion bool.
Variable allIngredients : list Ingredient.
Variable storeData : CachedStoreData.

(** An aggregated line whose ingredient id is not in [ingredientMap]. *)
Definition isUnknownIngredient (ri : AggregatedIng) : bool :=
  isNone (ingredientMap_get allIngredients (agg_ingredientId ri)).

(** An aggregated line whose price is the category estimate. *)
Definition fellBackToEstimate (ri : AggregatedIng) : bool :=
  match ingredientMap_get allIngredients (agg_ingredientId ri) with
  | Some ingredient =>
      match findBestPrice regexpTest (ingredient_name ingredient)
              (ingredient_category ingredient) storeData with
      | Normal pricing => isEstimate (source pricing)
      | Throw _ => false
      end
  | None => false
  end.

Definition linesOf (allRecipeIngredients : list RecipeIngredient) (recipe : Recipe)
    : list AggregatedIng :=
  aggregateIngredients (recipeIngredientsMap_get allRecipeIngredients (recipe_id recipe)).

End AggregatorVocabulary.

Section RunVocabulary.

Variable regexpTest : jsstr -> jsstr -> completion bool.
Variable ADONIS PROVIGO : jsstr.
Variable env : Environment.

(** The failures that reach the outer [catch]: the load of the base
    catalogs, the load of the catalog of a store that is not excluded, or
    the final update of the estimated prices. *)
Definition fatalFailure (d : Database) : Prop :=
  fails_baseCatalogs env <> None
  \/ (exists store, In store (tbl_stores d) /\ isExcludedStore ADONIS PROVIGO (store_id store) = false
                    /\ fails_storeCatalog env (store_id store) <> None)
  \/ fails_rollup env <> None.

(** The cache that a run works with: the one left by
    [loadIngredientEquivalences], called once the lock is taken. *)
Definition cacheForRun (w : World) : EquivalenceCache :=
  equivalenceCache (loadIngredientEquivalences env (acquireLock env (autoReset env w))).

(** A (store, recipe) pair that goes through its [try] without an
    exception: the pricing returns and the write to the price table does
    not fail. *)
Definition pairSucceeds (cache : EquivalenceCache) (d : Database)
    (pair : Store * Recipe) : bool :=
  let '(store, recipe) := pair in
  match priceRecipeAtStore regexpTest cache (tbl_ingredients d) (tbl_recipeIngredients d)
          recipe (loadStoreData env d (store_id store)) with
  | Normal _ => isNone (fails_priceRow env (recipe_id recipe) (store_id store))
  | Throw _ => false
  end.

(** The pairs that a run goes through. *)
Definition pairsOf (d : Database) : list (Store * Recipe) :=
  list_prod (removeExcludedStores ADONIS PROVIGO (tbl_stores d)) (tbl_recipes d).

(** A minimum taken by the final update comes from the row of a store that
    is not excluded. *)
Definition rollupAvoidsExcludedStores (rows : list RecipeStorePrice) : Prop :=
  forall recipeId min_price,
    minCompleteCost rows recipeId = Some min_price ->
    exists row,
      In row rows /\ rsp_recipeId row = recipeId /\ rsp_isComplete row = true
      /\ rsp_totalCost row = min_price
      /\ isExcludedStore ADONIS PROVIGO (rsp_storeId row) = false.

Definition noRowOfExcludedStore (rows : list RecipeStorePrice) : Prop :=
  forall row, In row rows -> isExcludedStore ADONIS PROVIGO (rsp_storeId row) = false.

(** The rows of excluded stores in [rows] were already in [rows0], and the
    ids of [rows] are distinct. *)
Definition keepsExcludedRows (rows0 rows : list RecipeStorePrice) : Prop :=
  NoDup (map rsp_id rows)
  /\ forall row, In row rows -> isExcludedStore ADONIS PROVIGO (rsp_storeId row) = true -> In row rows0.

End RunVocabulary.

(** An identifier of the allowed list of the preview. *)
Definition allowedId (id : Preview.jsval) : Prop :=
  existsb (fun a => Preview.strictEquals a id) Preview.allowedStoreIds = true.


(** The best deals of the preview name allowed stores only. *)
Definition dealsNameAllowedStores (results : list Preview.RecipeTotal) : Prop :=
  forall r ci deal,
    In r results -> In ci (Preview.ingredients r) -> Preview.bestDeal ci = Some deal ->
    existsb (fun a => Preview.strictEquals a (Preview.deal_storeId deal))
      Preview.allowedStoreIds = true
    /\ Preview.deal_storeId deal <> Preview.VStr Preview.STORE_IDS_ADONIS
    /\ Preview.deal_storeId deal <> Preview.VStr Preview.STORE_IDS_PROVIGO.

(** ** A small database

    One recipe of one kilogram of beef, the stores IGA and Adonis, and a
    price row of Adonis left by an earlier week. *)

Module Sample.
Local Open Scope Q_scope.

Definition beefAt (storeId : string) (pricePerKg : Q) : jsstr * UnifiedPriceData :=
  (js storeId,
   mkUnifiedPriceData (Some (js "boeuf")) (Some pricePerKg) None (Some pricePerKg) 1 (js "kg")).

Definition database : Database :=
  mkDatabase
    [mkRecipe (js "r1") (js "Steak") None]
    [mkStore (js "iga") (js "IGA"); mkStore (js "adonis") (js "Adonis")]
    [mkIngredient (js "i1") (js "boeuf") (Some (js "Viandes"))]
    [mkRecipeIngredient (js "r1") (js "i1") 1 (js "kg")]
    [beefAt "iga" 7; beefAt "adonis" 1]
    [] []
    [mkRecipeStorePrice 1 (js "r1") (js "adonis") (js "2024-01-01") 1 0 true []
       (js "2024-01-03T06:00:00.000Z")]
    [].

Definition environment : Environment :=
  mkEnvironment 1000 1000 1000 (js "2024-01-10") (js "2024-01-08")
    (fun _ _ => js "2024-01-10T06:00:00.000Z")
    None None (fun _ => None) (fun _ _ => None) None.

Definition noRegexp : jsstr -> jsstr -> completion bool := fun _ _ => Normal false.

Definition idle : World := mkWorld database false None [] 0.
Definition busy : World := mkWorld database true (Some 500%Z) [] 0.

Definition run : World -> Summary * World :=
  runRecipePriceCalculation noRegexp Preview.STORE_IDS_ADONIS Preview.STORE_IDS_PROVIGO
    environment.

End Sample.

(** ** Vocabulary of the further properties *)

(** The entries of the unified catalog that match a normalized name
    exactly. *)
Definition isExactEntry (fullNameNorm : jsstr) (u : UnifiedPriceData) : bool :=
  match up_genericProduct u with
  | Some genericProduct =>
      negb (isEmpty genericProduct) && str_eqb (normalizeText genericProduct) fullNameNorm
  | None => false
  end.

(** The sum of a list of numbers. *)
Definition sumQ (l : list Q) : Q := fold_right Qplus 0%Q l.

(** The quantities, read as the aggregator reads them, of the lines of a
    recipe that name one ingredient. *)
Definition quantitiesOf (ingredientId : jsstr) (lines : list RecipeIngredient) : list Q :=
  map (fun ri => orOne (ri_quantity ri))
    (filter (fun ri => str_eqb (ri_ingredientId ri) ingredientId) lines).

(** The unit, read as the aggregator reads it, of the first line that names
    one ingredient. *)
Definition firstUnitOf (ingredientId : jsstr) (lines : list RecipeIngredient)
    : option jsstr :=
  match find (fun ri => str_eqb (ri_ingredientId ri) ingredientId) lines with
  | Some ri => Some (orUnite (ri_unit ri))
  | None => None
  end.

(** The aggregated lines whose unit, and whose ingredient's category, are
    read in the conversion tables and in [categoryEstimates] as keys of
    the literals ([isPlainUnit], [isPlainCategory]): none of their costs
    is NaN. *)
Definition readsPlainKeys (allIngredients : list Ingredient)
    (lines : list AggregatedIng) : bool :=
  forallb
    (fun ri =>
       isPlainUnit (agg_unit ri)
       && match ingredientMap_get allIngredients (agg_ingredientId ri) with
          | Some ingredient => isPlainCategory (ingredient_category ingredient)
          | None => true
          end)
    lines.

Section AggregationVocabulary.
Local Open Scope Q_scope.

(** What the aggregated lines hold after the lines [lines] of a recipe. *)
Definition aggregates (acc : list AggregatedIng) (lines : list RecipeIngredient) : Prop :=
  NoDup (map agg_ingredientId acc)
  /\ (forall a, In a acc ->
        agg_quantity a == sumQ (quantitiesOf (agg_ingredientId a) lines)
        /\ firstUnitOf (agg_ingredientId a) lines = Some (agg_unit a))
  /\ (forall ri, In ri lines -> In (ri_ingredientId ri) (map agg_ingredientId acc)).

End AggregationVocabulary.

(** The rows of the price table for one (recipe, store, week) key. *)
Definition rowsWithKey (recipeId storeId week : jsstr) (rows : list RecipeStorePrice)
    : list RecipeStorePrice :=
  filter (fun row =>
            str_eqb (rsp_recipeId row) recipeId && str_eqb (rsp_storeId row) storeId
            && str_eqb (rsp_weekOf row) week)
         rows.

(** The rows that the final update looks at for one recipe: complete, of
    positive cost. *)
Definition countsForRollup (recipeId : jsstr) (row : RecipeStorePrice) : bool :=
  str_eqb (rsp_recipeId row) recipeId && Qgtb (rsp_totalCost row) 0
  && rsp_isComplete row.

(** What identifies a row: its id and its key. *)
Definition rowIdentity (row : RecipeStorePrice) : Z * jsstr * jsstr * jsstr :=
  (rsp_id row, rsp_recipeId row, rsp_storeId row, rsp_weekOf row).

(** The tables that a run only reads. *)
Definition catalogsOf (d : Database) :=
  (tbl_stores d, tbl_ingredients d, tbl_recipeIngredients d, tbl_unifiedPrices d,
   tbl_flyerPromotions d, tbl_referencePrices d, tbl_ingredientEquivalences d).

(** The rows of the equivalence query that the loader stores. *)
Definition isUsableEquivalence (row : jsstr * option Q * jsstr) : bool :=
  match row with
  | (_, Some _, toUnit) => negb (isEmpty toUnit)
  | (_, None, _) => false
  end.

(** The cache entry that the rows of the query leave under a key: the
    name and the value of the last row that the loader stores under it. *)
Definition lastUsableRow (rows : list (jsstr * option Q * jsstr))
    (entry : jsstr * Equivalence) : Prop :=
  exists before name q unit after,
    rows = before ++ (name, Some q, unit) :: after
    /\ isEmpty unit = false
    /\ entry = (normalizeText name, mkEquivalence q unit)
    /\ forall row, In row after -> isUsableEquivalence row = true ->
                   normalizeText (fst (fst row)) <> normalizeText name.

(** The loop of [loadIngredientEquivalences] over the rows of the query. *)
Definition cacheStep (cache : EquivalenceCache) (row : jsstr * option Q * jsstr)
    : EquivalenceCache :=
  let '(ingredientName, toQuantity, toUnit) := row in
  match toQuantity with
  | Some q =>
      if isEmpty toUnit then cache
      else cache_set cache (normalizeText ingredientName) (mkEquivalence q toUnit)
  | None => cache
  end.

(** The second table keeps the rows of the first, each with its id and its
    key and in the same order, and may have more rows after them. *)
Definition extendsTable (rows rows' : list RecipeStorePrice) : Prop :=
  exists added, map rowIdentity rows' = map rowIdentity rows ++ added.

(** What a run may change in the database: the estimated prices of the
    recipes and the price rows, of which none is removed. *)
Definition onlyPricesChange (d d' : Database) : Prop :=
  catalogsOf d' = catalogsOf d
  /\ map recipe_id (tbl_recipes d') = map recipe_id (tbl_recipes d)
  /\ map recipe_name (tbl_recipes d') = map recipe_name (tbl_recipes d)
  /\ extendsTable (tbl_recipeStorePrices d) (tbl_recipeStorePrices d').

(** The rows of the price table carry distinct ids (the primary key). *)
Definition distinctIds (rows : list RecipeStorePrice) : Prop :=
  NoDup (map rsp_id rows).

(** What [normalizeText] makes of one code unit. *)
Definition normalizeChar (c : N) : jsstr :=
  filter (fun d => negb (isCombiningMark d)) (nfdChar (lowerChar c)).

Definition settledChar (c : N) : bool :=
  str_eqb (flat_map normalizeChar (normalizeChar c)) (normalizeChar c)
  && latin1Text (normalizeChar c).

(** The cost of the quantity of a recipe line at one entry of the price
    table, as the preview computes it. *)
Definition costForRecipe (ingredient : Preview.RecipeLine) (p : Preview.PriceEntry)
    : Preview.num :=
  Preview.num_mul
    (Preview.num_div (Preview.pe_price p)
       (Preview.getStandardQuantityInGrams (Preview.pe_quantity p) (Preview.pe_unit p)))
    (Preview.getStandardQuantityInGrams (Preview.line_quantity ingredient)
       (Preview.line_unit ingredient)).

(** The deal that the preview records for an entry and its cost. *)
Definition dealOf (p : Preview.PriceEntry) (cost : Preview.num) : Preview.BestDeal :=
  Preview.mkBestDeal (Preview.pe_storeId p) (Preview.pe_price p) (Preview.pe_unit p)
    (Preview.toFixed2 cost).

(** What the preview answers for one line, the other lines put aside. *)
Definition calculatedFor (prices : list Preview.PriceEntry)
    (ingredient : Preview.RecipeLine) : Preview.CalculatedIngredient :=
  match Preview.availablePricesFor prices ingredient with
  | [] => Preview.mkCalculated ingredient (Some Preview.notAvailable) None
  | available =>
      Preview.mkCalculated ingredient None
        (snd (fold_left (Preview.bestDealStep ingredient) available (Preview.PosInf, None)))
  end.

(** The line has an entry at an allowed store. *)
Definition hasAvailablePrice (prices : list Preview.PriceEntry)
    (ingredient : Preview.RecipeLine) : bool :=
  match Preview.availablePricesFor prices ingredient with
  | [] => false
  | _ :: _ => true
  end.

Section PreviewVocabulary.
Local Open Scope Q_scope.

Import Preview.

(** The state of the search for the best deal after the entries [seen]. *)
Definition cheapestSoFar (line : RecipeLine) (seen : list PriceEntry)
    (acc : num * option BestDeal) : Prop :=
  (seen = [] /\ acc = (PosInf, None))
  \/ exists p c,
       In p seen /\ costForRecipe line p = Fin c
       /\ acc = (Fin c, Some (dealOf p (Fin c)))
       /\ forall q cq, In q seen -> costForRecipe line q = Fin cq -> c <= cq.

Definition previewLine : RecipeLine :=
  mkRecipeLine (VNum 7) VUndefined (Fin 1) (js "kg").

Definition previewPrices : list PriceEntry :=
  [ mkPriceEntry (VNum 1) (VNum 7) (Fin 6.99) (Fin 1) (js "lb");
    mkPriceEntry (VNum 3) (VNum 7) (Fin 4.99) (Fin 1) (js "lb");
    mkPriceEntry (VNum 9) (VNum 7) (Fin 1) (Fin 1) (js "lb") ].

End PreviewVocabulary.

Section ReplayVocabulary.

Variable regexpTest : jsstr -> jsstr -> completion bool.
Variable env : Environment.

Definition sameKey (recipeId storeId : jsstr) (row : RecipeStorePrice) : bool :=
  str_eqb (rsp_recipeId row) recipeId && str_eqb (rsp_storeId row) storeId
  && str_eqb (rsp_weekOf row) (weekOf env).

Definition rowFor (recipeId storeId : jsstr) (r : PairResult) (id : Z) : RecipeStorePrice :=
  mkRecipeStorePrice id recipeId storeId (weekOf env) (totalCost r) (missingCount r)
    (isComplete r) (breakdown r) (calculatedAt env recipeId storeId).

(** The row that the select of the upsert finds holds the result [r]. *)
Definition settled (recipeId storeId : jsstr) (r : PairResult)
    (rows : list RecipeStorePrice) : Prop :=
  exists row, find (sameKey recipeId storeId) rows = Some row
              /\ row = rowFor recipeId storeId r (rsp_id row).

Definition rewritten (recipeId storeId : jsstr) (r : PairResult)
    (existingPrice row : RecipeStorePrice) : RecipeStorePrice :=
  if (rsp_id row =? rsp_id existingPrice)%Z then
    mkRecipeStorePrice (rsp_id row) (rsp_recipeId row) (rsp_storeId row)
      (rsp_weekOf row) (totalCost r) (missingCount r) (isComplete r)
      (breakdown r) (calculatedAt env recipeId storeId)
  else row.

Variable cache : EquivalenceCache.
Variable allIngredients : list Ingredient.
Variable allRecipeIngredients : list RecipeIngredient.
Variable catalog : jsstr -> CachedStoreData.

(** The outcome of the [try] block of a (store, recipe) pair, the write to
    the table put aside. *)
Definition pairOutcome (key : jsstr * jsstr) : completion PairResult :=
  let '(storeId, recipeId) := key in
  r <- priceRecipeAtStore regexpTest cache allIngredients allRecipeIngredients
         (mkRecipe recipeId [] None) (catalog storeId) ;;
  match fails_priceRow env recipeId storeId with
  | Some e => Throw e
  | None => Normal r
  end.

Definition writeRow (rows : list RecipeStorePrice) (key : jsstr * jsstr)
    : list RecipeStorePrice :=
  match pairOutcome key with
  | Normal r => upsertPrice env rows (snd key) (fst key) r
  | Throw _ => rows
  end.

Definition errorOf (key : jsstr * jsstr) : list jsstr :=
  match pairOutcome key with
  | Normal _ => []
  | Throw e => [pairErrorMessage (snd key) (fst key) e]
  end.

Definition okOf (key : jsstr * jsstr) : nat :=
  match pairOutcome key with
  | Normal _ => 1
  | Throw _ => 0
  end.

Definition keysOf (storeId : jsstr) (recipeIds : list jsstr) : list (jsstr * jsstr) :=
  map (pair storeId) recipeIds.

(** The stores whose catalog could be read, up to the first failure. *)
Fixpoint processedStores (allStores : list Store) : list Store :=
  match allStores with
  | [] => []
  | store :: rest =>
      match fails_storeCatalog env (store_id store) with
      | Some _ => []
      | None => store :: processedStores rest
      end
  end.

Fixpoint firstStoreFailure (allStores : list Store) : option exn :=
  match allStores with
  | [] => None
  | store :: rest =>
      match fails_storeCatalog env (store_id store) with
      | Some e => Some e
      | None => firstStoreFailure rest
      end
  end.

Definition allKeys (recipeIds : list jsstr) (allStores : list Store)
    : list (jsstr * jsstr) :=
  flat_map (fun store => keysOf (store_id store) recipeIds) (processedStores allStores).

Definition settledKey (rows : list RecipeStorePrice) (key : jsstr * jsstr) : Prop :=
  match pairOutcome key with
  | Normal r => settled (snd key) (fst key) r rows
  | Throw _ => True
  end.

End ReplayVocabulary.

Section InstancesVocabulary.
Local Open Scope Q_scope.

(** The unified catalog of IGA in the sample, after one entry for chicken. *)
Definition igaCatalog : CachedStoreData :=
  mkCachedStoreData
    [ mkUnifiedPriceData (Some (js "poulet")) (Some 9) None (Some 9) 1 (js "kg");
      snd (Sample.beefAt "iga" 7) ]
    [mkPromo (js "boeuf haché") 5] [].

End InstancesVocabulary.

(** * Properties *)

Unset Implicit Arguments.

(** ** Strings and numbers *)

Lemma str_eqb_eq (a b : jsstr) : str_eqb a b = true <-> a = b.
Proof.
  unfold str_eqb. destruct (list_eq_dec N.eq_dec a b); split; congruence.
Qed.

Lemma str_eqb_refl (a : jsstr) : str_eqb a a = true.
Proof. now apply str_eqb_eq. Qed.

Section NumberFacts.
Local Open Scope Q_scope.

Lemma Qltb_lt (a b : Q) : Qltb a b = true <-> a < b.
Proof.
  unfold Qltb. rewrite negb_true_iff. split; intro H.
  - apply Qnot_le_lt. intro Hle. apply Qle_bool_iff in Hle. congruence.
  - destruct (Qle_bool b a) eqn:E; [|reflexivity].
    apply Qle_bool_iff in E. exfalso. exact (Qlt_not_le _ _ H E).
Qed.

Lemma Qltb_false_le (a b : Q) : Qltb a b = false -> b <= a.
Proof.
  unfold Qltb. rewrite negb_false_iff. apply Qle_bool_iff.
Qed.

Lemma Math_max_lower (a b : Q) : a <= Math_max a b.
Proof.
  unfold Math_max. destruct (Qle_bool a b) eqn:E.
  - now apply Qle_bool_iff.
  - apply Qle_refl.
Qed.

Lemma Math_min_upper (a b : Q) : Math_min a b <= b.
Proof.
  unfold Math_min. destruct (Qle_bool a b) eqn:E.
  - now apply Qle_bool_iff.
  - apply Qle_refl.
Qed.



Lemma capIngredientCost_ceiling (cost : Q) :
  capIngredientCost cost <= GLOBAL_MAX_INGREDIENT_COST.
Proof.
  unfold capIngredientCost, Qgtb.
  destruct (Qltb GLOBAL_MAX_INGREDIENT_COST cost) eqn:E.
  - apply Qle_refl.
  - now apply Qltb_false_le.
Qed.

End NumberFacts.

(** ** CostCalculator (C5) *)

Section CostBounds.
Local Open Scope Q_scope.






End CostBounds.

(** ** ProductMatcher (C7, C9) *)

Section MatcherFacts.
Local Open Scope Q_scope.

Variable regexpTest : jsstr -> jsstr -> completion bool.

Lemma matchLiteral_self (word rest : jsstr) :
  matchLiteral word (word ++ rest) = Some rest.
Proof.
  induction word as [|c word IH]; simpl.
  - now destruct rest.
  - now rewrite N.eqb_refl.
Qed.

Lemma wholeWordFrom_self (text : jsstr) : wholeWordFrom true text text = true.
Proof.
  pose proof (matchLiteral_self text []) as H. rewrite app_nil_r in H.
  destruct text as [|c text]; [reflexivity|].
  change (wholeWordFrom true (c :: text) (c :: text))
    with ((true && match matchLiteral (c :: text) (c :: text) with
                   | Some rest => boundaryAfter rest
                   | None => false
                   end)
          || wholeWordFrom (notAsciiLetter c) text (c :: text)).
  rewrite H. reflexivity.
Qed.

Lemma matchesFullName_self (norm : jsstr) :
  isLiteralWord norm || existsb (fun pw => str_eqb pw norm) (wordsOf norm) = true ->
  matchesFullName regexpTest norm norm = Normal true.
Proof.
  unfold matchesFullName, matchesWholeWord. intro H.
  destruct (existsb (fun pw => str_eqb pw norm) (wordsOf norm)); [reflexivity|].
  rewrite orb_false_r in H. rewrite H, wholeWordFrom_self. reflexivity.
Qed.

(** C9, counterexample: a name that contains a keyword of the non-food
    list scores 0 against itself. *)
Lemma score_of_denylisted_name_is_zero :
  ~ (forall (rx : jsstr -> jsstr -> completion bool) (x : jsstr),
        scoresOne (scorePromoMatch rx x x)).
Proof.
  intro H. specialize (H (fun _ _ => Normal false) (js "savon")).
  vm_compute in H. discriminate H.
Qed.

(** C9, amended: a name scores 1.0 against itself when its normalized form
    contains no keyword of the non-food list and either is free of
    regular-expression syntax characters or is one of its own words. *)
Theorem score_of_identical_names (x : jsstr) :
  isExcludedProduct (normalizeText x) = false ->
  isLiteralWord (normalizeText x)
  || existsb (fun pw => str_eqb pw (normalizeText x)) (wordsOf (normalizeText x)) = true ->
  scorePromoMatch regexpTest x x = Normal 1.
Proof.
  intros Hfood Hword. unfold scorePromoMatch.
  rewrite Hfood, (matchesFullName_self _ Hword). reflexivity.
Qed.

(** *** The score before the keyword floor *)

Lemma count_cons_true f w l : f w = true -> count f (w :: l) == count f l + 1.
Proof.
  intro H. unfold count. simpl. rewrite H. simpl List.length.
  rewrite Nat2Z.inj_succ, <- Z.add_1_r, inject_Z_plus. reflexivity.
Qed.

Lemma count_cons_false f w l : f w = false -> count f (w :: l) == count f l.
Proof. intro H. unfold count. simpl. rewrite H. reflexivity. Qed.

Lemma countWordMatches_cons (promoWords ws : list jsstr) (w : jsstr) (exact partial : Q) :
  countWordMatches (w :: ws) promoWords exact partial
  = if hasExactWord promoWords w then countWordMatches ws promoWords (exact + 1) partial
    else if existsb (fun pw => startsWith pw w || endsWith pw w) promoWords then
      if (4 <=? List.length w)%nat
      then countWordMatches ws promoWords exact (partial + 0.5)
      else countWordMatches ws promoWords exact partial
    else countWordMatches ws promoWords exact partial.
Proof. reflexivity. Qed.

Lemma countWordMatches_counts (promoWords ingredientWords : list jsstr) :
  forall exact partial,
    fst (countWordMatches ingredientWords promoWords exact partial)
    == exact + count (hasExactWord promoWords) ingredientWords
    /\ snd (countWordMatches ingredientWords promoWords exact partial)
       == partial + 0.5 * count (isPartialWord promoWords) ingredientWords.
Proof.
  induction ingredientWords as [|w ws IH]; intros exact partial.
  - simpl. unfold count. simpl. split; ring.
  - rewrite countWordMatches_cons.
    destruct (hasExactWord promoWords w) eqn:Hexact.
    + destruct (IH (exact + 1) partial) as [H1 H2]. rewrite H1, H2.
      rewrite (count_cons_true _ _ _ Hexact).
      rewrite (@count_cons_false (isPartialWord promoWords) w ws)
        by (unfold isPartialWord; now rewrite Hexact).
      split; ring.
    + destruct (existsb (fun pw => startsWith pw w || endsWith pw w) promoWords) eqn:Hpart.
      * destruct (4 <=? List.length w)%nat eqn:Hlen.
        -- destruct (IH exact (partial + 0.5)) as [H1 H2]. rewrite H1, H2.
           rewrite (count_cons_false _ _ _ Hexact).
           rewrite (@count_cons_true (isPartialWord promoWords) w ws)
             by (unfold isPartialWord; now rewrite Hexact, Hpart, Hlen).
           split; ring.
        -- destruct (IH exact partial) as [H1 H2]. rewrite H1, H2.
           rewrite (count_cons_false _ _ _ Hexact).
           rewrite (@count_cons_false (isPartialWord promoWords) w ws)
             by (unfold isPartialWord; now rewrite Hexact, Hpart, Hlen).
           split; ring.
      * destruct (IH exact partial) as [H1 H2]. rewrite H1, H2.
        rewrite (count_cons_false _ _ _ Hexact).
        rewrite (@count_cons_false (isPartialWord promoWords) w ws)
          by (unfold isPartialWord; now rewrite Hexact, Hpart).
        split; ring.
Qed.

Lemma baseScore_halfWeight (ingredientWords promoWords : list jsstr) :
  baseScore ingredientWords promoWords == halfWeightBaseScore ingredientWords promoWords.
Proof.
  unfold baseScore, halfWeightBaseScore.
  destruct (countWordMatches_counts promoWords ingredientWords 0 0) as [H1 H2].
  destruct (countWordMatches ingredientWords promoWords 0 0) as [e p].
  simpl in H1, H2. rewrite H1, H2. unfold Qdiv. ring.
Qed.

(** C7, counterexample: for the ingredient "tomat" and the candidate
    "tomates" (not denylisted, no whole-word match of the full name) the
    one partial match gives 0.15, where the formula with a weight of 0.3
    for each partial word gives 0.3. *)
Lemma base_score_counts_partial_words_half :
  ~ (forall (rx : jsstr -> jsstr -> completion bool) (ingredientName promoName : jsstr),
        isExcludedProduct (normalizeText promoName) = false ->
        matchesFullName rx (normalizeText ingredientName) (normalizeText promoName)
        = Normal false ->
        baseScore (wordsOf (normalizeText ingredientName)) (wordsOf (normalizeText promoName))
        == specBaseScore (wordsOf (normalizeText ingredientName))
             (wordsOf (normalizeText promoName))).
Proof.
  intro H.
  specialize (H (fun _ _ => Normal false) (js "tomat") (js "tomates") eq_refl eq_refl).
  vm_compute in H. discriminate H.
Qed.

(** C7, amended: when the candidate is not denylisted and the full
    ingredient name has no whole-word match, the score before the keyword
    floor is [exactWordMatches / n + 0.3 * (partialMatches / n)] where
    [partialMatches] adds 0.5 (not 1) for each ingredient word of at least
    4 characters, without an exact match, that is a prefix or a suffix of a
    candidate word; with no ingredient word of length 2 or more the score
    is 0. *)
Theorem base_score_formula (ingredientName promoName : jsstr) :
  isExcludedProduct (normalizeText promoName) = false ->
  matchesFullName regexpTest (normalizeText ingredientName) (normalizeText promoName)
  = Normal false ->
  let ingredientWords := wordsOf (normalizeText ingredientName) in
  let promoWords := wordsOf (normalizeText promoName) in
  (ingredientWords = [] ->
   scorePromoMatch regexpTest ingredientName promoName = Normal 0)
  /\ (ingredientWords <> [] ->
      scorePromoMatch regexpTest ingredientName promoName
      = keywordFloor regexpTest (getRelatedKeywords ingredientName) promoWords
          (normalizeText promoName) (baseScore ingredientWords promoWords)
      /\ baseScore ingredientWords promoWords
         == halfWeightBaseScore ingredientWords promoWords).
Proof.
  intros Hfood Hwhole ingredientWords promoWords.
  unfold scorePromoMatch. rewrite Hfood, Hwhole. simpl bind.
  fold ingredientWords promoWords. split.
  - intros ->. reflexivity.
  - intro Hne. split.
    + destruct ingredientWords; [contradiction|reflexivity].
    + apply baseScore_halfWeight.
Qed.

End MatcherFacts.

(** The name "Boeuf haché" against itself. *)
Lemma score_of_identical_names_witness :
  scorePromoMatch (fun _ _ => Normal false) (js "Boeuf haché") (js "Boeuf haché")
  = Normal 1%Q.
Proof.
  apply (score_of_identical_names (fun _ _ => Normal false) (js "Boeuf haché"));
    reflexivity.
Defined.

(** The ingredient "tomat" against the candidate "tomates": 0.15. *)
Lemma base_score_formula_witness :
  (baseScore (wordsOf (normalizeText (js "tomat"))) (wordsOf (normalizeText (js "tomates")))
   == 0.15)%Q.
Proof.
  destruct (base_score_formula (fun _ _ => Normal false) (js "tomat") (js "tomates")
              eq_refl eq_refl) as [_ H].
  destruct H as [_ H]; [discriminate|].
  rewrite H. reflexivity.
Defined.

(** ** PriceSelector (C3) *)

Section PriceSelectorFacts.
Local Open Scope Q_scope.

Variable regexpTest : jsstr -> jsstr -> completion bool.

Lemma newSet_incl (items : list jsstr) : forall x, In x (newSet items) -> In x items.
Proof.
  induction items as [|y items IH]; intros x Hin; [exact Hin|].
  simpl in Hin. destruct Hin as [<-|Hin]; [now left|].
  apply filter_In in Hin. right. apply IH. now destruct Hin.
Qed.

Lemma relatedKeywords_literal (ingredientName kw : jsstr) :
  In kw (getRelatedKeywords ingredientName) -> isLiteralWord kw = true.
Proof.
  intro Hin. unfold getRelatedKeywords in Hin. apply newSet_incl in Hin.
  apply in_flat_map in Hin. destruct Hin as [[key values] [Hentry Hkw]].
  assert (Hvalues : In kw values).
  { apply in_app_or in Hkw.
    destruct Hkw as [Hkw|Hkw];
      match type of Hkw with In _ (if ?c then _ else _) => destruct c end;
      trivial; destruct Hkw. }
  assert (Htable : forallb (fun entry => forallb isLiteralWord (snd entry))
                     INGREDIENT_KEYWORDS = true) by (vm_compute; reflexivity).
  rewrite forallb_forall in Htable. specialize (Htable _ Hentry). simpl in Htable.
  rewrite forallb_forall in Htable. now apply Htable.
Qed.

Lemma keywordFloor_returns (promoWords : list jsstr) (promoNorm : jsstr) (base : Q)
    (relatedKeywords : list jsstr) :
  (forall kw, In kw relatedKeywords -> isLiteralWord kw = true) ->
  exists score,
    keywordFloor regexpTest relatedKeywords promoWords promoNorm base = Normal score.
Proof.
  induction relatedKeywords as [|kw rest IH]; intro Hliteral; simpl.
  - eexists; reflexivity.
  - destruct (existsb (fun pw => str_eqb pw kw) promoWords); [eexists; reflexivity|].
    unfold matchesWholeWord. rewrite (Hliteral kw (or_introl eq_refl)). simpl.
    destruct (wholeWordFrom true promoNorm kw); [eexists; reflexivity|].
    apply IH. intros kw' Hin. apply Hliteral. now right.
Qed.

Lemma scorePromoMatch_returns (ingredientName promoName : jsstr) :
  isLiteralWord (normalizeText ingredientName) = true ->
  exists score, scorePromoMatch regexpTest ingredientName promoName = Normal score.
Proof.
  intro Hliteral. unfold scorePromoMatch, matchesFullName, matchesWholeWord.
  rewrite Hliteral.
  destruct (isExcludedProduct (normalizeText promoName)); [eexists; reflexivity|].
  assert (Hwhole : exists whole,
             (if existsb (fun pw => str_eqb pw (normalizeText ingredientName))
                   (wordsOf (normalizeText promoName))
              then Normal true
              else Normal (wholeWordFrom true (normalizeText promoName)
                             (normalizeText ingredientName))) = Normal whole).
  { destruct (existsb _ _); eexists; reflexivity. }
  destruct Hwhole as [whole ->]. simpl.
  destruct whole; [eexists; reflexivity|].
  destruct (List.length (wordsOf (normalizeText ingredientName)) =? 0)%nat;
    [eexists; reflexivity|].
  apply keywordFloor_returns. intros kw. apply relatedKeywords_literal.
Qed.

Lemma bestCandidateLoop_returns (ingredientName : jsstr) (cap : Q)
    (entries : list (jsstr * Q)) :
  isLiteralWord (normalizeText ingredientName) = true ->
  forall best,
  exists res, bestCandidateLoop regexpTest ingredientName cap entries best = Normal res.
Proof.
  intro Hliteral. induction entries as [|[productName entryPrice] rest IH]; intro best; simpl.
  - eexists; reflexivity.
  - destruct (Qgtb entryPrice cap); [apply IH|].
    destruct (scorePromoMatch_returns ingredientName productName Hliteral) as [score ->].
    simpl. destruct (Qle_bool 0.5 score); apply IH.
Qed.

Lemma bestCandidateLoop_cap (ingredientName : jsstr) (cap : Q)
    (entries : list (jsstr * Q)) :
  forall best res,
    bestCandidateLoop regexpTest ingredientName cap entries best = Normal res ->
    (forall b, best = Some b -> best_price b <= cap) ->
    forall b, res = Some b -> best_price b <= cap.
Proof.
  induction entries as [|[productName entryPrice] rest IH]; intros best res Hloop Hbest;
    simpl in Hloop.
  - injection Hloop as <-. exact Hbest.
  - destruct (Qgtb entryPrice cap) eqn:Ecap; [now apply (IH best)|].
    destruct (scorePromoMatch regexpTest ingredientName productName) as [score|e];
      [|discriminate].
    simpl in Hloop. destruct (Qle_bool 0.5 score); [|now apply (IH best)].
    apply (IH _ _ Hloop). intros b Hb.
    match type of Hb with (if ?c then _ else _) = _ => destruct c end;
      [|now apply Hbest].
    injection Hb as <-. simpl. now apply Qltb_false_le.
Qed.

Lemma bestCandidateLoop_none (ingredientName : jsstr) (entries : list (jsstr * Q)) :
  forall best res,
    bestCandidateLoop regexpTest ingredientName (getIngredientPriceCap ingredientName)
      entries best = Normal res ->
    (res = None <->
     best = None
     /\ forallb (fun e => negb (accepted regexpTest ingredientName e)) entries = true).
Proof.
  induction entries as [|[productName entryPrice] rest IH]; intros best res Hloop;
    simpl in Hloop.
  - injection Hloop as <-. simpl. tauto.
  - cbn [forallb]. unfold accepted at 1. cbn [fst snd].
    destruct (Qgtb entryPrice (getIngredientPriceCap ingredientName)).
    + simpl. now apply IH.
    + destruct (scorePromoMatch regexpTest ingredientName productName) as [score|e];
        [|discriminate].
      simpl in Hloop |- *. destruct (Qle_bool 0.5 score).
      * apply IH in Hloop. rewrite Hloop. simpl. split; [|intros [_ H]; discriminate H].
        intros [H _]. destruct best as [b|]; [|discriminate H].
        match type of H with (if ?c then _ else _) = _ => destruct c end;
          discriminate H.
      * simpl. now apply IH.
Qed.

(** What holds of [findBestPrice] whenever it returns: the price is at
    most the cap of the ingredient, and the source is the category estimate
    exactly when no source of the chain yields a price. *)
Lemma findBestPrice_cap_and_fallback (ingredientName : jsstr)
    (ingredientCategory : option jsstr) (storeData : CachedStoreData)
    (pricing : IngredientPricingResultWithUnit) :
  findBestPrice regexpTest ingredientName ingredientCategory storeData = Normal pricing ->
  price pricing <= getIngredientPriceCap ingredientName
  /\ (source pricing = Estimate <->
      noPriceFound regexpTest ingredientName storeData = true).
Proof.
  unfold findBestPrice, noPriceFound, unifiedPriceFound, promoEntries, refEntries.
  set (cap := getIngredientPriceCap ingredientName).
  set (promoList := map (fun p => (promo_productName p, promoPrice p)) (promos storeData)).
  set (refList := map (fun r => (ref_productName r, ref_price r)) (refs storeData)).
  set (tail := bind _ _).
  assert (Htail : tail = Normal pricing ->
                  price pricing <= cap
                  /\ (source pricing = Estimate <->
                      forallb (fun e => negb (accepted regexpTest ingredientName e)) promoList
                      && forallb (fun e => negb (accepted regexpTest ingredientName e)) refList
                      = true)).
  { unfold tail.
    pose proof (bestCandidateLoop_cap ingredientName cap promoList None) as Hpromo.
    pose proof (bestCandidateLoop_none ingredientName promoList None) as Hpromo0.
    fold cap in Hpromo0.
    destruct (bestCandidateLoop regexpTest ingredientName cap promoList None)
      as [bestPromo|e]; [|discriminate].
    simpl. specialize (Hpromo _ eq_refl). specialize (Hpromo0 _ eq_refl).
    destruct bestPromo as [b|].
    - intro H. injection H as <-. simpl. split.
      + apply Hpromo; [discriminate|reflexivity].
      + split; [discriminate|]. intro Hnone.
        apply andb_true_iff in Hnone. destruct Hnone as [Hnone _].
        destruct Hpromo0 as [_ Hpromo0].
        assert (Hfalse : Some b = None) by (apply Hpromo0; split; trivial).
        discriminate Hfalse.
    - destruct Hpromo0 as [Hpromo0 _]. destruct (Hpromo0 eq_refl) as [_ Hpromos].
      rewrite Hpromos. cbn [andb].
      pose proof (bestCandidateLoop_cap ingredientName cap refList None) as Href.
      pose proof (bestCandidateLoop_none ingredientName refList None) as Href0.
      fold cap in Href0.
      destruct (bestCandidateLoop regexpTest ingredientName cap refList None)
        as [bestRef|e]; [|discriminate].
      simpl. specialize (Href _ eq_refl). specialize (Href0 _ eq_refl).
      destruct bestRef as [b|].
      + intro H. injection H as <-. simpl. split.
        * apply Href; [discriminate|reflexivity].
        * split; [discriminate|]. intro Hnone.
          destruct Href0 as [_ Href0].
          assert (Hfalse : Some b = None) by (apply Href0; split; trivial).
          discriminate Hfalse.
      + intro H. injection H as <-. simpl. split; [apply Math_min_upper|].
        destruct Href0 as [Href0 _]. destruct (Href0 eq_refl) as [_ Hrefs].
        split; trivial. }
  destruct (findUnifiedPrice ingredientName storeData) as [m|]; [|exact Htail].
  destruct (Qgtb (um_unitPrice m) 0); [|exact Htail].
  intro H. injection H as <-. simpl. split; [apply Math_min_upper|].
  split; discriminate.
Qed.

(** [findBestPrice] returns for every name whose normalized form has no
    regular-expression syntax character. *)
Lemma findBestPrice_returns_on_literal_names (ingredientName : jsstr)
    (ingredientCategory : option jsstr) (storeData : CachedStoreData) :
  isLiteralWord (normalizeText ingredientName) = true ->
  exists pricing,
    findBestPrice regexpTest ingredientName ingredientCategory storeData = Normal pricing.
Proof.
  intro Hliteral. unfold findBestPrice.
  destruct (match findUnifiedPrice ingredientName storeData with
            | Some m => if Qgtb (um_unitPrice m) 0 then Some m else None
            | None => None
            end); [eexists; reflexivity|].
  destruct (bestCandidateLoop_returns ingredientName (getIngredientPriceCap ingredientName)
              (map (fun p => (promo_productName p, promoPrice p)) (promos storeData))
              Hliteral None) as [bestPromo ->].
  simpl. destruct bestPromo; [eexists; reflexivity|].
  destruct (bestCandidateLoop_returns ingredientName (getIngredientPriceCap ingredientName)
              (map (fun r => (ref_productName r, ref_price r)) (refs storeData))
              Hliteral None) as [bestRef ->].
  simpl. destruct bestRef; eexists; reflexivity.
Qed.

End PriceSelectorFacts.

(** C3, failing input: the ingredient name "sel (fin" at a store whose
    only promotion is "sel de mer" at 2 dollars.  The promotion passes the
    cap of 4 dollars, its name is not denylisted and is not the ingredient
    name, so [scorePromoMatch] builds the regular expression
    [(^|\s|[^a-z])sel (fin($|\s|[^a-z])]: its group is never closed and
    [findBestPrice] throws instead of returning a price. *)
Theorem findBestPrice_throws_on_unclosed_parenthesis :
  forall regexpTest : jsstr -> jsstr -> completion bool,
    findBestPrice regexpTest (js "sel (fin") None
      (mkCachedStoreData [] [mkPromo (js "sel de mer") 2] [])
    = Throw (SyntaxError (js "(^|\s|[^a-z])sel (fin($|\s|[^a-z])")
               (js "Unterminated group")).
Proof. intro regexpTest. vm_compute. reflexivity. Qed.

(** ** The preview endpoint (C6) *)

(** C6, failing input: the bundled data.  The filter compares the store
    identifiers, which are strings, with the numbers 1 to 4, and the
    ingredient identifiers with the property [id] that no line has: no
    price is ever available, and every ingredient of every recipe, ground
    beef included, gets the error and no best deal. *)
Theorem preview_of_mock_data_finds_no_price :
  Preview.availablePricesFor Preview.prices (Preview.mockLine "ing_boeuf" 1 "lb") = []
  /\ map (fun r =>
            (Preview.totalPrice r,
             map (fun ci => (Preview.line_ingredientId (Preview.ci_line ci),
                             Preview.ci_error ci, Preview.bestDeal ci))
               (Preview.ingredients r)))
         (Preview.calculate Preview.recipes Preview.prices)
     = [ (Preview.Fin 0,
          [ (Preview.VStr (js "ing_boeuf"), Some Preview.notAvailable, None);
            (Preview.VStr (js "ing_patates"), Some Preview.notAvailable, None);
            (Preview.VStr (js "ing_mais"), Some Preview.notAvailable, None) ]);
         (Preview.Fin 0,
          [ (Preview.VStr (js "ing_safran"), Some Preview.notAvailable, None);
            (Preview.VStr (js "ing_boeuf"), Some Preview.notAvailable, None) ]) ].
Proof. split; vm_compute; reflexivity. Qed.

(** ** RecipeAggregator (C1) *)

Section AggregatorFacts.
Local Open Scope Q_scope.

Variable regexpTest : jsstr -> jsstr -> completion bool.
Variable cache : EquivalenceCache.
Variable allIngredients : list Ingredient.
Variable storeData : CachedStoreData.

Local Abbreviation isUnknown := (isUnknownIngredient allIngredients).
Local Abbreviation isEstimated := (fellBackToEstimate regexpTest allIngredients storeData).

Lemma priceIngredients_missingCount (ings : list AggregatedIng) :
  forall total missing lines total' missing' lines',
    priceIngredients regexpTest cache allIngredients storeData ings total missing lines
    = Normal (total', missing', lines') ->
    missing' = (missing + List.length (filter isUnknown ings)
                + List.length (filter isEstimated ings))%nat.
Proof.
  induction ings as [|ri ings IH]; intros total missing lines total' missing' lines' H.
  - simpl in *. injection H as _ <- _. lia.
  - simpl in H. unfold isUnknownIngredient, fellBackToEstimate. simpl filter.
    destruct (ingredientMap_get allIngredients (agg_ingredientId ri)) as [ingredient|].
    + destruct (findBestPrice regexpTest (ingredient_name ingredient)
                  (ingredient_category ingredient) storeData) as [pricing|e];
        [|discriminate].
      simpl in H. apply IH in H. rewrite H. simpl isNone.
      unfold isUnknownIngredient, fellBackToEstimate.
      destruct (isEstimate (source pricing)); simpl; lia.
    + apply IH in H. rewrite H. simpl.
      unfold isUnknownIngredient, fellBackToEstimate. lia.
Qed.

End AggregatorFacts.

Section CompletenessFacts.
Local Open Scope Q_scope.

(** C1, counterexample: a recipe with one line priced from the unified
    catalog and one line whose ingredient id is unknown has no estimated
    ingredient and a positive total, and is not complete. *)
Lemma unknown_ingredient_blocks_completeness :
  ~ (forall regexpTest cache allIngredients allRecipeIngredients recipe storeData r,
        priceRecipeAtStore regexpTest cache allIngredients allRecipeIngredients
          recipe storeData = Normal r ->
        (isComplete r = true <->
         filter (fellBackToEstimate regexpTest allIngredients storeData)
           (linesOf allRecipeIngredients recipe) = []
         /\ 0 < totalCost r)).
Proof.
  intro H.
  pose (boeuf := mkIngredient (js "i1") (js "boeuf") (Some (js "Viandes"))).
  pose (lines := [ mkRecipeIngredient (js "r1") (js "i1") 1 (js "kg");
                   mkRecipeIngredient (js "r1") (js "ghost") 1 (js "kg") ]).
  pose (catalog := mkCachedStoreData
          [ mkUnifiedPriceData (Some (js "boeuf")) (Some 10) None (Some 10) 1 (js "kg") ]
          [] []).
  destruct (H (fun _ _ => Normal false) [] [boeuf] lines (mkRecipe (js "r1") [] None)
              catalog _ eq_refl) as [_ Hcomplete].
  assert (Hfalse : false = true) by (apply Hcomplete; split; reflexivity).
  discriminate Hfalse.
Qed.

(** C1, amended: for every (recipe, store) pair that is priced,
    [isComplete] is true if and only if no ingredient fell back to a
    category estimate, every ingredient id of the recipe is a known
    ingredient, and the total cost is strictly positive; in particular an
    estimate-sourced ingredient forces [isComplete = false]. *)
Theorem isComplete_iff_nothing_missing
    regexpTest cache allIngredients allRecipeIngredients recipe storeData r :
  priceRecipeAtStore regexpTest cache allIngredients allRecipeIngredients recipe storeData
  = Normal r ->
  (isComplete r = true <->
   filter (fellBackToEstimate regexpTest allIngredients storeData)
     (linesOf allRecipeIngredients recipe) = []
   /\ filter (isUnknownIngredient allIngredients) (linesOf allRecipeIngredients recipe) = []
   /\ 0 < totalCost r)
  /\ (filter (fellBackToEstimate regexpTest allIngredients storeData)
        (linesOf allRecipeIngredients recipe) <> [] ->
      isComplete r = false).
Proof.
  unfold priceRecipeAtStore. fold (linesOf allRecipeIngredients recipe).
  destruct (priceIngredients regexpTest cache allIngredients storeData
              (linesOf allRecipeIngredients recipe) 0 0 []) as [[[total missing] lines]|e] eqn:E;
    [|discriminate].
  simpl. intro H. injection H as <-. simpl.
  apply priceIngredients_missingCount in E. simpl in E.
  set (estimated := filter (fellBackToEstimate regexpTest allIngredients storeData)
                      (linesOf allRecipeIngredients recipe)) in *.
  set (unknown := filter (isUnknownIngredient allIngredients)
                    (linesOf allRecipeIngredients recipe)) in *.
  set (total' := if Qgtb (roundCents total) MAX_RECIPE_TOTAL then MAX_RECIPE_TOTAL
                 else roundCents total).
  assert (Hmissing : (missing =? 0)%nat = true <-> estimated = [] /\ unknown = []).
  { rewrite Nat.eqb_eq, E. destruct estimated, unknown; simpl; split;
      try (intros [? ?]); try discriminate; try lia; auto. }
  split.
  - rewrite andb_true_iff, Hmissing. unfold Qgtb. rewrite Qltb_lt. tauto.
  - intro Hne. apply andb_false_iff. left.
    destruct ((missing =? 0)%nat) eqn:Hm; [|reflexivity].
    destruct Hmissing as [Hm' _]. destruct (Hm' eq_refl). contradiction.
Qed.

(** A recipe of one kilogram of beef at a store that lists beef. *)
Lemma isComplete_iff_nothing_missing_witness :
  exists r,
    priceRecipeAtStore (fun _ _ => Normal false) []
      [mkIngredient (js "i1") (js "boeuf") None]
      [mkRecipeIngredient (js "r1") (js "i1") 1 (js "kg")]
      (mkRecipe (js "r1") [] None)
      (mkCachedStoreData
         [mkUnifiedPriceData (Some (js "boeuf")) (Some 10) None (Some 10) 1 (js "kg")]
         [] [])
    = Normal r
    /\ isComplete r = true.
Proof.
  eexists. split; [reflexivity|].
  apply (isComplete_iff_nothing_missing (fun _ _ => Normal false) []
           [mkIngredient (js "i1") (js "boeuf") None]
           [mkRecipeIngredient (js "r1") (js "i1") 1 (js "kg")]
           (mkRecipe (js "r1") [] None)
           (mkCachedStoreData
              [mkUnifiedPriceData (Some (js "boeuf")) (Some 10) None (Some 10) 1 (js "kg")]
              [] [])
           _ eq_refl).
  repeat split.
Defined.

End CompletenessFacts.

(** ** CalculationRun (C4, C8, C10, C2) *)

Lemma filter_map_length {A B} (f : B -> bool) (g : A -> B) (l : list A) :
  List.length (filter f (map g l)) = List.length (filter (fun x => f (g x)) l).
Proof.
  induction l as [|x l IH]; simpl; [reflexivity|].
  destruct (f (g x)); simpl; now rewrite IH.
Qed.

Lemma nextId_above (rows : list RecipeStorePrice) :
  forall row, In row rows -> (rsp_id row < nextId rows)%Z.
Proof.
  unfold nextId.
  assert (H : forall m row,
             (m <= fold_left (fun m r => Z.max m (rsp_id r + 1)) rows m)%Z
             /\ (In row rows ->
                 (rsp_id row < fold_left (fun m r => Z.max m (rsp_id r + 1)) rows m)%Z)).
  { induction rows as [|r rows IH]; intros m row; simpl.
    - split; [lia|intros []].
    - destruct (IH (Z.max m (rsp_id r + 1)) row) as [Hle Hin].
      destruct (IH (Z.max m (rsp_id r + 1)) r) as [Hle' _].
      split; [lia|]. intros [<-|H]; [lia|now apply Hin]. }
  intros row Hin. now apply (H 1%Z row).
Qed.

Lemma NoDup_ids_same (rows : list RecipeStorePrice) :
  NoDup (map rsp_id rows) ->
  forall a b, In a rows -> In b rows -> rsp_id a = rsp_id b -> a = b.
Proof.
  induction rows as [|r rows IH]; intros Hnd a b Ha Hb Hid; [destruct Ha|].
  simpl in Hnd. inversion Hnd as [|x l Hnotin Hnd']; subst.
  destruct Ha as [<-|Ha], Hb as [<-|Hb]; trivial.
  - elim Hnotin. rewrite Hid. now apply in_map.
  - elim Hnotin. rewrite <- Hid. now apply in_map.
  - now apply IH.
Qed.

Lemma minCompleteCost_attained (rows : list RecipeStorePrice) (recipeId : jsstr) (m : Q) :
  minCompleteCost rows recipeId = Some m ->
  exists row,
    In row rows /\ rsp_recipeId row = recipeId /\ rsp_isComplete row = true
    /\ rsp_totalCost row = m.
Proof.
  unfold minCompleteCost.
  assert (H : forall acc,
             fold_left
               (fun m row =>
                  if str_eqb (rsp_recipeId row) recipeId && Qgtb (rsp_totalCost row) 0
                     && rsp_isComplete row
                  then match m with
                       | None => Some (rsp_totalCost row)
                       | Some c => Some (Math_min c (rsp_totalCost row))
                       end
                  else m) rows acc = Some m ->
             acc = Some m
             \/ exists row, In row rows /\ rsp_recipeId row = recipeId
                            /\ rsp_isComplete row = true /\ rsp_totalCost row = m).
  { induction rows as [|r rows IH]; intros acc Hfold; simpl in Hfold; [now left|].
    apply IH in Hfold. destruct Hfold as [Hacc|[row [Hin Hrow]]].
    - destruct (str_eqb (rsp_recipeId r) recipeId && Qgtb (rsp_totalCost r) 0
                && rsp_isComplete r) eqn:Ematch; [|now left].
      apply andb_true_iff in Ematch. destruct Ematch as [Ematch Hcomplete].
      apply andb_true_iff in Ematch. destruct Ematch as [Hid _].
      apply str_eqb_eq in Hid.
      destruct acc as [c|].
      + injection Hacc as Hmin. unfold Math_min in Hmin.
        destruct (Qle_bool c (rsp_totalCost r)).
        * left. now subst.
        * right. exists r. simpl. auto.
      + injection Hacc as Hcost. right. exists r. simpl. auto.
    - right. exists row. simpl. tauto. }
  intro Hmin. destruct (H None Hmin) as [Hnone|Hrow]; [discriminate|exact Hrow].
Qed.


(** The row that [upsertPrice] leaves for the pair carries the total, the
    missing count and the [isComplete] flag computed for it. *)
Lemma upsertPrice_stores_result (env : Environment) (rows : list RecipeStorePrice)
    (recipeId storeId : jsstr) (r : PairResult) :
  exists row,
    In row (upsertPrice env rows recipeId storeId r)
    /\ rsp_recipeId row = recipeId /\ rsp_storeId row = storeId
    /\ rsp_weekOf row = weekOf env
    /\ rsp_totalCost row = totalCost r
    /\ rsp_missingIngredientsCount row = missingCount r
    /\ rsp_isComplete row = isComplete r.
Proof.
  unfold upsertPrice.
  destruct (find _ rows) as [existing|] eqn:Efind.
  - apply find_some in Efind. destruct Efind as [Hin Hkey].
    apply andb_true_iff in Hkey. destruct Hkey as [Hkey Hweek].
    apply andb_true_iff in Hkey. destruct Hkey as [Hrecipe Hstore].
    apply str_eqb_eq in Hrecipe, Hstore, Hweek.
    eexists. split.
    + apply in_map_iff. exists existing. split; [|exact Hin].
      rewrite Z.eqb_refl. reflexivity.
    + simpl. repeat split; trivial.
  - eexists. split; [apply in_or_app; right; left; reflexivity|].
    simpl. repeat split; trivial.
Qed.

Section RunFacts.

Variable regexpTest : jsstr -> jsstr -> completion bool.
Variable ADONIS PROVIGO : jsstr.
Variable env : Environment.

Local Abbreviation run := (runRecipePriceCalculation regexpTest ADONIS PROVIGO env).
Local Abbreviation excluded := (isExcludedStore ADONIS PROVIGO).
Local Abbreviation fatalFailure := (fatalFailure ADONIS PROVIGO env).
Local Abbreviation keepsExcludedRows := (keepsExcludedRows ADONIS PROVIGO).

(** C4: a call made while a run holds the lock, and has held it for no
    more than the stuck timeout, returns at once [success: false] with the
    single error 'Calculation already in progress' and leaves the whole
    state as it was: the price rows, the cache and the lock itself. *)
Theorem run_rejected_while_in_progress (w : World) (startTime : Z) :
  isCalculating w = true ->
  calculationStartTime w = Some startTime ->
  (now_atEntry env - startTime <= MAX_CALCULATION_TIME_MS)%Z ->
  run w = (mkSummary false 0 0 [js "Calculation already in progress"], w).
Proof.
  intros Hlock Hstart Hrecent.
  assert (Hkeep : autoReset env w = w).
  { unfold autoReset. rewrite Hlock, Hstart.
    destruct (startTime =? 0)%Z; [reflexivity|].
    destruct (MAX_CALCULATION_TIME_MS <? now_atEntry env - startTime)%Z eqn:E;
      [|reflexivity].
    apply Z.ltb_lt in E. lia. }
  unfold runRecipePriceCalculation. rewrite Hkeep, Hlock. reflexivity.
Qed.

Lemma storeLoop_fatal cache allRecipes allIngredients allRecipeIngredients allStores :
  forall st,
    snd (storeLoop regexpTest env cache allRecipes allIngredients allRecipeIngredients
           allStores st) = None
    <-> (forall store, In store allStores -> fails_storeCatalog env (store_id store) = None).
Proof.
  induction allStores as [|store rest IH]; intro st; simpl.
  - split; [intros _ store []|reflexivity].
  - destruct (fails_storeCatalog env (store_id store)) eqn:E.
    + simpl. split; [discriminate|].
      intro H. rewrite (H store (or_introl eq_refl)) in E. discriminate.
    + rewrite IH. split.
      * intros H store' [<-|Hin]; [exact E|now apply H].
      * intros H store' Hin. apply H. now right.
Qed.

Lemma runBody_fatal cache (d : Database) :
  snd (runBody regexpTest ADONIS PROVIGO env cache d) <> None <-> fatalFailure d.
Proof.
  unfold runBody, fatalFailure.
  destruct (fails_baseCatalogs env) as [e|].
  { simpl. split; [intros _; left; discriminate|discriminate]. }
  pose proof (storeLoop_fatal cache (tbl_recipes d) (tbl_ingredients d)
                (tbl_recipeIngredients d)
                (removeExcludedStores ADONIS PROVIGO (tbl_stores d))
                (mkRunState d [] 0 0)) as Hloop.
  destruct (storeLoop regexpTest env cache (tbl_recipes d) (tbl_ingredients d)
              (tbl_recipeIngredients d)
              (removeExcludedStores ADONIS PROVIGO (tbl_stores d))
              (mkRunState d [] 0 0)) as [st [e|]]; simpl in *.
  - split; [intros _|discriminate]. right; left.
    destruct (existsb (fun store => negb (excluded (store_id store))
                                    && negb (isNone (fails_storeCatalog env (store_id store))))
                (tbl_stores d)) eqn:Ex.
    + apply existsb_exists in Ex. destruct Ex as [store [Hin Hs]].
      apply andb_true_iff in Hs. destruct Hs as [Hkept Hfails].
      exists store. repeat split; trivial.
      * now apply negb_true_iff in Hkept.
      * intro Hnone. rewrite Hnone in Hfails. discriminate.
    + destruct Hloop as [_ Hloop].
      assert (Hnone : Some e = None); [apply Hloop|discriminate].
      intros store Hin. apply filter_In in Hin. destruct Hin as [Hin Hkept].
      destruct (fails_storeCatalog env (store_id store)) eqn:E; [|reflexivity].
      exfalso. rewrite <- not_true_iff_false in Ex. apply Ex.
      apply existsb_exists. exists store. split; [exact Hin|].
      now rewrite Hkept, E.
  - destruct Hloop as [Hloop _]. specialize (Hloop eq_refl).
    destruct (fails_rollup env) as [e|]; simpl.
    + split; [intros _; right; right; discriminate|discriminate].
    + split; [intro H; now elim H|].
      intros [H|[[store [Hin [Hkept Hfails]]]|H]]; try now elim H.
      elim Hfails. apply Hloop. apply filter_In. split; [exact Hin|].
      now rewrite Hkept.
Qed.

Lemma loadIngredientEquivalences_db (w : World) :
  db (loadIngredientEquivalences env w) = db w.
Proof.
  unfold loadIngredientEquivalences.
  destruct ((now_atCacheLoad env - lastEquivalenceCacheLoad w <? EQUIVALENCE_CACHE_TTL)%Z
            && (0 <? List.length (equivalenceCache w))%nat); [reflexivity|].
  destruct (fails_equivalences env); reflexivity.
Qed.

Lemma autoReset_db (w : World) : db (autoReset env w) = db w.
Proof.
  unfold autoReset. destruct (isCalculating w); [|reflexivity].
  destruct (calculationStartTime w) as [t|]; [|reflexivity].
  destruct (t =? 0)%Z; [reflexivity|].
  destruct (MAX_CALCULATION_TIME_MS <? now_atEntry env - t)%Z; reflexivity.
Qed.

(** C8: a run that was accepted (the lock was free, or was held for longer
    than the stuck timeout) always returns a summary and leaves the lock
    released, with [isCalculating] false and the start time cleared; the
    summary has [success: false] exactly when a failure outside the
    per-pair loop, such as the load of the base catalogs, ended the run. *)
Theorem run_releases_lock_and_reports (w : World) :
  isCalculating (autoReset env w) = false ->
  isCalculating (snd (run w)) = false
  /\ calculationStartTime (snd (run w)) = None
  /\ (success (fst (run w)) = false <-> fatalFailure (db w))
  /\ (forall e, fails_baseCatalogs env = Some e ->
      fst (run w) = mkSummary false 0 0 [message_of e]).
Proof.
  intro Hfree. unfold runRecipePriceCalculation. rewrite Hfree.
  set (w1 := loadIngredientEquivalences env _).
  assert (Hdb : db w1 = db w).
  { unfold w1. rewrite loadIngredientEquivalences_db. simpl. apply autoReset_db. }
  pose proof (runBody_fatal (equivalenceCache w1) (db w1)) as Hfatal.
  rewrite Hdb in Hfatal.
  assert (Hbase : forall e, fails_baseCatalogs env = Some e ->
                   runBody regexpTest ADONIS PROVIGO env (equivalenceCache w1) (db w)
                   = (mkRunState (db w) [] 0 0, Some e)).
  { intros e He. unfold runBody. now rewrite He. }
  rewrite Hdb.
  destruct (runBody regexpTest ADONIS PROVIGO env (equivalenceCache w1) (db w))
    as [st [e|]] eqn:Ebody; simpl in *.
  - repeat split; trivial.
    + intros _. apply Hfatal. discriminate.
    + intros e' He'. specialize (Hbase e' He'). injection Hbase as -> ->. reflexivity.
  - repeat split; trivial; try discriminate.
    + intro H. apply Hfatal in H. now elim H.
    + intros e' He'. specialize (Hbase e' He'). discriminate.
Qed.

(** *** The counters of the summary *)

Lemma loadStoreData_rows (d : Database) (rows : list RecipeStorePrice) (storeId : jsstr) :
  loadStoreData env (set_recipeStorePrices d rows) storeId = loadStoreData env d storeId.
Proof. reflexivity. Qed.

Section PairLoop.

Variable cache : EquivalenceCache.
Variable d : Database.
Variable store : Store.

Local Abbreviation ok := (fun recipe => pairSucceeds regexpTest env cache d (store, recipe)).
Local Abbreviation loop :=
  (recipeLoop regexpTest env cache (tbl_ingredients d) (tbl_recipeIngredients d) store
     (loadStoreData env d (store_id store))).

Lemma processPair_succeeds (recipe : Recipe) (rows : list RecipeStorePrice) :
  match processPair regexpTest env cache (tbl_ingredients d) (tbl_recipeIngredients d)
          store (loadStoreData env d (store_id store)) recipe rows with
  | Normal _ => ok recipe = true
  | Throw _ => ok recipe = false
  end.
Proof.
  unfold processPair, pairSucceeds.
  destruct (priceRecipeAtStore regexpTest cache (tbl_ingredients d)
              (tbl_recipeIngredients d) recipe (loadStoreData env d (store_id store)));
    simpl; [|reflexivity].
  destruct (fails_priceRow env (recipe_id recipe) (store_id store)); reflexivity.
Qed.

Lemma recipeLoop_counts (recipes : list Recipe) :
  forall st,
    run_storesProcessed (loop recipes st)
    = (run_storesProcessed st + List.length (filter ok recipes))%nat
    /\ List.length (run_errors (loop recipes st))
       = (List.length (run_errors st)
          + List.length (filter (fun recipe => negb (ok recipe)) recipes))%nat
    /\ run_recipesProcessed (loop recipes st) = run_recipesProcessed st
    /\ exists rows, run_db (loop recipes st) = set_recipeStorePrices (run_db st) rows.
Proof.
  induction recipes as [|recipe recipes IH]; intro st.
  - simpl. repeat split; try lia.
    exists (tbl_recipeStorePrices (run_db st)). now destruct (run_db st).
  - cbn [recipeLoop filter].
    pose proof (processPair_succeeds recipe (tbl_recipeStorePrices (run_db st))) as Hok.
    destruct (processPair regexpTest env cache (tbl_ingredients d)
                (tbl_recipeIngredients d) store (loadStoreData env d (store_id store))
                recipe (tbl_recipeStorePrices (run_db st))) as [rows|e];
      rewrite Hok; simpl negb; cbv iota;
      match goal with
      | |- context [loop recipes ?st'] => destruct (IH st') as [H1 [H2 [H3 [rows' H4]]]]
      end;
      rewrite H1, H2, H3, H4; simpl; repeat split; try lia.
    + exists rows'. reflexivity.
    + rewrite length_app. simpl. lia.
    + exists rows'. reflexivity.
Qed.

End PairLoop.

Lemma storeLoop_counts (cache : EquivalenceCache) (d : Database) (allStores : list Store) :
  forall st,
    (exists rows, run_db st = set_recipeStorePrices d rows) ->
    snd (storeLoop regexpTest env cache (tbl_recipes d) (tbl_ingredients d)
           (tbl_recipeIngredients d) allStores st) = None ->
    let st' :=
      fst (storeLoop regexpTest env cache (tbl_recipes d) (tbl_ingredients d)
             (tbl_recipeIngredients d) allStores st) in
    run_storesProcessed st'
    = (run_storesProcessed st
       + List.length (filter (pairSucceeds regexpTest env cache d)
                        (list_prod allStores (tbl_recipes d))))%nat
    /\ List.length (run_errors st')
       = (List.length (run_errors st)
          + List.length (filter (fun pair => negb (pairSucceeds regexpTest env cache d pair))
                           (list_prod allStores (tbl_recipes d))))%nat
    /\ run_recipesProcessed st'
       = match allStores with
         | [] => run_recipesProcessed st
         | _ :: _ => List.length (tbl_recipes d)
         end
    /\ exists rows, run_db st' = set_recipeStorePrices d rows.
Proof.
  induction allStores as [|store rest IH]; intros st Hdb Hfatal.
  - simpl. repeat split; try lia. exact Hdb.
  - cbn [storeLoop] in Hfatal |- *.
    destruct (fails_storeCatalog env (store_id store)); [discriminate|].
    destruct Hdb as [rows0 Hdb].
    assert (Hload : loadStoreData env (run_db st) (store_id store)
                    = loadStoreData env d (store_id store))
      by (rewrite Hdb; apply loadStoreData_rows).
    rewrite Hload in Hfatal |- *.
    destruct (recipeLoop_counts cache d store (tbl_recipes d) st)
      as [H1 [H2 [H3 [rows1 H4]]]].
    match type of Hfatal with
    | snd (storeLoop _ _ _ _ _ _ _ ?st1) = None =>
        assert (Hdb1 : exists rows, run_db st1 = set_recipeStorePrices d rows)
          by (exists rows1; simpl; rewrite H4, Hdb; reflexivity);
        destruct (IH st1 Hdb1 Hfatal) as [G1 [G2 [G3 G4]]]
    end.
    simpl in G1, G2. split; [|split; [|split]].
    + rewrite G1, H1. cbn [list_prod].
      rewrite filter_app, length_app, filter_map_length. lia.
    + rewrite G2, H2. cbn [list_prod].
      rewrite filter_app, length_app, filter_map_length. lia.
    + rewrite G3. destruct rest; reflexivity.
    + exact G4.
Qed.

(** C10: in the summary of a run that completed, [storesProcessed] is the
    number of (recipe, store) pairs, over the stores that are not excluded,
    that went through without a per-pair error (not the number of stores),
    each other pair having left one entry in [errors]; [recipesProcessed]
    is the number of loaded recipes as soon as one store was iterated, and
    0 when every store is excluded. *)
Theorem summary_counts_pairs (w : World) :
  isCalculating (autoReset env w) = false ->
  success (fst (run w)) = true ->
  storesProcessed (fst (run w))
  = List.length (filter (pairSucceeds regexpTest env (cacheForRun env w) (db w))
                   (pairsOf ADONIS PROVIGO (db w)))
  /\ (storesProcessed (fst (run w)) + List.length (errors (fst (run w)))
      = List.length (pairsOf ADONIS PROVIGO (db w)))%nat
  /\ recipesProcessed (fst (run w))
     = match removeExcludedStores ADONIS PROVIGO (tbl_stores (db w)) with
       | [] => 0%nat
       | _ :: _ => List.length (tbl_recipes (db w))
       end.
Proof.
  intro Hfree. unfold runRecipePriceCalculation, cacheForRun, pairsOf. rewrite Hfree.
  set (w1 := loadIngredientEquivalences env _).
  assert (Hdb : db w1 = db w).
  { unfold w1. rewrite loadIngredientEquivalences_db. simpl. apply autoReset_db. }
  rewrite Hdb. unfold runBody.
  destruct (fails_baseCatalogs env); [discriminate|].
  assert (Hinit : exists rows,
             run_db (mkRunState (db w) [] 0 0) = set_recipeStorePrices (db w) rows).
  { exists (tbl_recipeStorePrices (db w)). simpl. now destruct (db w). }
  pose proof (@storeLoop_counts (equivalenceCache w1) (db w)
                (removeExcludedStores ADONIS PROVIGO (tbl_stores (db w)))
                (mkRunState (db w) [] 0 0) Hinit) as Hloop.
  destruct (storeLoop regexpTest env (equivalenceCache w1) (tbl_recipes (db w))
              (tbl_ingredients (db w)) (tbl_recipeIngredients (db w))
              (removeExcludedStores ADONIS PROVIGO (tbl_stores (db w)))
              (mkRunState (db w) [] 0 0)) as [st [e|]]; [discriminate|].
  destruct (Hloop eq_refl) as [H1 [H2 [H3 _]]]. simpl in H1, H2, H3.
  destruct (fails_rollup env); [discriminate|]. simpl. intros _.
  rewrite H1, H2, H3. repeat split.
  pose proof (filter_length (pairSucceeds regexpTest env (equivalenceCache w1) (db w))
                (list_prod (removeExcludedStores ADONIS PROVIGO (tbl_stores (db w)))
                   (tbl_recipes (db w)))) as Hsplit.
  exact Hsplit.
Qed.

(** *** The excluded stores *)

Lemma upsertPrice_keeps (rows0 rows : list RecipeStorePrice)
    (recipeId storeId : jsstr) (r : PairResult) :
  excluded storeId = false ->
  keepsExcludedRows rows0 rows ->
  keepsExcludedRows rows0 (upsertPrice env rows recipeId storeId r).
Proof.
  intros Hkept [Hnd Hold]. unfold upsertPrice.
  destruct (find _ rows) as [existing|] eqn:Efind.
  - apply find_some in Efind. destruct Efind as [Hin Hkey].
    apply andb_true_iff in Hkey. destruct Hkey as [Hkey _].
    apply andb_true_iff in Hkey. destruct Hkey as [_ Hstore].
    apply str_eqb_eq in Hstore.
    split.
    + rewrite map_map.
      replace (map _ rows) with (map rsp_id rows); [exact Hnd|].
      apply map_ext. intro row. now destruct (rsp_id row =? rsp_id existing)%Z.
    + intros row Hrow Hexcl. apply in_map_iff in Hrow.
      destruct Hrow as [row1 [Heq Hrow1]].
      destruct (rsp_id row1 =? rsp_id existing)%Z eqn:Eid.
      * apply Z.eqb_eq in Eid.
        rewrite (@NoDup_ids_same rows Hnd row1 existing Hrow1 Hin Eid) in Heq.
        subst row. simpl in Hexcl. rewrite Hstore in Hexcl. congruence.
      * subst row. now apply Hold.
  - split.
    + rewrite map_app. simpl. apply NoDup_app_remove_r with (l' := []).
      rewrite <- app_assoc. simpl.
      apply NoDup_Add with (a := nextId rows) (l := map rsp_id rows).
      * rewrite <- (app_nil_r (map rsp_id rows)) at 1.
        apply Add_app.
      * split; [exact Hnd|].
        intro Hin. apply in_map_iff in Hin. destruct Hin as [row [Hid Hrow]].
        pose proof (@nextId_above rows row Hrow). lia.
    + intros row Hrow Hexcl. apply in_app_or in Hrow.
      destruct Hrow as [Hrow|[<-|[]]]; [now apply Hold|].
      simpl in Hexcl. congruence.
Qed.

Lemma recipeLoop_keeps (rows0 : list RecipeStorePrice) cache allIngredients
    allRecipeIngredients store storeData (recipes : list Recipe) :
  excluded (store_id store) = false ->
  forall st,
    keepsExcludedRows rows0 (tbl_recipeStorePrices (run_db st)) ->
    keepsExcludedRows rows0
      (tbl_recipeStorePrices
         (run_db (recipeLoop regexpTest env cache allIngredients allRecipeIngredients
                    store storeData recipes st))).
Proof.
  intro Hkept. induction recipes as [|recipe recipes IH]; intros st Hinv; [exact Hinv|].
  cbn [recipeLoop]. apply IH. unfold processPair.
  destruct (priceRecipeAtStore regexpTest cache allIngredients allRecipeIngredients
              recipe storeData) as [r|e]; simpl; [|exact Hinv].
  destruct (fails_priceRow env (recipe_id recipe) (store_id store)); simpl; [exact Hinv|].
  now apply upsertPrice_keeps.
Qed.

Lemma storeLoop_keeps (rows0 : list RecipeStorePrice) cache allRecipes allIngredients
    allRecipeIngredients (allStores : list Store) :
  (forall store, In store allStores -> excluded (store_id store) = false) ->
  forall st,
    keepsExcludedRows rows0 (tbl_recipeStorePrices (run_db st)) ->
    keepsExcludedRows rows0
      (tbl_recipeStorePrices
         (run_db (fst (storeLoop regexpTest env cache allRecipes allIngredients
                         allRecipeIngredients allStores st)))).
Proof.
  induction allStores as [|store rest IH]; intros Hkept st Hinv; [exact Hinv|].
  cbn [storeLoop].
  destruct (fails_storeCatalog env (store_id store)); [exact Hinv|].
  apply IH; [intros s Hs; apply Hkept; now right|].
  simpl. apply recipeLoop_keeps; [apply Hkept; now left|exact Hinv].
Qed.

Lemma removeExcludedStores_kept (rawStores : list Store) :
  forall store, In store (removeExcludedStores ADONIS PROVIGO rawStores) ->
                excluded (store_id store) = false.
Proof.
  intros store Hin. apply filter_In in Hin. destruct Hin as [_ H].
  now apply negb_true_iff in H.
Qed.

Lemma runBody_keeps cache (d : Database) :
  NoDup (map rsp_id (tbl_recipeStorePrices d)) ->
  keepsExcludedRows (tbl_recipeStorePrices d)
    (tbl_recipeStorePrices (run_db (fst (runBody regexpTest ADONIS PROVIGO env cache d)))).
Proof.
  intro Hnd.
  assert (Hinit : keepsExcludedRows (tbl_recipeStorePrices d)
                    (tbl_recipeStorePrices (run_db (mkRunState d [] 0 0))))
    by (split; [exact Hnd|auto]).
  unfold runBody. destruct (fails_baseCatalogs env); [exact Hinit|].
  pose proof (@storeLoop_keeps (tbl_recipeStorePrices d) cache (tbl_recipes d)
                (tbl_ingredients d) (tbl_recipeIngredients d)
                (removeExcludedStores ADONIS PROVIGO (tbl_stores d))
                (removeExcludedStores_kept (tbl_stores d))
                (mkRunState d [] 0 0) Hinit) as Hloop.
  destruct (storeLoop regexpTest env cache (tbl_recipes d) (tbl_ingredients d)
              (tbl_recipeIngredients d)
              (removeExcludedStores ADONIS PROVIGO (tbl_stores d))
              (mkRunState d [] 0 0)) as [st [e|]]; [exact Hloop|].
  destruct (fails_rollup env); exact Hloop.
Qed.

End RunFacts.

(** *** The best deals of the preview *)

Section PreviewFacts.

Import Preview.

Lemma availablePrices_allowed (prices : list PriceEntry) (ingredient : RecipeLine) :
  forall p, In p (availablePricesFor prices ingredient) -> allowedId (pe_storeId p).
Proof.
  intros p Hin. apply filter_In in Hin. destruct Hin as [_ H].
  apply andb_true_iff in H. now destruct H.
Qed.

Lemma bestDealStep_allowed (ingredient : RecipeLine) (available : list PriceEntry) :
  (forall p, In p available -> allowedId (pe_storeId p)) ->
  forall acc,
    (forall deal, snd acc = Some deal -> allowedId (deal_storeId deal)) ->
    forall deal,
      snd (fold_left (bestDealStep ingredient) available acc) = Some deal ->
      allowedId (deal_storeId deal).
Proof.
  induction available as [|p available IH]; intros Hall acc Hacc deal; simpl.
  - apply Hacc.
  - apply IH.
    + intros q Hq. apply Hall. now right.
    + destruct acc as [bestPrice best]. unfold bestDealStep.
      destruct (num_ltb _ bestPrice); simpl.
      * intros d Hd. injection Hd as <-. simpl. apply Hall. now left.
      * exact Hacc.
Qed.

Lemma calculateIngredient_allowed (prices : list PriceEntry) (lines : list RecipeLine) :
  forall acc,
    (forall ci deal, In ci (snd acc) -> bestDeal ci = Some deal ->
                     allowedId (deal_storeId deal)) ->
    forall ci deal,
      In ci (snd (fold_left (calculateIngredient prices) lines acc)) ->
      bestDeal ci = Some deal -> allowedId (deal_storeId deal).
Proof.
  induction lines as [|line lines IH]; intros acc Hacc; simpl; [exact Hacc|].
  apply IH. destruct acc as [[total valid] done]. unfold calculateIngredient.
  pose proof (availablePrices_allowed prices line) as Hall.
  destruct (availablePricesFor prices line) as [|p available] eqn:E; cbv iota beta.
  - cbn [snd] in *. intros ci deal Hin Hdeal. apply in_app_or in Hin.
    destruct Hin as [Hin|[<-|[]]]; [now apply (Hacc ci)|discriminate].
  - pose proof (@bestDealStep_allowed line (p :: available) Hall (PosInf, None)) as Hbest.
    destruct (fold_left (bestDealStep line) (p :: available) (PosInf, None))
      as [bestPrice best].
    cbn [snd] in *. intros ci deal Hin Hdeal. apply in_app_or in Hin.
    destruct Hin as [Hin|[<-|[]]]; [now apply (Hacc ci)|].
    cbn [bestDeal] in Hdeal. apply Hbest; [discriminate|exact Hdeal].
Qed.

Lemma calculate_names_allowed_stores (recipes : list PreviewRecipe)
    (prices : list PriceEntry) :
  dealsNameAllowedStores (calculate recipes prices).
Proof.
  intros r ci deal Hr Hci Hdeal. unfold calculate in Hr.
  apply in_map_iff in Hr. destruct Hr as [recipe [<- _]].
  pose proof (@calculateIngredient_allowed prices (pv_ingredients recipe)
                (Fin 0, true, [])) as H.
  destruct (fold_left (calculateIngredient prices) (pv_ingredients recipe)
              (Fin 0, true, [])) as [[total valid] done].
  simpl in Hci, H.
  assert (Hallowed : allowedId (deal_storeId deal)).
  { apply (H (fun _ _ Hin => match Hin with end) ci deal Hci Hdeal). }
  split; [exact Hallowed|].
  split; intro Heq; unfold allowedId in Hallowed; rewrite Heq in Hallowed;
    discriminate Hallowed.
Qed.

End PreviewFacts.

Section ExcludedStores.

Variable regexpTest : jsstr -> jsstr -> completion bool.
Variable ADONIS PROVIGO : jsstr.
Variable env : Environment.

Local Abbreviation run := (runRecipePriceCalculation regexpTest ADONIS PROVIGO env).
Local Abbreviation excluded := (isExcludedStore ADONIS PROVIGO).

(** C2, amended: the stores of the exclusion set are removed before any
    pricing, so that a run writes no price row for them and a row of an
    excluded store found in the table after the run was there before,
    unchanged; the final update takes its minimum over all the complete
    rows of the table, so its minima come from stores that are not excluded
    provided that the table held no row of an excluded store before the
    run; and every best deal of the preview names one of its allowed
    stores. *)
Theorem excluded_stores_stay_out (w : World) :
  isCalculating (autoReset env w) = false ->
  NoDup (map rsp_id (tbl_recipeStorePrices (db w))) ->
  (forall row,
      In row (tbl_recipeStorePrices (db (snd (run w)))) ->
      excluded (rsp_storeId row) = true ->
      In row (tbl_recipeStorePrices (db w)))
  /\ (noRowOfExcludedStore ADONIS PROVIGO (tbl_recipeStorePrices (db w)) ->
      noRowOfExcludedStore ADONIS PROVIGO (tbl_recipeStorePrices (db (snd (run w))))
      /\ rollupAvoidsExcludedStores ADONIS PROVIGO
           (tbl_recipeStorePrices (db (snd (run w)))))
  /\ (forall recipes prices, dealsNameAllowedStores (Preview.calculate recipes prices)).
Proof.
  intros Hfree Hnd.
  assert (Hrows : forall row,
             In row (tbl_recipeStorePrices (db (snd (run w)))) ->
             excluded (rsp_storeId row) = true ->
             In row (tbl_recipeStorePrices (db w))).
  { unfold runRecipePriceCalculation. rewrite Hfree.
    set (w1 := loadIngredientEquivalences env _).
    assert (Hdb : db w1 = db w).
    { unfold w1. rewrite loadIngredientEquivalences_db. simpl. apply autoReset_db. }
    rewrite Hdb.
    pose proof (@runBody_keeps regexpTest ADONIS PROVIGO env (equivalenceCache w1)
                  (db w) Hnd) as [_ Hkeep].
    destruct (runBody regexpTest ADONIS PROVIGO env (equivalenceCache w1) (db w))
      as [st fatal].
    simpl in *. exact Hkeep. }
  split; [exact Hrows|]. split; [|apply calculate_names_allowed_stores].
  intro Hnone.
  assert (Hafter : noRowOfExcludedStore ADONIS PROVIGO
                     (tbl_recipeStorePrices (db (snd (run w))))).
  { intros row Hin. destruct (excluded (rsp_storeId row)) eqn:E; [|reflexivity].
    rewrite (Hnone row (Hrows row Hin E)) in E. discriminate E. }
  split; [exact Hafter|].
  intros recipeId m Hmin.
  destruct (minCompleteCost_attained _ _ _ Hmin) as [row [Hin [Hid [Hcomplete Hcost]]]].
  exists row. split; [exact Hin|]. split; [exact Hid|]. split; [exact Hcomplete|].
  split; [exact Hcost|]. apply Hafter. exact Hin.
Qed.

End ExcludedStores.

(** C2, counterexample: the table holds a complete row of Adonis at 1
    dollar from an earlier week; the run prices the recipe at IGA only, at
    7 dollars, and the final update gives the recipe the price of 1 dollar,
    the minimum over all the rows, which is the row of the excluded store. *)
Lemma stale_row_of_excluded_store_wins_rollup :
  ~ (forall (env : Environment) (w : World),
        isCalculating w = false ->
        NoDup (map rsp_id (tbl_recipeStorePrices (db w))) ->
        rollupAvoidsExcludedStores Preview.STORE_IDS_ADONIS Preview.STORE_IDS_PROVIGO
          (tbl_recipeStorePrices
             (db (snd (runRecipePriceCalculation Sample.noRegexp
                         Preview.STORE_IDS_ADONIS Preview.STORE_IDS_PROVIGO env w))))).
Proof.
  intro H.
  assert (Hnd : NoDup (map rsp_id (tbl_recipeStorePrices (db Sample.idle)))).
  { simpl. constructor; [intros []|constructor]. }
  specialize (H Sample.environment Sample.idle eq_refl Hnd (js "r1") 1%Q).
  destruct H as [row [Hin [_ [_ [Hcost Hexcluded]]]]]; [vm_compute; reflexivity|].
  vm_compute in Hin. destruct Hin as [<-|[<-|[]]].
  - vm_compute in Hexcluded. discriminate Hexcluded.
  - vm_compute in Hcost. discriminate Hcost.
Qed.

(** A run on a table without rows: IGA is priced, Adonis is not. *)
Lemma excluded_stores_stay_out_witness :
  noRowOfExcludedStore Preview.STORE_IDS_ADONIS Preview.STORE_IDS_PROVIGO
    (tbl_recipeStorePrices
       (db (snd (runRecipePriceCalculation Sample.noRegexp Preview.STORE_IDS_ADONIS
                   Preview.STORE_IDS_PROVIGO Sample.environment
                   (mkWorld (set_recipeStorePrices Sample.database []) false None [] 0))))).
Proof.
  apply (@excluded_stores_stay_out Sample.noRegexp Preview.STORE_IDS_ADONIS
           Preview.STORE_IDS_PROVIGO Sample.environment
           (mkWorld (set_recipeStorePrices Sample.database []) false None [] 0)).
  - reflexivity.
  - simpl. constructor.
  - intros row [].
Defined.

(** A call made 500 ms after the start of the run that holds the lock. *)
Lemma run_rejected_while_in_progress_witness :
  Sample.run Sample.busy
  = (mkSummary false 0 0 [js "Calculation already in progress"], Sample.busy).
Proof.
  apply (@run_rejected_while_in_progress Sample.noRegexp Preview.STORE_IDS_ADONIS
           Preview.STORE_IDS_PROVIGO Sample.environment Sample.busy 500%Z).
  - reflexivity.
  - reflexivity.
  - vm_compute. discriminate.
Defined.

(** A run on the idle sample. *)
Lemma run_releases_lock_and_reports_witness :
  isCalculating (snd (Sample.run Sample.idle)) = false
  /\ calculationStartTime (snd (Sample.run Sample.idle)) = None.
Proof.
  destruct (@run_releases_lock_and_reports Sample.noRegexp Preview.STORE_IDS_ADONIS
              Preview.STORE_IDS_PROVIGO Sample.environment Sample.idle eq_refl)
    as [Hlock [Hstart _]].
  split; [exact Hlock|exact Hstart].
Defined.

(** The idle sample: one pair, IGA with the recipe, and no error. *)
Lemma summary_counts_pairs_witness :
  storesProcessed (fst (Sample.run Sample.idle)) = 1%nat
  /\ recipesProcessed (fst (Sample.run Sample.idle)) = 1%nat.
Proof.
  destruct (@summary_counts_pairs Sample.noRegexp Preview.STORE_IDS_ADONIS
              Preview.STORE_IDS_PROVIGO Sample.environment Sample.idle eq_refl eq_refl)
    as [Hstores [_ Hrecipes]].
  split; [exact (eq_trans Hstores eq_refl)|exact (eq_trans Hrecipes eq_refl)].
Defined.

(** * Further properties *)

(** ** The matcher and the selector *)

Section MatcherRange.
Local Open Scope Q_scope.

Variable regexpTest : jsstr -> jsstr -> completion bool.

Lemma filter_disjoint_length {A : Type} (f g : A -> bool) (l : list A) :
  (forall x, f x = true -> g x = false) ->
  (List.length (filter f l) + List.length (filter g l) <= List.length l)%nat.
Proof.
  intro Hdisjoint. induction l as [|x l IH]; simpl; [lia|].
  destruct (f x) eqn:Ef.
  - rewrite (Hdisjoint x Ef). simpl. lia.
  - destruct (g x); simpl; lia.
Qed.

Lemma inject_nat_nonneg (k : nat) : 0 <= inject_Z (Z.of_nat k).
Proof. rewrite <- (Zle_Qle 0). lia. Qed.

Lemma count_nonneg (f : jsstr -> bool) (l : list jsstr) : 0 <= count f l.
Proof. apply inject_nat_nonneg. Qed.

Lemma exact_and_partial_counts (promoWords ingredientWords : list jsstr) :
  count (hasExactWord promoWords) ingredientWords
  + count (isPartialWord promoWords) ingredientWords
  <= inject_Z (Z.of_nat (List.length ingredientWords)).
Proof.
  unfold count. rewrite <- inject_Z_plus, <- Zle_Qle, <- Nat2Z.inj_add.
  apply Nat2Z.inj_le. apply filter_disjoint_length.
  intros w Hexact. unfold isPartialWord. now rewrite Hexact.
Qed.

Lemma halfWeightBaseScore_range (ingredientWords promoWords : list jsstr) :
  ingredientWords <> [] ->
  0 <= halfWeightBaseScore ingredientWords promoWords
  /\ halfWeightBaseScore ingredientWords promoWords <= 1.
Proof.
  intro Hne. unfold halfWeightBaseScore.
  pose proof (count_nonneg (hasExactWord promoWords) ingredientWords) as He.
  pose proof (count_nonneg (isPartialWord promoWords) ingredientWords) as Hp.
  pose proof (exact_and_partial_counts promoWords ingredientWords) as Hsum.
  set (e := count (hasExactWord promoWords) ingredientWords) in *.
  set (p := count (isPartialWord promoWords) ingredientWords) in *.
  assert (Hn : 0 < inject_Z (Z.of_nat (List.length ingredientWords))).
  { rewrite <- (Zlt_Qlt 0). destruct ingredientWords; [contradiction|simpl; lia]. }
  set (n := inject_Z (Z.of_nat (List.length ingredientWords))) in *.
  assert (Heq : e / n + 0.3 * (0.5 * p / n) == (e + 0.15 * p) / n).
  { field. intro H0. rewrite H0 in Hn. now apply Qlt_irrefl in Hn. }
  rewrite Heq. split.
  - apply Qle_shift_div_l; [exact Hn|]. lra.
  - apply Qle_shift_div_r; [exact Hn|]. lra.
Qed.

Lemma Math_max_range (a b lo hi : Q) :
  lo <= a <= hi -> lo <= b <= hi -> lo <= Math_max a b /\ Math_max a b <= hi.
Proof. unfold Math_max. destruct (Qle_bool a b); tauto. Qed.

Lemma keywordFloor_range (promoWords : list jsstr) (promoNorm : jsstr) (base : Q)
    (relatedKeywords : list jsstr) :
  forall score,
    keywordFloor regexpTest relatedKeywords promoWords promoNorm base = Normal score ->
    0 <= base <= 1 -> 0 <= score /\ score <= 1.
Proof.
  assert (Hfloor : 0 <= base <= 1 -> 0 <= Math_max base 0.5 /\ Math_max base 0.5 <= 1).
  { intro Hbase. apply Math_max_range; [exact Hbase|]. split; discriminate. }
  induction relatedKeywords as [|kw rest IH]; intros score Hscore Hbase; simpl in Hscore.
  - injection Hscore as <-. exact Hbase.
  - destruct (existsb (fun pw => str_eqb pw kw) promoWords).
    + injection Hscore as <-. now apply Hfloor.
    + destruct (matchesWholeWord regexpTest promoNorm kw) as [[|]|e]; simpl in Hscore;
        [injection Hscore as <-; now apply Hfloor|now apply IH|discriminate].
Qed.

(** X1: whenever [scorePromoMatch] returns, the score lies between 0 and
    1. *)
Theorem scorePromoMatch_in_unit_interval (ingredientName promoName : jsstr) (score : Q) :
  scorePromoMatch regexpTest ingredientName promoName = Normal score ->
  0 <= score /\ score <= 1.
Proof.
  unfold scorePromoMatch.
  destruct (isExcludedProduct (normalizeText promoName)).
  { intro H. injection H as <-. split; discriminate. }
  destruct (matchesFullName regexpTest (normalizeText ingredientName)
              (normalizeText promoName)) as [[|]|e]; simpl; [| |discriminate].
  { intro H. injection H as <-. split; discriminate. }
  destruct (List.length (wordsOf (normalizeText ingredientName)) =? 0)%nat eqn:En.
  { intro H. injection H as <-. split; discriminate. }
  intro H. apply keywordFloor_range in H; [exact H|].
  rewrite baseScore_halfWeight. apply halfWeightBaseScore_range.
  intro Hnil. rewrite Hnil in En. discriminate En.
Qed.

End MatcherRange.

Lemma scorePromoMatch_in_unit_interval_witness :
  exists score,
    scorePromoMatch Sample.noRegexp (js "tomat") (js "tomates en dés") = Normal score
    /\ (0 <= score /\ score <= 1)%Q.
Proof.
  eexists. split; [reflexivity|].
  apply (scorePromoMatch_in_unit_interval Sample.noRegexp (js "tomat")
           (js "tomates en dés") _ eq_refl).
Defined.

Section MatcherAndSelector.
Local Open Scope Q_scope.

Variable regexpTest : jsstr -> jsstr -> completion bool.

(** X2: an ingredient word of fewer than 4 characters earns no partial
    credit: when every word of the ingredient is that short, the score
    before the keyword floor is the share of its words found exactly among
    the candidate words. *)
Theorem short_words_score_exact_matches_only (ingredientWords promoWords : list jsstr) :
  (forall w, In w ingredientWords -> (List.length w < 4)%nat) ->
  baseScore ingredientWords promoWords
  == count (hasExactWord promoWords) ingredientWords
     / inject_Z (Z.of_nat (List.length ingredientWords)).
Proof.
  intro Hshort. rewrite baseScore_halfWeight. unfold halfWeightBaseScore.
  assert (Hnone : filter (isPartialWord promoWords) ingredientWords = []).
  { induction ingredientWords as [|w ws IH]; [reflexivity|]. simpl.
    assert (Hw : isPartialWord promoWords w = false).
    { unfold isPartialWord. apply andb_false_iff. right.
      apply Nat.leb_gt. apply Hshort. now left. }
    rewrite Hw. apply IH. intros w' Hin. apply Hshort. now right. }
  unfold count at 2. rewrite Hnone. simpl List.length. simpl Z.of_nat.
  unfold Qdiv. ring.
Qed.

Lemma bestCandidateLoop_denylisted (ingredientName : jsstr) (cap : Q)
    (entries : list (jsstr * Q)) :
  (forall e, In e entries -> isExcludedProduct (normalizeText (fst e)) = true) ->
  forall best,
    bestCandidateLoop regexpTest ingredientName cap entries best = Normal best.
Proof.
  induction entries as [|[productName entryPrice] rest IH]; intros Hden best;
    cbn [bestCandidateLoop].
  - reflexivity.
  - assert (Hrest : forall e, In e rest -> isExcludedProduct (normalizeText (fst e)) = true)
      by (intros e He; apply Hden; now right).
    destruct (Qgtb entryPrice cap); [now apply IH|].
    pose proof (Hden (productName, entryPrice) (or_introl eq_refl)) as Hthis.
    cbn [fst] in Hthis. unfold scorePromoMatch. rewrite Hthis. cbn [bind].
    assert (Hzero : Qle_bool 0.5 0 = false) by reflexivity.
    rewrite Hzero. now apply IH.
Qed.

(** X3: a store whose promotions and reference prices all carry a
    denylisted product name, and whose unified catalog yields no price,
    gives the category estimate capped by the cap of the ingredient; this
    holds for every ingredient name, because a denylisted candidate is
    rejected before the name is used in a regular expression.  The
    category is not a property name inherited from [Object.prototype],
    under which the estimate is NaN. *)
Theorem denylisted_products_are_never_selected (ingredientName : jsstr)
    (ingredientCategory : option jsstr) (storeData : CachedStoreData) :
  isPlainCategory ingredientCategory = true ->
  unifiedPriceFound ingredientName storeData = false ->
  (forall p, In p (promos storeData) ->
             isExcludedProduct (normalizeText (promo_productName p)) = true) ->
  (forall r, In r (refs storeData) ->
             isExcludedProduct (normalizeText (ref_productName r)) = true) ->
  findBestPrice regexpTest ingredientName ingredientCategory storeData
  = Normal (mkPricing ingredientName
              (Math_min (categoryEstimate ingredientCategory)
                 (getIngredientPriceCap ingredientName))
              Estimate None).
Proof.
  intros _ Hunified Hpromos Hrefs. unfold findBestPrice.
  unfold unifiedPriceFound in Hunified.
  assert (Hnone : match findUnifiedPrice ingredientName storeData with
                  | Some m => if Qgtb (um_unitPrice m) 0 then Some m else None
                  | None => None
                  end = None).
  { destruct (findUnifiedPrice ingredientName storeData) as [m|]; [|reflexivity].
    now rewrite Hunified. }
  rewrite Hnone.
  rewrite bestCandidateLoop_denylisted.
  2:{ intros e He. apply in_map_iff in He. destruct He as [p [<- Hp]]. now apply Hpromos. }
  simpl. rewrite bestCandidateLoop_denylisted.
  2:{ intros e He. apply in_map_iff in He. destruct He as [r [<- Hr]]. now apply Hrefs. }
  reflexivity.
Qed.

Lemma getIngredientPriceCap_bounds (ingredientName : jsstr) :
  3 <= getIngredientPriceCap ingredientName
  /\ getIngredientPriceCap ingredientName <= GLOBAL_MAX_INGREDIENT_PRICE.
Proof.
  unfold getIngredientPriceCap.
  destruct (find _ INGREDIENT_PRICE_CAPS) as [kc|] eqn:Efind.
  - apply find_some in Efind. destruct Efind as [Hin _].
    assert (Htable : forallb (fun kc => Qle_bool 3 (snd kc)
                                        && Qle_bool (snd kc) GLOBAL_MAX_INGREDIENT_PRICE)
                       INGREDIENT_PRICE_CAPS = true) by (vm_compute; reflexivity).
    rewrite forallb_forall in Htable. specialize (Htable kc Hin).
    apply andb_true_iff in Htable. destruct Htable as [H1 H2].
    split; now apply Qle_bool_iff.
  - split; discriminate.
Qed.

(** X4: whenever [findBestPrice] returns, for a category that is not a
    property name inherited from [Object.prototype], the price is at most
    the cap of the ingredient, which is itself between 3 and the global cap
    of 50 dollars, and the source is the category estimate exactly when
    neither the unified catalog, nor a promotion, nor a reference price
    yields a price. *)
Theorem selected_price_within_caps (ingredientName : jsstr)
    (ingredientCategory : option jsstr) (storeData : CachedStoreData)
    (pricing : IngredientPricingResultWithUnit) :
  isPlainCategory ingredientCategory = true ->
  findBestPrice regexpTest ingredientName ingredientCategory storeData = Normal pricing ->
  price pricing <= getIngredientPriceCap ingredientName
  /\ price pricing <= GLOBAL_MAX_INGREDIENT_PRICE
  /\ 3 <= getIngredientPriceCap ingredientName
  /\ (source pricing = Estimate <-> noPriceFound regexpTest ingredientName storeData = true).
Proof.
  intros _ H.
  destruct (findBestPrice_cap_and_fallback regexpTest _ _ _ _ H) as [Hcap Hsource].
  destruct (getIngredientPriceCap_bounds ingredientName) as [Hlow Hhigh].
  repeat split; trivial; try (apply Hsource).
  eapply Qle_trans; eassumption.
Qed.

(** X5: for an ingredient name whose normalized form contains no
    regular-expression syntax character, and a category that is not a
    property name inherited from [Object.prototype], [findBestPrice]
    always returns a price, and that price is at most the global cap of 50
    dollars. *)
Theorem literal_names_are_always_priced (ingredientName : jsstr)
    (ingredientCategory : option jsstr) (storeData : CachedStoreData) :
  isPlainCategory ingredientCategory = true ->
  isLiteralWord (normalizeText ingredientName) = true ->
  exists pricing,
    findBestPrice regexpTest ingredientName ingredientCategory storeData = Normal pricing
    /\ price pricing <= GLOBAL_MAX_INGREDIENT_PRICE.
Proof.
  intros _ Hliteral.
  destruct (findBestPrice_returns_on_literal_names regexpTest ingredientName
              ingredientCategory storeData Hliteral) as [pricing H].
  exists pricing. split; [exact H|].
  destruct (findBestPrice_cap_and_fallback regexpTest _ _ _ _ H) as [Hcap _].
  destruct (getIngredientPriceCap_bounds ingredientName) as [_ Hhigh].
  eapply Qle_trans; eassumption.
Qed.

Lemma findUnifiedPrice_unit_not_empty (ingredientName : jsstr) (storeData : CachedStoreData)
    (m : UnifiedMatch) :
  findUnifiedPrice ingredientName storeData = Some m -> isEmpty (um_normalizedUnit m) = false.
Proof.
  unfold findUnifiedPrice.
  destruct (findUnifiedLoop _ _ _ _ _) as [bestMatch|]; [|discriminate].
  destruct (Qeq_bool _ 0); [discriminate|].
  set (unit := toLowerCase (up_unit bestMatch)).
  assert (Hor : isEmpty (if isEmpty unit then js "unité" else unit) = false).
  { destruct (isEmpty unit) eqn:E; [reflexivity|exact E]. }
  destruct (up_unitPrice bestMatch).
  - repeat match goal with
           | |- context [if ?c then _ else _] =>
               match c with
               | isEmpty _ => fail 1
               | _ => destruct c
               end
           end; intro H; injection H as <-; simpl; trivial.
  - destruct (Qgtb _ 0); [|discriminate].
    repeat match goal with
           | |- context [if ?c then _ else _] =>
               match c with
               | isEmpty _ => fail 1
               | _ => destruct c
               end
           end; intro H; injection H as <-; simpl; trivial.
Qed.

(** X6: in a result of [findBestPrice], a price from the unified catalog
    always carries a non-empty normalized unit and prices from the other
    sources carry none: the aggregator costs the former per canonical unit
    and the latter by package proportion. *)
Theorem unit_price_costing_iff_unified (ingredientName : jsstr)
    (ingredientCategory : option jsstr) (storeData : CachedStoreData)
    (pricing : IngredientPricingResultWithUnit) :
  findBestPrice regexpTest ingredientName ingredientCategory storeData = Normal pricing ->
  (usesUnitPrice pricing = true <-> source pricing = Unified)
  /\ (source pricing <> Unified -> normalizedUnit pricing = None).
Proof.
  unfold findBestPrice.
  pose proof (findUnifiedPrice_unit_not_empty ingredientName storeData) as Hunit.
  destruct (findUnifiedPrice ingredientName storeData) as [m|].
  - specialize (Hunit m eq_refl).
    destruct (Qgtb (um_unitPrice m) 0).
    + intro H. injection H as <-. unfold usesUnitPrice. simpl. rewrite Hunit.
      split; [tauto|]. intro Hne. now elim Hne.
    + destruct (bestCandidateLoop _ _ _ _ None) as [[b|]|e]; simpl; [| |discriminate].
      * intro H. injection H as <-. unfold usesUnitPrice. simpl.
        split; [split; discriminate|reflexivity].
      * destruct (bestCandidateLoop _ _ _ _ None) as [[b|]|e]; simpl; [| |discriminate];
          intro H; injection H as <-; unfold usesUnitPrice; simpl;
          (split; [split; discriminate|reflexivity]).
  - destruct (bestCandidateLoop _ _ _ _ None) as [[b|]|e]; simpl; [| |discriminate].
    + intro H. injection H as <-. unfold usesUnitPrice. simpl.
      split; [split; discriminate|reflexivity].
    + destruct (bestCandidateLoop _ _ _ _ None) as [[b|]|e]; simpl; [| |discriminate];
        intro H; injection H as <-; unfold usesUnitPrice; simpl;
        (split; [split; discriminate|reflexivity]).
Qed.

End MatcherAndSelector.

(** A store with a denylisted promotion only, for an ingredient name with
    an unclosed parenthesis. *)
Lemma denylisted_products_are_never_selected_witness :
  findBestPrice Sample.noRegexp (js "sel (fin") (Some (js "Épicerie"))
    (mkCachedStoreData [] [mkPromo (js "savon au sel de mer") 2] [])
  = Normal (mkPricing (js "sel (fin") (Math_min 3.99 4) Estimate None).
Proof.
  apply (denylisted_products_are_never_selected Sample.noRegexp (js "sel (fin")
           (Some (js "Épicerie"))
           (mkCachedStoreData [] [mkPromo (js "savon au sel de mer") 2] [])).
  - reflexivity.
  - reflexivity.
  - intros p [<-|[]]. reflexivity.
  - intros r [].
Defined.

(** ** The unified catalog and the costs *)

Section UnifiedAndCosts.
Local Open Scope Q_scope.

Lemma findUnifiedLoop_exact (fullNameNorm : jsstr) (searchTerms : list jsstr)
    (u : UnifiedPriceData) (post : list UnifiedPriceData) (pre : list UnifiedPriceData) :
  isExactEntry fullNameNorm u = true ->
  (forall x, In x pre -> isExactEntry fullNameNorm x = false) ->
  forall bestMatch bestScore,
    findUnifiedLoop fullNameNorm searchTerms (pre ++ u :: post) bestMatch bestScore
    = Some u.
Proof.
  intros Hexact. unfold isExactEntry in Hexact.
  induction pre as [|x pre IH]; intros Hpre bestMatch bestScore; cbn [app findUnifiedLoop].
  - destruct (up_genericProduct u) as [gp|]; [|discriminate].
    apply andb_true_iff in Hexact. destruct Hexact as [Hne Heq].
    apply negb_true_iff in Hne. now rewrite Hne, Heq.
  - assert (Hrest : forall y, In y pre -> isExactEntry fullNameNorm y = false)
      by (intros y Hy; apply Hpre; now right).
    pose proof (Hpre x (or_introl eq_refl)) as Hx. unfold isExactEntry in Hx.
    destruct (up_genericProduct x) as [gp|]; [|now apply IH].
    destruct (isEmpty gp); [now apply IH|].
    simpl in Hx. rewrite Hx.
    repeat match goal with
           | |- context [if ?c then _ else _] => destruct c
           end; now apply IH.
Qed.

(** X7: an exact match of the normalized names wins outright in the
    unified catalog: the result of [findUnifiedPrice] is decided by the
    first exact entry alone, whatever the entries before and after it and
    whatever their scores. *)
Theorem exact_unified_match_wins (ingredientName : jsstr)
    (pre post : list UnifiedPriceData) (u : UnifiedPriceData)
    (promos : list Promo) (refs : list Ref) :
  isExactEntry (normalizeText ingredientName) u = true ->
  (forall x, In x pre -> isExactEntry (normalizeText ingredientName) x = false) ->
  findUnifiedPrice ingredientName (mkCachedStoreData (pre ++ u :: post) promos refs)
  = findUnifiedPrice ingredientName (mkCachedStoreData [u] [] []).
Proof.
  intros Hexact Hpre. unfold findUnifiedPrice. cbn [unified].
  rewrite (findUnifiedLoop_exact _ _ u post pre Hexact Hpre).
  rewrite (findUnifiedLoop_exact _ _ u [] [] Hexact (fun _ H => match H with end)).
  reflexivity.
Qed.

(** X8: a recipe unit that is a weight or a volume always takes precedence
    over the classification by name: the proportional cost then never
    consults a unit weight, so it is the same whatever the equivalence
    cache holds. *)
Theorem weight_or_volume_unit_ignores_the_cache
    (cache1 cache2 : EquivalenceCache) (quantity : Q) (unit : jsstr)
    (productPrice : Q) (ingredientName : jsstr) :
  isWeightOrVolumeUnit (trim (toLowerCase unit)) = true ->
  calculateProportionalCost cache1 quantity unit productPrice ingredientName
  = calculateProportionalCost cache2 quantity unit productPrice ingredientName.
Proof.
  intro Hunit. unfold calculateProportionalCost, isCountBased.
  rewrite Hunit. reflexivity.
Qed.

(** X9: a count-based ingredient of unknown unit weight is never charged
    more than two packages, whatever the quantity asked for. *)
Theorem unknown_weight_costs_at_most_two_packages
    (cache : EquivalenceCache) (quantity : Q) (unit : jsstr)
    (productPrice : Q) (ingredientName : jsstr) :
  isCountBased ingredientName (trim (toLowerCase unit)) = true ->
  getUnitWeightInGrams cache ingredientName = None ->
  0 <= productPrice ->
  calculateProportionalCost cache quantity unit productPrice ingredientName
  <= 2 * productPrice.
Proof.
  intros Hcount Hweight Hprice. unfold calculateProportionalCost.
  rewrite Hcount, Hweight.
  pose proof (Math_min_upper (Math_ceil quantity) 2) as Hmin.
  rewrite (Qmult_comm productPrice (Math_min (Math_ceil quantity) 2)).
  apply Qmult_le_compat_r; assumption.
Qed.

Lemma Qle_bool_comp (a a' b b' : Q) : a == a' -> b == b' -> Qle_bool a b = Qle_bool a' b'.
Proof.
  intros Ha Hb. destruct (Qle_bool a b) eqn:E1, (Qle_bool a' b') eqn:E2; trivial.
  - apply Qle_bool_iff in E1. rewrite Ha, Hb in E1. apply Qle_bool_iff in E1. congruence.
  - apply Qle_bool_iff in E2. rewrite <- Ha, <- Hb in E2. apply Qle_bool_iff in E2.
    congruence.
Qed.

Lemma atLeastOneCent_comp (a b : Q) : a == b -> atLeastOneCent a == atLeastOneCent b.
Proof.
  intro Hab. unfold atLeastOneCent, Math_max.
  assert (Hround : roundCents a == roundCents b).
  { unfold roundCents, Math_round. now rewrite Hab. }
  rewrite (Qle_bool_comp (1 # 100) (1 # 100) (roundCents a) (roundCents b)
             (Qeq_refl _) Hround).
  destruct (Qle_bool (1 # 100) (roundCents b)); [exact Hround|reflexivity].
Qed.

Lemma unitPriceCost_kg (cache : EquivalenceCache) (quantity unitPrice : Q) (name : jsstr) :
  calculateCostFromUnitPrice cache quantity (js "kg") unitPrice name (js "kg")
  = atLeastOneCent (unitPrice * ((quantity * 1000) / 1000)).
Proof. reflexivity. Qed.

Lemma unitPriceCost_g (cache : EquivalenceCache) (quantity unitPrice : Q) (name : jsstr) :
  calculateCostFromUnitPrice cache quantity (js "g") unitPrice name (js "kg")
  = atLeastOneCent (unitPrice * ((quantity * 1) / 1000)).
Proof. reflexivity. Qed.

Lemma unitPriceCost_lb (cache : EquivalenceCache) (quantity unitPrice : Q) (name : jsstr) :
  calculateCostFromUnitPrice cache quantity (js "lb") unitPrice name (js "kg")
  = atLeastOneCent (unitPrice * ((quantity * 454) / 1000)).
Proof. reflexivity. Qed.

Lemma unitPriceCost_l (cache : EquivalenceCache) (quantity unitPrice : Q) (name : jsstr) :
  calculateCostFromUnitPrice cache quantity (js "l") unitPrice name (js "l")
  = atLeastOneCent (unitPrice * ((quantity * 1000) / 1000)).
Proof. reflexivity. Qed.

Lemma unitPriceCost_ml (cache : EquivalenceCache) (quantity unitPrice : Q) (name : jsstr) :
  calculateCostFromUnitPrice cache quantity (js "ml") unitPrice name (js "l")
  = atLeastOneCent (unitPrice * ((quantity * 1) / 1000)).
Proof. reflexivity. Qed.

(** X10: the cost at a price per kilogram or per litre does not depend on
    the unit in which the recipe writes the same quantity: [q] kg cost what
    [1000 q] g cost, [q] lb what [454 q] g cost, and [q] L what [1000 q] ml
    cost. *)
Theorem unit_price_cost_is_unit_invariant
    (cache : EquivalenceCache) (quantity unitPrice : Q) (name : jsstr) :
  calculateCostFromUnitPrice cache quantity (js "kg") unitPrice name (js "kg")
  == calculateCostFromUnitPrice cache (1000 * quantity) (js "g") unitPrice name (js "kg")
  /\ calculateCostFromUnitPrice cache quantity (js "lb") unitPrice name (js "kg")
     == calculateCostFromUnitPrice cache (454 * quantity) (js "g") unitPrice name (js "kg")
  /\ calculateCostFromUnitPrice cache quantity (js "l") unitPrice name (js "l")
     == calculateCostFromUnitPrice cache (1000 * quantity) (js "ml") unitPrice name (js "l").
Proof.
  rewrite unitPriceCost_kg, unitPriceCost_lb, unitPriceCost_l, !unitPriceCost_g,
    unitPriceCost_ml.
  repeat split; apply atLeastOneCent_comp; field.
Qed.

Lemma Math_ceil_whole (x : Q) : exists k : Z, Math_ceil x = inject_Z k.
Proof. exists (Qceiling x). reflexivity. Qed.

(** X11: [normalizeQuantityToPackages] always answers a whole number of
    packages, at least one. *)
Theorem normalizeQuantityToPackages_whole_and_positive (quantity : Q) (unit : jsstr) :
  1 <= normalizeQuantityToPackages quantity unit
  /\ exists k : Z, normalizeQuantityToPackages quantity unit == inject_Z k.
Proof.
  assert (Hmax : forall x, 1 <= Math_max 1 (Math_ceil x)
                           /\ exists k : Z, Math_max 1 (Math_ceil x) == inject_Z k).
  { intro x. split; [apply Math_max_lower|].
    unfold Math_max. destruct (Qle_bool 1 (Math_ceil x)).
    - exists (Qceiling x). reflexivity.
    - exists 1%Z. reflexivity. }
  assert (Hone : 1 <= 1 /\ exists k : Z, 1 == inject_Z k).
  { split; [apply Qle_refl|exists 1%Z; reflexivity]. }
  unfold normalizeQuantityToPackages.
  repeat match goal with
         | |- context [if ?c then _ else _] => destruct c
         end; auto.
Qed.

End UnifiedAndCosts.

(** ** The aggregation of the lines of a recipe *)

Section AggregationFacts.
Local Open Scope Q_scope.

Lemma sumQ_app (a b : list Q) : sumQ (a ++ b) == sumQ a + sumQ b.
Proof.
  induction a as [|x a IH]; simpl; [ring|]. rewrite IH. ring.
Qed.

Lemma str_eqb_sym (a b : jsstr) : str_eqb a b = str_eqb b a.
Proof.
  destruct (str_eqb a b) eqn:E1, (str_eqb b a) eqn:E2; trivial.
  - apply str_eqb_eq in E1. subst. rewrite str_eqb_refl in E2. discriminate.
  - apply str_eqb_eq in E2. subst. rewrite str_eqb_refl in E1. discriminate.
Qed.

Lemma addAggregated_new (acc : list AggregatedIng) (x : RecipeIngredient) :
  ~ In (ri_ingredientId x) (map agg_ingredientId acc) ->
  addAggregated acc x
  = acc ++ [mkAggregated (ri_ingredientId x) (orOne (ri_quantity x)) (orUnite (ri_unit x))].
Proof.
  induction acc as [|a acc IH]; intro Hnotin; simpl; [reflexivity|].
  destruct (str_eqb (agg_ingredientId a) (ri_ingredientId x)) eqn:E.
  - apply str_eqb_eq in E. elim Hnotin. now left.
  - rewrite IH; [reflexivity|]. intro H. apply Hnotin. now right.
Qed.

Lemma addAggregated_existing (acc : list AggregatedIng) (x : RecipeIngredient) :
  In (ri_ingredientId x) (map agg_ingredientId acc) ->
  exists pre old post,
    acc = pre ++ old :: post
    /\ agg_ingredientId old = ri_ingredientId x
    /\ ~ In (ri_ingredientId x) (map agg_ingredientId pre)
    /\ addAggregated acc x
       = pre ++ mkAggregated (agg_ingredientId old)
                  (agg_quantity old + orOne (ri_quantity x)) (agg_unit old) :: post.
Proof.
  induction acc as [|a acc IH]; intro Hin; [destruct Hin|]. simpl.
  destruct (str_eqb (agg_ingredientId a) (ri_ingredientId x)) eqn:E.
  - apply str_eqb_eq in E. exists [], a, acc. repeat split; trivial. intros [].
  - destruct Hin as [Heq|Hin].
    + rewrite Heq, str_eqb_refl in E. discriminate.
    + destruct (IH Hin) as [pre [old [post [Hacc [Hid [Hpre Hadd]]]]]].
      exists (a :: pre), old, post. repeat split.
      * now rewrite Hacc.
      * exact Hid.
      * intros [Heq|H]; [|now apply Hpre].
        rewrite Heq, str_eqb_refl in E. discriminate.
      * now rewrite Hadd.
Qed.

Lemma quantitiesOf_app (id : jsstr) (l : list RecipeIngredient) (x : RecipeIngredient) :
  quantitiesOf id (l ++ [x])
  = quantitiesOf id l
    ++ (if str_eqb (ri_ingredientId x) id then [orOne (ri_quantity x)] else []).
Proof.
  unfold quantitiesOf. rewrite filter_app, map_app. simpl.
  now destruct (str_eqb (ri_ingredientId x) id).
Qed.

Lemma firstUnitOf_app_found (id : jsstr) (l : list RecipeIngredient)
    (x : RecipeIngredient) (u : jsstr) :
  firstUnitOf id l = Some u -> firstUnitOf id (l ++ [x]) = Some u.
Proof.
  unfold firstUnitOf. induction l as [|y l IH]; simpl; [discriminate|].
  destruct (str_eqb (ri_ingredientId y) id); [trivial|exact IH].
Qed.

Lemma find_app_none {A : Type} (f : A -> bool) (l l' : list A) :
  find f l = None -> find f (l ++ l') = find f l'.
Proof.
  induction l as [|y l IH]; simpl; [reflexivity|].
  destruct (f y); [discriminate|exact IH].
Qed.

Lemma no_line_of_unlisted_id (id : jsstr) (l : list RecipeIngredient)
    (ids : list jsstr) :
  (forall ri, In ri l -> In (ri_ingredientId ri) ids) ->
  ~ In id ids ->
  filter (fun ri => str_eqb (ri_ingredientId ri) id) l = [].
Proof.
  intros Hall Hnotin. induction l as [|y l IH]; simpl; [reflexivity|].
  destruct (str_eqb (ri_ingredientId y) id) eqn:E.
  - apply str_eqb_eq in E. elim Hnotin. rewrite <- E. apply Hall. now left.
  - apply IH. intros ri Hri. apply Hall. now right.
Qed.

Lemma aggregates_step (acc : list AggregatedIng) (l : list RecipeIngredient)
    (x : RecipeIngredient) :
  aggregates acc l -> aggregates (addAggregated acc x) (l ++ [x]).
Proof.
  intros [Hnd [Hacc Hall]].
  destruct (in_dec (list_eq_dec N.eq_dec) (ri_ingredientId x) (map agg_ingredientId acc))
    as [Hin|Hnotin].
  - destruct (addAggregated_existing acc x Hin)
      as [pre [old [post [Heq [Hid [Hpre Hadd]]]]]].
    rewrite Hadd. subst acc.
    assert (Hids : map agg_ingredientId
                     (pre ++ mkAggregated (agg_ingredientId old)
                               (agg_quantity old + orOne (ri_quantity x))
                               (agg_unit old) :: post)
                   = map agg_ingredientId (pre ++ old :: post))
      by (rewrite !map_app; reflexivity).
    split; [now rewrite Hids|]. split.
    + intros a Ha. apply in_app_or in Ha.
      assert (Hother : In a (pre ++ old :: post) -> agg_ingredientId a <> ri_ingredientId x ->
                       agg_quantity a == sumQ (quantitiesOf (agg_ingredientId a) (l ++ [x]))
                       /\ firstUnitOf (agg_ingredientId a) (l ++ [x]) = Some (agg_unit a)).
      { intros Hin' Hne. destruct (Hacc a Hin') as [Hq Hu]. split.
        - rewrite quantitiesOf_app.
          destruct (str_eqb (ri_ingredientId x) (agg_ingredientId a)) eqn:E.
          + apply str_eqb_eq in E. now elim Hne.
          + now rewrite app_nil_r.
        - now apply firstUnitOf_app_found. }
      destruct Ha as [Ha|[<-|Ha]].
      * apply Hother; [apply in_or_app; now left|].
        intro Heq. apply Hpre. rewrite <- Heq. now apply in_map.
      * simpl.
        assert (Hold : In old (pre ++ old :: post)) by (apply in_or_app; right; now left).
        destruct (Hacc old Hold) as [Hq Hu].
        split.
        -- rewrite quantitiesOf_app, Hid, str_eqb_refl, sumQ_app, <- Hid, <- Hq.
           simpl. ring.
        -- now apply firstUnitOf_app_found.
      * apply Hother; [apply in_or_app; right; now right|].
        intro Heq. rewrite map_app in Hnd. simpl in Hnd.
        apply NoDup_remove_2 in Hnd. apply Hnd. apply in_or_app. right.
        rewrite Hid, <- Heq. now apply in_map.
    + rewrite Hids. intros ri Hri. apply in_app_or in Hri.
      destruct Hri as [Hri|[<-|[]]]; [now apply Hall|exact Hin].
  - rewrite (addAggregated_new acc x Hnotin).
    pose proof (no_line_of_unlisted_id _ l _ Hall Hnotin) as Hnoline.
    split; [|split].
    + rewrite map_app. simpl.
      apply NoDup_Add with (a := ri_ingredientId x) (l := map agg_ingredientId acc).
      * rewrite <- (app_nil_r (map agg_ingredientId acc)) at 1. apply Add_app.
      * now split.
    + intros a Ha. apply in_app_or in Ha. destruct Ha as [Ha|[<-|[]]].
      * destruct (Hacc a Ha) as [Hq Hu]. split.
        -- rewrite quantitiesOf_app.
           destruct (str_eqb (ri_ingredientId x) (agg_ingredientId a)) eqn:E.
           ++ apply str_eqb_eq in E. elim Hnotin. rewrite E. now apply in_map.
           ++ now rewrite app_nil_r.
        -- now apply firstUnitOf_app_found.
      * simpl. split.
        -- unfold quantitiesOf. rewrite filter_app, Hnoline. simpl.
           rewrite str_eqb_refl. simpl. ring.
        -- unfold firstUnitOf.
           assert (Hfind : find (fun ri => str_eqb (ri_ingredientId ri) (ri_ingredientId x)) l
                           = None).
           { destruct (find _ l) as [y|] eqn:E; [|reflexivity].
             apply find_some in E. destruct E as [Hy Hmatch].
             assert (Hf : In y (filter (fun ri => str_eqb (ri_ingredientId ri)
                                                    (ri_ingredientId x)) l))
               by (apply filter_In; now split).
             rewrite Hnoline in Hf. destruct Hf. }
           rewrite (find_app_none _ l [x] Hfind). simpl. now rewrite str_eqb_refl.
    + rewrite map_app. intros ri Hri. apply in_or_app. apply in_app_or in Hri.
      destruct Hri as [Hri|[<-|[]]]; [left; now apply Hall|right; now left].
Qed.

(** X12: the aggregation of the lines of a recipe keeps one entry for each
    ingredient id, with the sum of the quantities of the lines that name it
    (a quantity of 0 counting for 1) and the unit of the first of them
    (an empty unit counting for 'unité'), and every line is accounted
    for. *)
Theorem aggregateIngredients_sums_by_ingredient (lines : list RecipeIngredient) :
  NoDup (map agg_ingredientId (aggregateIngredients lines))
  /\ (forall a, In a (aggregateIngredients lines) ->
        agg_quantity a == sumQ (quantitiesOf (agg_ingredientId a) lines)
        /\ firstUnitOf (agg_ingredientId a) lines = Some (agg_unit a))
  /\ (forall ri, In ri lines ->
        In (ri_ingredientId ri) (map agg_ingredientId (aggregateIngredients lines))).
Proof.
  change (aggregates (aggregateIngredients lines) lines).
  unfold aggregateIngredients.
  induction lines as [|x lines IH] using rev_ind.
  - simpl. split; [constructor|]. split; [intros a []|intros ri []].
  - rewrite fold_left_app. simpl. now apply aggregates_step.
Qed.

End AggregationFacts.

Section PairResultFacts.
Local Open Scope Q_scope.

Variable regexpTest : jsstr -> jsstr -> completion bool.
Variable cache : EquivalenceCache.
Variable allIngredients : list Ingredient.
Variable storeData : CachedStoreData.

Lemma roundCents_cents (x : Q) : wholeCents (roundCents x).
Proof. exists (Qfloor (x * 100 + (1 # 2))). reflexivity. Qed.

Lemma roundCents_upper (x : Q) (bound : Z) :
  x <= inject_Z bound -> roundCents x <= inject_Z bound.
Proof.
  intro Hx. unfold roundCents, Math_round.
  apply Qle_shift_div_r; [reflexivity|].
  assert (Hfloor : (Qfloor (x * 100 + (1 # 2)) <= bound * 100)%Z).
  { pose proof (Qfloor_le (x * 100 + (1 # 2))) as Hk.
    apply Z.lt_succ_r. rewrite <- Z.add_1_r. rewrite Zlt_Qlt.
    rewrite inject_Z_plus, inject_Z_mult.
    change (inject_Z 100) with 100. change (inject_Z 1) with 1. lra. }
  rewrite Zle_Qle, inject_Z_mult in Hfloor.
  change (inject_Z 100) with 100 in Hfloor. exact Hfloor.
Qed.

Lemma priceIngredients_breakdown (ings : list AggregatedIng) :
  forall total missing lines total' missing' lines',
    priceIngredients regexpTest cache allIngredients storeData ings total missing lines
    = Normal (total', missing', lines') ->
    map bd_ingredientId lines'
    = map bd_ingredientId lines
      ++ map agg_ingredientId
           (filter (fun ri => negb (isUnknownIngredient allIngredients ri)) ings)
    /\ (forall item, In item lines' ->
          In item lines
          \/ (bd_calculatedCost item <= GLOBAL_MAX_INGREDIENT_COST
              /\ wholeCents (bd_calculatedCost item))).
Proof.
  induction ings as [|ri ings IH]; intros total missing lines total' missing' lines' H.
  - simpl in *. injection H as _ _ <-. rewrite app_nil_r. split; [reflexivity|now left].
  - cbn [priceIngredients filter] in H |- *. unfold isUnknownIngredient at 1.
    destruct (ingredientMap_get allIngredients (agg_ingredientId ri)) as [ingredient|].
    + destruct (findBestPrice regexpTest (ingredient_name ingredient)
                  (ingredient_category ingredient) storeData) as [pricing|e];
        [|discriminate].
      cbn [bind isNone negb] in H |- *. apply IH in H. destruct H as [Hids Hitems].
      rewrite Hids, map_app. cbn [map bd_ingredientId]. rewrite <- app_assoc.
      split; [reflexivity|].
      intros item Hitem. destruct (Hitems item Hitem) as [Hold|Hnew]; [|now right].
      apply in_app_or in Hold. destruct Hold as [Hold|[<-|[]]]; [now left|right].
      cbn [bd_calculatedCost]. split; [|apply roundCents_cents].
      apply (roundCents_upper _ 60). apply capIngredientCost_ceiling.
    + cbn [isNone negb] in H |- *. now apply IH in H.
Qed.

End PairResultFacts.

Section PairResultBounds.
Local Open Scope Q_scope.

(** X13: whenever a recipe is priced at a store, the breakdown lists, in
    the order of the aggregated lines, exactly the lines whose ingredient
    is known, and the missing count is at most the number of lines; when
    no unit and no category of these lines is a property name inherited
    from [Object.prototype] (where a cost is NaN and passes every
    ceiling), the total never exceeds [MAX_RECIPE_TOTAL] (200 dollars) and
    is a whole number of cents, and each line of the breakdown has a cost
    of at most 60 dollars in whole cents. *)
Theorem priced_pair_respects_ceilings
    regexpTest cache allIngredients allRecipeIngredients recipe storeData r :
  priceRecipeAtStore regexpTest cache allIngredients allRecipeIngredients recipe storeData
  = Normal r ->
  map bd_ingredientId (breakdown r)
  = map agg_ingredientId
      (filter (fun ri => negb (isUnknownIngredient allIngredients ri))
         (linesOf allRecipeIngredients recipe))
  /\ (missingCount r <= List.length (linesOf allRecipeIngredients recipe))%nat
  /\ (readsPlainKeys allIngredients (linesOf allRecipeIngredients recipe) = true ->
      totalCost r <= MAX_RECIPE_TOTAL
      /\ wholeCents (totalCost r)
      /\ forall item, In item (breakdown r) ->
           bd_calculatedCost item <= GLOBAL_MAX_INGREDIENT_COST
           /\ wholeCents (bd_calculatedCost item)).
Proof.
  unfold priceRecipeAtStore. fold (linesOf allRecipeIngredients recipe).
  destruct (priceIngredients regexpTest cache allIngredients storeData
              (linesOf allRecipeIngredients recipe) 0 0 []) as [[[total missing] lines]|e] eqn:E;
    [|discriminate].
  cbn [bind]. intro H. injection H as <-. cbn [totalCost breakdown missingCount].
  pose proof (priceIngredients_missingCount regexpTest cache allIngredients storeData
                _ _ _ _ _ _ _ E) as Hmissing.
  pose proof (priceIngredients_breakdown regexpTest cache allIngredients storeData
                _ _ _ _ _ _ _ E) as [Hids Hitems].
  split; [exact Hids|]. split.
  - rewrite Hmissing. simpl.
    pose proof (filter_disjoint_length (isUnknownIngredient allIngredients)
                  (fellBackToEstimate regexpTest allIngredients storeData)
                  (linesOf allRecipeIngredients recipe)) as Hsum.
    apply Hsum. intros ri Hunknown. unfold isUnknownIngredient in Hunknown.
    unfold fellBackToEstimate.
    destruct (ingredientMap_get allIngredients (agg_ingredientId ri));
      [discriminate|reflexivity].
  - intros _. split; [|split].
    + unfold Qgtb. destruct (Qltb MAX_RECIPE_TOTAL (roundCents total)) eqn:Ecap.
      * apply Qle_refl.
      * now apply Qltb_false_le.
    + destruct (Qgtb (roundCents total) MAX_RECIPE_TOTAL).
      * exists 20000%Z. reflexivity.
      * apply roundCents_cents.
    + intros item Hitem. destruct (Hitems item Hitem) as [[]|H]. exact H.
Qed.

End PairResultBounds.

(** ** The price table and the rollup *)

Section TableFacts.
Local Open Scope Q_scope.

Variable env : Environment.

Lemma filter_map_same_length {A : Type} (p : A -> bool) (f : A -> A) (l : list A) :
  (forall x, p (f x) = p x) ->
  List.length (filter p (map f l)) = List.length (filter p l).
Proof.
  intro Hp. induction l as [|x l IH]; simpl; [reflexivity|].
  rewrite Hp. destruct (p x); simpl; now rewrite IH.
Qed.

Lemma find_none_filter {A : Type} (p : A -> bool) (l : list A) :
  find p l = None -> filter p l = [].
Proof.
  induction l as [|x l IH]; simpl; [reflexivity|].
  destruct (p x); [discriminate|exact IH].
Qed.

Lemma find_some_filter {A : Type} (p : A -> bool) (l : list A) (x : A) :
  find p l = Some x -> (1 <= List.length (filter p l))%nat.
Proof.
  induction l as [|y l IH]; simpl; [discriminate|].
  destruct (p y); simpl; [lia|exact IH].
Qed.

(** X14: an upsert never duplicates a key.  After [upsertPrice] for a
    (recipe, store) pair, the table has as many rows for that pair in the
    current week as before, or one if it had none, and the number of rows
    of every other key is unchanged. *)
Theorem upsertPrice_never_duplicates (rows : list RecipeStorePrice)
    (recipeId storeId : jsstr) (r : PairResult) :
  List.length (rowsWithKey recipeId storeId (weekOf env)
                 (upsertPrice env rows recipeId storeId r))
  = Nat.max 1 (List.length (rowsWithKey recipeId storeId (weekOf env) rows))
  /\ forall recipeId' storeId' week',
       (recipeId', storeId', week') <> (recipeId, storeId, weekOf env) ->
       List.length (rowsWithKey recipeId' storeId' week'
                      (upsertPrice env rows recipeId storeId r))
       = List.length (rowsWithKey recipeId' storeId' week' rows).
Proof.
  unfold upsertPrice, rowsWithKey.
  destruct (find _ rows) as [existing|] eqn:Efind.
  - split.
    + rewrite filter_map_same_length.
      * apply find_some_filter in Efind. lia.
      * intro row. now destruct (rsp_id row =? rsp_id existing)%Z.
    + intros recipeId' storeId' week' _. apply filter_map_same_length.
      intro row. now destruct (rsp_id row =? rsp_id existing)%Z.
  - split.
    + rewrite filter_app, length_app. rewrite (find_none_filter _ _ Efind).
      simpl. now rewrite !str_eqb_refl.
    + intros recipeId' storeId' week' Hne.
      rewrite filter_app, length_app. simpl.
      destruct (str_eqb recipeId recipeId' && str_eqb storeId storeId'
                && str_eqb (weekOf env) week') eqn:E; [|simpl; lia].
      apply andb_true_iff in E. destruct E as [E E3].
      apply andb_true_iff in E. destruct E as [E1 E2].
      apply str_eqb_eq in E1, E2, E3. subst. now elim Hne.
Qed.

Lemma minCompleteCost_fold_bound (rows : list RecipeStorePrice) (recipeId : jsstr) :
  forall acc m,
    fold_left
      (fun m row =>
         if countsForRollup recipeId row
         then match m with
              | None => Some (rsp_totalCost row)
              | Some c => Some (Math_min c (rsp_totalCost row))
              end
         else m) rows acc = Some m ->
    (forall c, acc = Some c -> m <= c)
    /\ (forall row, In row rows -> countsForRollup recipeId row = true ->
                    m <= rsp_totalCost row).
Proof.
  induction rows as [|r rows IH]; intros acc m Hfold; simpl in Hfold.
  - subst acc. split; [|intros row []]. intros c Hc. injection Hc as <-. apply Qle_refl.
  - apply IH in Hfold. destruct Hfold as [Hacc Hrows].
    assert (Hmin : forall a b, Math_min a b <= a /\ Math_min a b <= b).
    { intros a b. unfold Math_min. destruct (Qle_bool a b) eqn:E.
      - split; [apply Qle_refl|now apply Qle_bool_iff].
      - split; [|apply Qle_refl].
        apply Qlt_le_weak. apply Qnot_le_lt. intro H. apply Qle_bool_iff in H. congruence. }
    split.
    + intros c ->. destruct (countsForRollup recipeId r).
      * eapply Qle_trans; [apply Hacc; reflexivity|apply Hmin].
      * now apply Hacc.
    + intros row [<-|Hin] Hcounts; [|now apply Hrows].
      rewrite Hcounts in Hacc. destruct acc as [c|].
      * eapply Qle_trans; [apply Hacc; reflexivity|apply Hmin].
      * apply Hacc. reflexivity.
Qed.

Lemma minCompleteCost_fold_attained (rows : list RecipeStorePrice) (recipeId : jsstr) :
  forall acc m,
    fold_left
      (fun m row =>
         if countsForRollup recipeId row
         then match m with
              | None => Some (rsp_totalCost row)
              | Some c => Some (Math_min c (rsp_totalCost row))
              end
         else m) rows acc = Some m ->
    acc = Some m
    \/ exists row, In row rows /\ countsForRollup recipeId row = true
                   /\ rsp_totalCost row = m.
Proof.
  induction rows as [|x rows IH]; intros acc m Hfold; simpl in Hfold; [now left|].
  apply IH in Hfold. destruct Hfold as [Hacc|[row [Hrow Hrest]]].
  - destruct (countsForRollup recipeId x) eqn:Ex; [|now left].
    destruct acc as [c|].
    + injection Hacc as Hmin. unfold Math_min in Hmin.
      destruct (Qle_bool c (rsp_totalCost x)).
      * left. now subst.
      * right. exists x. simpl. auto.
    + injection Hacc as Hcost. right. exists x. simpl. auto.
  - right. exists row. simpl. tauto.
Qed.

Lemma minCompleteCost_none (rows : list RecipeStorePrice) (recipeId : jsstr) :
  minCompleteCost rows recipeId = None ->
  forall row, In row rows -> countsForRollup recipeId row = false.
Proof.
  unfold minCompleteCost. fold (countsForRollup recipeId).
  assert (H : forall acc,
             fold_left
               (fun m row =>
                  if str_eqb (rsp_recipeId row) recipeId && Qgtb (rsp_totalCost row) 0
                     && rsp_isComplete row
                  then match m with
                       | None => Some (rsp_totalCost row)
                       | Some c => Some (Math_min c (rsp_totalCost row))
                       end
                  else m) rows acc = None ->
             acc = None
             /\ forall row, In row rows -> countsForRollup recipeId row = false).
  { induction rows as [|r rows IH]; intros acc Hfold; simpl in Hfold.
    - split; [exact Hfold|intros row []].
    - apply IH in Hfold. destruct Hfold as [Hacc Hrows].
      fold (countsForRollup recipeId r) in Hacc.
      destruct (countsForRollup recipeId r) eqn:E.
      + destruct acc; discriminate.
      + split; [exact Hacc|]. intros row [<-|Hin]; [exact E|now apply Hrows]. }
  intros Hnone. now apply (H None).
Qed.

(** X15: the final update gives a recipe the least total cost among its
    complete rows of positive cost, a cost that one of these rows carries,
    and leaves a recipe without such a row exactly as it was; it never
    changes the id or the name of a recipe, nor their order. *)
Theorem rollup_takes_least_complete_cost (d : Database) :
  map recipe_id (tbl_recipes (updateEstimatedPrices d)) = map recipe_id (tbl_recipes d)
  /\ map recipe_name (tbl_recipes (updateEstimatedPrices d))
     = map recipe_name (tbl_recipes d)
  /\ forall r', In r' (tbl_recipes (updateEstimatedPrices d)) ->
       (In r' (tbl_recipes d)
        /\ forall row, In row (tbl_recipeStorePrices d) ->
                       countsForRollup (recipe_id r') row = false)
       \/ exists m row,
            estimatedPrice r' = Some m
            /\ In row (tbl_recipeStorePrices d)
            /\ countsForRollup (recipe_id r') row = true
            /\ rsp_totalCost row = m
            /\ forall other, In other (tbl_recipeStorePrices d) ->
                 countsForRollup (recipe_id r') other = true -> m <= rsp_totalCost other.
Proof.
  unfold updateEstimatedPrices. cbn [tbl_recipes set_recipes]. rewrite !map_map.
  split; [|split].
  - apply map_ext. intro r. now destruct (minCompleteCost _ _).
  - apply map_ext. intro r. now destruct (minCompleteCost _ _).
  - intros r' Hin. apply in_map_iff in Hin. destruct Hin as [r [Hr' Hr]].
    cbn [tbl_recipeStorePrices] in *.
    destruct (minCompleteCost (tbl_recipeStorePrices d) (recipe_id r)) as [m|] eqn:Emin.
    + right. subst r'. cbn [estimatedPrice recipe_id].
      pose proof Emin as Hbound. unfold minCompleteCost in Hbound.
      apply (minCompleteCost_fold_bound _ (recipe_id r) None m) in Hbound.
      destruct Hbound as [_ Hbound].
      assert (Hatt : exists row, In row (tbl_recipeStorePrices d)
                                 /\ countsForRollup (recipe_id r) row = true
                                 /\ rsp_totalCost row = m).
      { destruct (minCompleteCost_fold_attained _ _ _ _ Emin) as [Hacc|Hrow];
          [discriminate|exact Hrow]. }
      destruct Hatt as [row [Hrow [Hcounts Hcost]]].
      exists m, row. repeat split; trivial.
    + left. subst r'. split; [exact Hr|].
      now apply minCompleteCost_none.
Qed.

End TableFacts.

(** ** The lock and the cache of equivalences *)

Section LockFacts.

Variable regexpTest : jsstr -> jsstr -> completion bool.
Variable ADONIS PROVIGO : jsstr.
Variable env : Environment.

(** X16: a lock held for more than [MAX_CALCULATION_TIME_MS] does not
    block a call: the call behaves exactly as if the lock had been reset by
    hand with [forceResetCalculationFlag] just before. *)
Theorem stuck_lock_is_reset_automatically (w : World) (startTime : Z) :
  isCalculating w = true ->
  calculationStartTime w = Some startTime ->
  startTime <> 0%Z ->
  (MAX_CALCULATION_TIME_MS < now_atEntry env - startTime)%Z ->
  runRecipePriceCalculation regexpTest ADONIS PROVIGO env w
  = runRecipePriceCalculation regexpTest ADONIS PROVIGO env (forceResetCalculationFlag w).
Proof.
  intros Hlock Hstart Hnonzero Hold.
  unfold runRecipePriceCalculation.
  assert (H1 : autoReset env w = forceResetCalculationFlag w).
  { unfold autoReset. rewrite Hlock, Hstart.
    apply Z.eqb_neq in Hnonzero. rewrite Hnonzero.
    apply Z.ltb_lt in Hold. now rewrite Hold. }
  assert (H2 : autoReset env (forceResetCalculationFlag w) = forceResetCalculationFlag w)
    by reflexivity.
  now rewrite H1, H2.
Qed.

End LockFacts.

Section CacheFacts.

Variable env : Environment.

Lemma cache_set_keys (cache : EquivalenceCache) (key : jsstr) (value : Equivalence) :
  NoDup (map fst cache) -> NoDup (map fst (cache_set cache key value)).
Proof.
  intro Hnd.
  assert (Hkeys : forall k, In k (map fst (cache_set cache key value)) ->
                            k = key \/ In k (map fst cache)).
  { induction cache as [|[k0 v0] cache IH]; simpl.
    - intros k [<-|[]]. now left.
    - destruct (str_eqb k0 key) eqn:E; simpl.
      + intros k Hk. now right.
      + inversion Hnd; subst. intros k [<-|Hk]; [right; now left|].
        destruct (IH H2 k Hk); [now left|right; now right]. }
  revert Hkeys. induction cache as [|[k0 v0] cache IH]; simpl; intro Hkeys.
  - constructor; [intros []|constructor].
  - inversion Hnd; subst. destruct (str_eqb k0 key) eqn:E; simpl.
    + exact Hnd.
    + constructor.
      * intro Hin.
        assert (Hin' : key = k0 \/ In k0 (map fst cache)).
        { clear - Hin E. induction cache as [|[k1 v1] cache IH]; simpl in Hin.
          - destruct Hin as [<-|[]]. now left.
          - destruct (str_eqb k1 key); simpl in Hin.
            + now right.
            + destruct Hin as [<-|Hin]; [right; now left|].
              destruct (IH Hin); [now left|right; now right]. }
        destruct Hin' as [<-|Hin']; [rewrite str_eqb_refl in E; discriminate|].
        contradiction.
      * apply IH; [exact H2|].
        clear. induction cache as [|[k1 v1] cache IH]; simpl.
        -- intros k [<-|[]]. now left.
        -- destruct (str_eqb k1 key); simpl.
           ++ intros k Hk. now right.
           ++ intros k [<-|Hk]; [right; now left|].
              destruct (IH k Hk); [now left|right; now right].
Qed.

Lemma cache_set_entries (cache : EquivalenceCache) (key : jsstr) (value : Equivalence) :
  (forall entry, In entry (cache_set cache key value) ->
                 entry = (key, value) \/ In entry cache)
  /\ In key (map fst (cache_set cache key value))
  /\ (forall k, In k (map fst cache) -> In k (map fst (cache_set cache key value))).
Proof.
  induction cache as [|[k0 v0] cache [IH1 [IH2 IH3]]]; simpl.
  - split; [|split].
    + intros entry [<-|[]]. now left.
    + now left.
    + intros k [].
  - destruct (str_eqb k0 key) eqn:E; simpl.
    + apply str_eqb_eq in E. subst k0. split; [|split].
      * intros entry [<-|H]; [now left|right; now right].
      * now left.
      * intros k Hk. exact Hk.
    + split; [|split].
      * intros entry [<-|H]; [right; now left|].
        destruct (IH1 entry H); [now left|right; now right].
      * now right.
      * intros k [<-|Hk]; [now left|right; now apply IH3].
Qed.

Lemma cacheStep_invariant (rows : list (jsstr * option Q * jsstr)) :
  forall cache,
    NoDup (map fst cache) ->
    let cache' := fold_left cacheStep rows cache in
    NoDup (map fst cache')
    /\ (forall entry, In entry cache' ->
          In entry cache
          \/ exists name,
               In (name, Some (toQuantity (snd entry)), toUnit (snd entry)) rows
               /\ fst entry = normalizeText name
               /\ isEmpty (toUnit (snd entry)) = false)
    /\ (forall k, In k (map fst cache) -> In k (map fst cache'))
    /\ (forall row, In row rows -> isUsableEquivalence row = true ->
          In (normalizeText (fst (fst row))) (map fst cache')).
Proof.
  induction rows as [|[[name quantity] unit] rows IH]; intros cache Hnd; simpl.
  - repeat split; auto. intros row [].
  - set (step := cacheStep cache (name, quantity, unit)).
    assert (Hstep : NoDup (map fst step)
                    /\ (forall entry, In entry step ->
                          In entry cache
                          \/ (quantity = Some (toQuantity (snd entry))
                              /\ unit = toUnit (snd entry)
                              /\ fst entry = normalizeText name
                              /\ isEmpty unit = false))
                    /\ (forall k, In k (map fst cache) -> In k (map fst step))
                    /\ (isUsableEquivalence (name, quantity, unit) = true ->
                        In (normalizeText name) (map fst step))).
    { unfold step, cacheStep, isUsableEquivalence.
      destruct quantity as [q|]; [|repeat split; auto; discriminate].
      destruct (isEmpty unit) eqn:E; [repeat split; auto; discriminate|].
      destruct (cache_set_entries cache (normalizeText name) (mkEquivalence q unit))
        as [H1 [H2 H3]].
      split; [now apply cache_set_keys|]. split; [|split; [exact H3|intros _; exact H2]].
      intros entry Hentry. destruct (H1 entry Hentry) as [->|Hold]; [right|now left].
      simpl. auto. }
    destruct Hstep as [Hnd' [Hentries [Hkeys Hthis]]].
    destruct (IH step Hnd') as [G1 [G2 [G3 G4]]].
    split; [exact G1|]. split; [|split].
    + intros entry Hentry. destruct (G2 entry Hentry) as [Hin|[n [Hrow Hrest]]].
      * destruct (Hentries entry Hin) as [Hold|[Hq [Hu [Hk He]]]]; [now left|right].
        exists name. split; [left; now rewrite Hq, Hu|]. split; [exact Hk|].
        now rewrite <- Hu.
      * right. exists n. split; [now right|exact Hrest].
    + intros k Hk. apply G3. now apply Hkeys.
    + intros row [<-|Hrow] Husable.
      * apply G3. now apply Hthis.
      * now apply G4.
Qed.

Lemma cache_set_others (cache : EquivalenceCache) (key : jsstr) (value : Equivalence) :
  NoDup (map fst cache) ->
  forall entry, In entry (cache_set cache key value) ->
                entry = (key, value) \/ (In entry cache /\ fst entry <> key).
Proof.
  induction cache as [|[k0 v0] cache IH]; simpl; intros Hnd entry Hentry.
  - destruct Hentry as [<-|[]]. now left.
  - inversion Hnd as [|x l Hnotin Hnd']; subst.
    destruct (str_eqb k0 key) eqn:E; simpl in Hentry.
    + apply str_eqb_eq in E. subst k0.
      destruct Hentry as [<-|Hin]; [now left|right].
      split; [now right|]. intro Heq. apply Hnotin. rewrite <- Heq. now apply in_map.
    + destruct Hentry as [<-|Hin].
      * right. split; [now left|]. simpl. intro Heq. subst k0.
        rewrite str_eqb_refl in E. discriminate.
      * destruct (IH Hnd' entry Hin) as [->|[Hold Hkey]]; [now left|right].
        split; [now right|exact Hkey].
Qed.

Lemma cacheStep_keys (cache : EquivalenceCache) (row : jsstr * option Q * jsstr) :
  NoDup (map fst cache) -> NoDup (map fst (cacheStep cache row)).
Proof.
  intro Hnd. destruct row as [[name quantity] unit]. unfold cacheStep.
  destruct quantity as [q|]; [|exact Hnd].
  destruct (isEmpty unit); [exact Hnd|]. now apply cache_set_keys.
Qed.

Lemma cacheStep_last (rows : list (jsstr * option Q * jsstr)) :
  forall cache,
    NoDup (map fst cache) ->
    forall entry,
      In entry (fold_left cacheStep rows cache) ->
      (In entry cache
       /\ forall row, In row rows -> isUsableEquivalence row = true ->
                      normalizeText (fst (fst row)) <> fst entry)
      \/ lastUsableRow rows entry.
Proof.
  induction rows as [|row rows IH]; intros cache Hnd entry Hentry.
  - left. split; [exact Hentry|intros row []].
  - cbn [fold_left] in Hentry.
    destruct (IH (cacheStep cache row) (cacheStep_keys cache row Hnd) entry Hentry)
      as [[Hin Hlater]|Hlast].
    + destruct row as [[name quantity] unit]. unfold cacheStep in Hin.
      destruct quantity as [q|].
      * destruct (isEmpty unit) eqn:Eunit.
        -- left. split; [exact Hin|]. intros row [<-|Hrow] Husable.
           ++ unfold isUsableEquivalence in Husable. rewrite Eunit in Husable.
              discriminate.
           ++ now apply Hlater.
        -- destruct (cache_set_others cache (normalizeText name) (mkEquivalence q unit)
                       Hnd entry Hin) as [->|[Hold Hkey]].
           ++ right. exists [], name, q, unit, rows. repeat split; trivial.
           ++ left. split; [exact Hold|]. intros row [<-|Hrow] Husable.
              ** cbn [fst]. intro Heq. apply Hkey. now symmetry.
              ** now apply Hlater.
      * left. split; [exact Hin|]. intros row [<-|Hrow] Husable.
        -- discriminate.
        -- now apply Hlater.
    + right. destruct Hlast as [before [name [q [unit [after [Hrows Hrest]]]]]].
      exists (row :: before), name, q, unit, after. split; [|exact Hrest].
      now rewrite Hrows.
Qed.

(** X17: [loadIngredientEquivalences] never touches the database or the
    lock.  It leaves the cache and the time of the last load as they are
    when the cache is not empty and less than five minutes old, and when
    the query fails.  In every other call, that is when the cache is empty
    or at least five minutes old and the query succeeds, it records the
    time of the load and rebuilds the cache from the rows of the query:
    the keys are distinct, every row with a quantity and a non-empty unit
    has the normalized name of its ingredient among the keys, and the
    entry under a key holds the quantity and the unit of the last such row
    of that key. *)
Theorem loadIngredientEquivalences_outcome (w : World) :
  let w' := loadIngredientEquivalences env w in
  db w' = db w /\ isCalculating w' = isCalculating w
  /\ calculationStartTime w' = calculationStartTime w
  /\ ((now_atCacheLoad env - lastEquivalenceCacheLoad w < EQUIVALENCE_CACHE_TTL)%Z ->
      equivalenceCache w <> [] -> w' = w)
  /\ (fails_equivalences env <> None -> w' = w)
  /\ ((EQUIVALENCE_CACHE_TTL <= now_atCacheLoad env - lastEquivalenceCacheLoad w)%Z
      \/ equivalenceCache w = [] ->
      fails_equivalences env = None ->
      lastEquivalenceCacheLoad w' = now_atCacheLoad env
      /\ NoDup (map fst (equivalenceCache w'))
      /\ (forall entry, In entry (equivalenceCache w') ->
            lastUsableRow (selectEquivalences (db w)) entry)
      /\ (forall row, In row (selectEquivalences (db w)) ->
            isUsableEquivalence row = true ->
            In (normalizeText (fst (fst row))) (map fst (equivalenceCache w')))).
Proof.
  unfold loadIngredientEquivalences.
  destruct (cacheStep_invariant (selectEquivalences (db w)) [] (NoDup_nil _))
    as [G1 [_ [_ G4]]].
  assert (Hrebuilt : forall entry,
             In entry (fold_left cacheStep (selectEquivalences (db w)) []) ->
             lastUsableRow (selectEquivalences (db w)) entry).
  { intros entry Hentry.
    destruct (cacheStep_last (selectEquivalences (db w)) [] (NoDup_nil _) entry Hentry)
      as [[[] _]|H].
    exact H. }
  destruct ((now_atCacheLoad env - lastEquivalenceCacheLoad w <? EQUIVALENCE_CACHE_TTL)%Z)
    eqn:Ettl; cbn [andb];
    [destruct (equivalenceCache w) as [|entry0 cache0] eqn:Ecache;
     cbn [List.length Nat.ltb Nat.leb]|];
    try destruct (fails_equivalences env) as [e|] eqn:Efail;
    cbn [db isCalculating calculationStartTime lastEquivalenceCacheLoad equivalenceCache];
    repeat split; auto;
    try discriminate;
    try (intros _ Hne; now elim Hne);
    try (intro Hne; now elim Hne);
    try (apply Z.ltb_ge in Ettl; intros; lia);
    try (exfalso; apply Z.ltb_lt in Ettl;
         match goal with
         | Hstale : (_ <= _)%Z \/ _ = [] |- _ =>
             destruct Hstale as [Hstale|Hstale]; [lia|discriminate]
         end).
Qed.

End CacheFacts.

(** ** What a run writes *)

Section WritesFacts.

Variable regexpTest : jsstr -> jsstr -> completion bool.
Variable ADONIS PROVIGO : jsstr.
Variable env : Environment.

Lemma extendsTable_refl (rows : list RecipeStorePrice) : extendsTable rows rows.
Proof. exists []. now rewrite app_nil_r. Qed.

Lemma extendsTable_trans (a b c : list RecipeStorePrice) :
  extendsTable a b -> extendsTable b c -> extendsTable a c.
Proof.
  intros [x Hx] [y Hy]. exists (x ++ y). now rewrite Hy, Hx, app_assoc.
Qed.

Lemma upsertPrice_extends (rows : list RecipeStorePrice) (recipeId storeId : jsstr)
    (r : PairResult) :
  extendsTable rows (upsertPrice env rows recipeId storeId r).
Proof.
  unfold upsertPrice. destruct (find _ rows) as [existing|].
  - exists []. rewrite app_nil_r, map_map. apply map_ext.
    intro row. now destruct (rsp_id row =? rsp_id existing)%Z.
  - eexists. rewrite map_app. reflexivity.
Qed.

Lemma onlyPricesChange_refl (d : Database) : onlyPricesChange d d.
Proof. repeat split. apply extendsTable_refl. Qed.

Lemma onlyPricesChange_trans (a b c : Database) :
  onlyPricesChange a b -> onlyPricesChange b c -> onlyPricesChange a c.
Proof.
  intros [H1 [H2 [H3 H4]]] [G1 [G2 [G3 G4]]].
  split; [congruence|]. split; [congruence|]. split; [congruence|].
  eapply extendsTable_trans; eassumption.
Qed.

Lemma recipeLoop_only_prices cache allIngredients allRecipeIngredients store storeData
    (recipes : list Recipe) :
  forall st,
    onlyPricesChange (run_db st)
      (run_db (recipeLoop regexpTest env cache allIngredients allRecipeIngredients
                 store storeData recipes st)).
Proof.
  induction recipes as [|recipe recipes IH]; intro st; cbn [recipeLoop].
  - apply onlyPricesChange_refl.
  - eapply onlyPricesChange_trans; [|apply IH].
    destruct (processPair regexpTest env cache allIngredients allRecipeIngredients
                store storeData recipe (tbl_recipeStorePrices (run_db st)))
      as [rows|e] eqn:E; cbn [run_db]; [|apply onlyPricesChange_refl].
    unfold processPair in E.
    destruct (priceRecipeAtStore _ _ _ _ _ _) as [r|]; [|discriminate].
    cbn [bind] in E.
    destruct (fails_priceRow env (recipe_id recipe) (store_id store)); [discriminate|].
    injection E as <-.
    repeat split. cbn [tbl_recipeStorePrices set_recipeStorePrices].
    apply upsertPrice_extends.
Qed.

Lemma storeLoop_only_prices cache allRecipes allIngredients allRecipeIngredients
    (allStores : list Store) :
  forall st,
    onlyPricesChange (run_db st)
      (run_db (fst (storeLoop regexpTest env cache allRecipes allIngredients
                      allRecipeIngredients allStores st))).
Proof.
  induction allStores as [|store rest IH]; intro st; cbn [storeLoop].
  - apply onlyPricesChange_refl.
  - destruct (fails_storeCatalog env (store_id store)); [apply onlyPricesChange_refl|].
    eapply onlyPricesChange_trans; [|apply IH]. cbn [run_db].
    apply recipeLoop_only_prices.
Qed.

Lemma updateEstimatedPrices_only_prices (d : Database) :
  onlyPricesChange d (updateEstimatedPrices d).
Proof.
  unfold onlyPricesChange, updateEstimatedPrices.
  cbn [tbl_recipes tbl_recipeStorePrices set_recipes]. rewrite !map_map.
  split; [reflexivity|]. split; [|split; [|apply extendsTable_refl]];
    apply map_ext; intro r; now destruct (minCompleteCost _ _).
Qed.

Lemma runBody_only_prices cache (d : Database) :
  onlyPricesChange d (run_db (fst (runBody regexpTest ADONIS PROVIGO env cache d))).
Proof.
  unfold runBody. destruct (fails_baseCatalogs env); [apply onlyPricesChange_refl|].
  pose proof (storeLoop_only_prices cache (tbl_recipes d) (tbl_ingredients d)
                (tbl_recipeIngredients d)
                (removeExcludedStores ADONIS PROVIGO (tbl_stores d))
                (mkRunState d [] 0 0)) as Hloop.
  destruct (storeLoop _ _ _ _ _ _ _ _) as [st [e|]]; cbn [fst run_db] in *;
    [exact Hloop|].
  destruct (fails_rollup env); cbn [fst run_db]; [exact Hloop|].
  eapply onlyPricesChange_trans; [exact Hloop|apply updateEstimatedPrices_only_prices].
Qed.

(** X18: whatever happens in a call to [runRecipePriceCalculation], the
    tables of stores, ingredients, recipe lines, unified prices,
    promotions, reference prices and equivalences are left as they were,
    the recipes keep their ids, names and order, and no price row is
    removed: every row keeps its id, recipe, store and week, and new rows
    come after the old ones. *)
Theorem run_only_writes_prices (w : World) :
  onlyPricesChange (db w)
    (db (snd (runRecipePriceCalculation regexpTest ADONIS PROVIGO env w))).
Proof.
  unfold runRecipePriceCalculation.
  assert (Hreset : db (autoReset env w) = db w) by apply autoReset_db.
  destruct (isCalculating (autoReset env w)).
  - cbn [snd]. rewrite Hreset. apply onlyPricesChange_refl.
  - set (w1 := loadIngredientEquivalences env _).
    assert (Hdb : db w1 = db w).
    { unfold w1. rewrite loadIngredientEquivalences_db. cbn [db acquireLock]. exact Hreset. }
    pose proof (runBody_only_prices (equivalenceCache w1) (db w1)) as Hbody.
    destruct (runBody regexpTest ADONIS PROVIGO env (equivalenceCache w1) (db w1))
      as [st fatal].
    cbn [fst snd db] in *. now rewrite Hdb in Hbody.
Qed.

End WritesFacts.

(** ** The preview *)

Section PreviewResults.
Local Open Scope Q_scope.

Import Preview.

Lemma calculateIngredient_alone (prices : list PriceEntry) (line : RecipeLine)
    (total : num) (valid : bool) (done : list CalculatedIngredient) :
  exists total',
    calculateIngredient prices (total, valid, done) line
    = (total', valid && hasAvailablePrice prices line,
       done ++ [calculatedFor prices line]).
Proof.
  unfold calculateIngredient, calculatedFor, hasAvailablePrice.
  destruct (availablePricesFor prices line) as [|p available].
  - exists total. now rewrite andb_false_r.
  - destruct (fold_left (bestDealStep line) (p :: available) (PosInf, None))
      as [bestPrice deal].
    exists (num_add total bestPrice). now rewrite andb_true_r.
Qed.

Lemma calculateIngredient_fold (prices : list PriceEntry) (lines : list RecipeLine) :
  forall total valid done,
    exists total',
      fold_left (calculateIngredient prices) lines (total, valid, done)
      = (total', valid && forallb (hasAvailablePrice prices) lines,
         done ++ map (calculatedFor prices) lines).
Proof.
  induction lines as [|line lines IH]; intros total valid done.
  - exists total. cbn. now rewrite andb_true_r, app_nil_r.
  - cbn [fold_left map forallb].
    destruct (calculateIngredient_alone prices line total valid done) as [t1 H1].
    rewrite H1.
    destruct (IH t1 (valid && hasAvailablePrice prices line)
                (done ++ [calculatedFor prices line])) as [total' H].
    exists total'. rewrite H, <- app_assoc, andb_assoc. reflexivity.
Qed.

Lemma Forall2_map_r {A B} (P : A -> B -> Prop) (f : A -> B) (l : list A) :
  (forall a, In a l -> P a (f a)) -> Forall2 P l (map f l).
Proof.
  induction l as [|a l IH]; intro H; cbn; constructor.
  - apply H. now left.
  - apply IH. intros b Hb. apply H. now right.
Qed.

(** X19: the preview answers one result per recipe, in order and under
    its name; the result lists the lines of the recipe in order, a line
    without an entry at an allowed store carries the error message and no
    deal, every other line carries no error, and the total of a recipe
    with such a line is 0. *)
Theorem preview_reports_every_line (recipes : list PreviewRecipe)
    (prices : list PriceEntry) :
  Forall2
    (fun recipe result =>
       recipeName result = pv_name recipe
       /\ Forall2
            (fun line answer =>
               ci_line answer = line
               /\ (availablePricesFor prices line = [] ->
                   ci_error answer = Some notAvailable /\ bestDeal answer = None)
               /\ (availablePricesFor prices line <> [] -> ci_error answer = None))
            (pv_ingredients recipe) (ingredients result)
       /\ ((exists line, In line (pv_ingredients recipe)
                         /\ availablePricesFor prices line = []) ->
           totalPrice result = Fin 0))
    recipes (calculate recipes prices).
Proof.
  unfold calculate. apply Forall2_map_r. intros recipe _.
  destruct (calculateIngredient_fold prices (pv_ingredients recipe) (Fin 0) true [])
    as [total' H].
  rewrite H. cbn [recipeName ingredients totalPrice app andb].
  split; [reflexivity|]. split.
  - apply Forall2_map_r. intros line _. unfold calculatedFor.
    destruct (availablePricesFor prices line) as [|p available]; cbn.
    + repeat split; trivial. intro C. now contradiction C.
    + repeat split; trivial; discriminate.
  - intros [line [Hin Hnone]].
    assert (F : forallb (hasAvailablePrice prices) (pv_ingredients recipe) = false).
    { apply not_true_is_false. intro C. rewrite forallb_forall in C.
      specialize (C line Hin). unfold hasAvailablePrice in C.
      now rewrite Hnone in C. }
    now rewrite F.
Qed.

Lemma bestDealStep_cheapest (line : RecipeLine) (seen : list PriceEntry)
    (acc : num * option BestDeal) (p : PriceEntry) (c : Q) :
  costForRecipe line p = Fin c ->
  cheapestSoFar line seen acc ->
  cheapestSoFar line (seen ++ [p]) (bestDealStep line acc p).
Proof.
  intros Hc Inv. right. unfold bestDealStep.
  destruct acc as [bestPrice deal].
  change (num_mul (num_div (pe_price p)
            (getStandardQuantityInGrams (pe_quantity p) (pe_unit p)))
            (getStandardQuantityInGrams (line_quantity line) (line_unit line)))
    with (costForRecipe line p).
  rewrite Hc.
  destruct Inv as [[-> Hacc] | [p0 [c0 [Hin [Hc0 [Hacc Hmin]]]]]];
    injection Hacc as -> ->.
  - cbn [num_ltb]. exists p, c. repeat split; trivial.
    + now left.
    + intros q cq [<-|[]] Hq. rewrite Hc in Hq. injection Hq as <-. apply Qle_refl.
  - cbn [num_ltb]. destruct (Qltb c c0) eqn:L.
    + apply Qltb_lt in L. exists p, c. repeat split; trivial.
      * apply in_or_app. right. now left.
      * intros q cq Hq Hcq. apply in_app_or in Hq. destruct Hq as [Hq|[<-|[]]].
        -- apply Qle_trans with c0; [now apply Qlt_le_weak | now apply (Hmin q)].
        -- rewrite Hc in Hcq. injection Hcq as <-. apply Qle_refl.
    + apply Qltb_false_le in L. exists p0, c0. repeat split; trivial.
      * apply in_or_app. now left.
      * intros q cq Hq Hcq. apply in_app_or in Hq. destruct Hq as [Hq|[<-|[]]].
        -- now apply (Hmin q).
        -- rewrite Hc in Hcq. injection Hcq as <-. exact L.
Qed.

Lemma bestDeal_fold_cheapest (line : RecipeLine) (l : list PriceEntry) :
  forall seen acc,
    (forall p, In p l -> exists c, costForRecipe line p = Fin c) ->
    cheapestSoFar line seen acc ->
    cheapestSoFar line (seen ++ l) (fold_left (bestDealStep line) l acc).
Proof.
  induction l as [|p l IH]; intros seen acc Hfin Inv.
  - cbn. now rewrite app_nil_r.
  - cbn [fold_left]. replace (seen ++ p :: l) with ((seen ++ [p]) ++ l)
      by now rewrite <- app_assoc.
    apply IH.
    + intros q Hq. apply Hfin. now right.
    + destruct (Hfin p (or_introl eq_refl)) as [c Hc].
      now apply bestDealStep_cheapest with c.
Qed.

(** X20: when a line has entries at allowed stores and each of them gives
    a finite cost for the quantity of the recipe, the callback of the
    preview records no error and the deal of an entry whose cost is the
    least of all the available entries, and adds that cost to the total of
    the recipe. *)
Theorem preview_best_deal_is_cheapest (prices : list PriceEntry) (line : RecipeLine)
    (total : num) (valid : bool) (done : list CalculatedIngredient) :
  availablePricesFor prices line <> [] ->
  (forall p, In p (availablePricesFor prices line) ->
             exists c, costForRecipe line p = Fin c) ->
  exists p c,
    In p (availablePricesFor prices line)
    /\ costForRecipe line p = Fin c
    /\ (forall q cq, In q (availablePricesFor prices line) ->
                     costForRecipe line q = Fin cq -> c <= cq)
    /\ calculateIngredient prices (total, valid, done) line
       = (num_add total (Fin c), valid,
          done ++ [mkCalculated line None (Some (dealOf p (Fin c)))]).
Proof.
  intros Hsome Hfin. unfold calculateIngredient.
  pose proof (bestDeal_fold_cheapest line (availablePricesFor prices line) []
                (PosInf, None) Hfin (or_introl (conj eq_refl eq_refl))) as Inv.
  cbn [app] in Inv.
  destruct (availablePricesFor prices line) as [|p0 available] eqn:E;
    [now contradiction Hsome|].
  destruct Inv as [[C _] | [p [c [Hin [Hc [Hacc Hmin]]]]]]; [discriminate|].
  exists p, c. rewrite Hacc. repeat split; trivial.
Qed.

Lemma preview_best_deal_is_cheapest_witness :
  exists p c,
    In p (availablePricesFor previewPrices previewLine)
    /\ costForRecipe previewLine p = Fin c
    /\ (forall q cq, In q (availablePricesFor previewPrices previewLine) ->
                     costForRecipe previewLine q = Fin cq -> c <= cq)
    /\ calculateIngredient previewPrices (Fin 0, true, []) previewLine
       = (num_add (Fin 0) (Fin c), true,
          [] ++ [mkCalculated previewLine None (Some (dealOf p (Fin c)))]).
Proof.
  apply (preview_best_deal_is_cheapest previewPrices previewLine (Fin 0) true []).
  - vm_compute. discriminate.
  - intros p Hp. vm_compute in Hp.
    destruct Hp as [<-|[<-|[]]]; eexists; vm_compute; reflexivity.
Defined.

End PreviewResults.

(** ** The normalization of names *)

Section NormalizeTextFacts.

Lemma normalizeText_flat_map (text : jsstr) :
  normalizeText text = flat_map normalizeChar text.
Proof.
  unfold normalizeText, toLowerCase.
  induction text as [|c text IH]; [reflexivity|].
  cbn [map flat_map]. rewrite filter_app, IH. reflexivity.
Qed.

Lemma settledChar_latin1 :
  forallb settledChar (map N.of_nat (seq 0 256)) = true.
Proof. vm_compute. reflexivity. Qed.

Lemma normalizeChar_settled (c : N) :
  (c < 256)%N ->
  flat_map normalizeChar (normalizeChar c) = normalizeChar c
  /\ latin1Text (normalizeChar c) = true.
Proof.
  intro Hc.
  assert (H : settledChar c = true).
  { pose proof settledChar_latin1 as F. rewrite forallb_forall in F. apply F.
    apply in_map_iff. exists (N.to_nat c). split; [apply N2Nat.id|].
    apply in_seq. lia. }
  unfold settledChar in H. apply andb_true_iff in H. destruct H as [H1 H2].
  split; [now apply str_eqb_eq|exact H2].
Qed.

Lemma latin1Text_app (a b : jsstr) :
  latin1Text (a ++ b) = latin1Text a && latin1Text b.
Proof. apply forallb_app. Qed.

(** X21: on a text of code units up to U+00FF, [normalizeText] gives a
    text of such code units and is idempotent: a name that was normalized
    is left as it is by a second normalization, so the keys of the tables
    and the names compared by the matcher are in one form. *)
Theorem normalizeText_idempotent (text : jsstr) :
  latin1Text text = true ->
  latin1Text (normalizeText text) = true
  /\ normalizeText (normalizeText text) = normalizeText text.
Proof.
  rewrite !normalizeText_flat_map.
  induction text as [|c text IH]; intro H; [split; reflexivity|].
  cbn [latin1Text forallb] in H. apply andb_true_iff in H. destruct H as [Hc Htext].
  apply N.ltb_lt in Hc. destruct (normalizeChar_settled c Hc) as [Hsettled Hlatin].
  destruct (IH Htext) as [IH1 IH2].
  cbn [flat_map]. split.
  - now rewrite latin1Text_app, Hlatin, IH1.
  - now rewrite flat_map_app, IH2, Hsettled.
Qed.

Lemma normalizeText_idempotent_witness :
  latin1Text (normalizeText (js "Crème Brûlée")) = true
  /\ normalizeText (normalizeText (js "Crème Brûlée")) = normalizeText (js "Crème Brûlée").
Proof.
  apply (normalizeText_idempotent (js "Crème Brûlée")). reflexivity.
Defined.

End NormalizeTextFacts.

(** ** A second run *)

Lemma find_app_some {A : Type} (f : A -> bool) (l l' : list A) (x : A) :
  find f l = Some x -> find f (l ++ l') = Some x.
Proof.
  induction l as [|y l IH]; simpl; [discriminate|].
  destruct (f y); [trivial|exact IH].
Qed.

Lemma find_map_same {A : Type} (p : A -> bool) (f : A -> A) (l : list A) :
  (forall x, p (f x) = p x) -> find p (map f l) = option_map f (find p l).
Proof.
  intro H. induction l as [|y l IH]; simpl; [reflexivity|].
  rewrite H. destruct (p y); [reflexivity|exact IH].
Qed.

Lemma set_recipeStorePrices_same (d : Database) :
  set_recipeStorePrices d (tbl_recipeStorePrices d) = d.
Proof. now destruct d. Qed.

Section ReplayFacts.

Variable regexpTest : jsstr -> jsstr -> completion bool.
Variable ADONIS PROVIGO : jsstr.
Variable env : Environment.

Lemma upsertPrice_unfold (rows : list RecipeStorePrice) (recipeId storeId : jsstr)
    (r : PairResult) :
  upsertPrice env rows recipeId storeId r
  = match find (sameKey env recipeId storeId) rows with
    | Some existingPrice => map (rewritten env recipeId storeId r existingPrice) rows
    | None => rows ++ [rowFor env recipeId storeId r (nextId rows)]
    end.
Proof. reflexivity. Qed.

Lemma sameKey_fields (recipeId storeId : jsstr) (row : RecipeStorePrice) :
  sameKey env recipeId storeId row = true ->
  rsp_recipeId row = recipeId /\ rsp_storeId row = storeId
  /\ rsp_weekOf row = weekOf env.
Proof.
  unfold sameKey. intro H.
  apply andb_true_iff in H. destruct H as [H H3].
  apply andb_true_iff in H. destruct H as [H1 H2].
  now rewrite str_eqb_eq in H1, H2, H3.
Qed.

Lemma sameKey_rewritten (recipeId storeId rid sid : jsstr) (r : PairResult)
    (existingPrice row : RecipeStorePrice) :
  sameKey env recipeId storeId (rewritten env rid sid r existingPrice row)
  = sameKey env recipeId storeId row.
Proof. unfold rewritten. now destruct (rsp_id row =? rsp_id existingPrice)%Z. Qed.

Lemma rewritten_id (rid sid : jsstr) (r : PairResult)
    (existingPrice row : RecipeStorePrice) :
  rsp_id (rewritten env rid sid r existingPrice row) = rsp_id row.
Proof. unfold rewritten. now destruct (rsp_id row =? rsp_id existingPrice)%Z. Qed.

Lemma upsertPrice_distinctIds (rows : list RecipeStorePrice) (recipeId storeId : jsstr)
    (r : PairResult) :
  distinctIds rows -> distinctIds (upsertPrice env rows recipeId storeId r).
Proof.
  unfold distinctIds. intro Hnd. rewrite upsertPrice_unfold.
  destruct (find _ rows) as [existing|].
  - rewrite map_map. erewrite map_ext; [exact Hnd|]. intro row. apply rewritten_id.
  - rewrite map_app. cbn [map rowFor rsp_id].
    apply NoDup_app; [exact Hnd | repeat constructor; intros [] |].
    intros id Hin [<-|[]]. apply in_map_iff in Hin. destruct Hin as [row [Hid Hrow]].
    pose proof (nextId_above rows row Hrow). lia.
Qed.

Lemma upsertPrice_settled_same (rows : list RecipeStorePrice) (recipeId storeId : jsstr)
    (r : PairResult) :
  distinctIds rows -> settled env recipeId storeId r rows ->
  upsertPrice env rows recipeId storeId r = rows.
Proof.
  intros Hnd [row [Hfind Hrow]]. rewrite upsertPrice_unfold, Hfind.
  rewrite <- (map_id rows) at 2. apply map_ext_in. intros x Hx.
  unfold rewritten. destruct (Z.eqb_spec (rsp_id x) (rsp_id row)) as [Hid|]; trivial.
  apply find_some in Hfind. destruct Hfind as [Hin Hkey].
  assert (x = row) by now apply (NoDup_ids_same rows Hnd).
  subst x. destruct (sameKey_fields _ _ _ Hkey) as [-> [-> ->]]. now symmetry.
Qed.

Lemma upsertPrice_settles (rows : list RecipeStorePrice) (recipeId storeId : jsstr)
    (r : PairResult) :
  settled env recipeId storeId r (upsertPrice env rows recipeId storeId r).
Proof.
  unfold settled. rewrite upsertPrice_unfold.
  destruct (find _ rows) as [existing|] eqn:Efind.
  - rewrite find_map_same by (intro; apply sameKey_rewritten). rewrite Efind.
    cbn [option_map]. eexists. split; [reflexivity|].
    apply find_some in Efind. destruct Efind as [_ Hkey].
    destruct (sameKey_fields _ _ _ Hkey) as [H1 [H2 H3]].
    unfold rewritten. rewrite Z.eqb_refl. cbn [rsp_id]. unfold rowFor.
    now rewrite H1, H2, H3.
  - rewrite (find_app_none _ _ _ Efind). cbn [find].
    assert (K : sameKey env recipeId storeId (rowFor env recipeId storeId r (nextId rows))
                = true).
    { unfold sameKey, rowFor. cbn. now rewrite !str_eqb_refl. }
    rewrite K. eexists. split; reflexivity.
Qed.

Lemma upsertPrice_keeps_settled (rows : list RecipeStorePrice)
    (recipeId storeId rid sid : jsstr) (r r' : PairResult) :
  distinctIds rows ->
  ~ (rid = recipeId /\ sid = storeId) ->
  settled env recipeId storeId r rows ->
  settled env recipeId storeId r (upsertPrice env rows rid sid r').
Proof.
  intros Hnd Hother [row [Hfind Hrow]]. unfold settled. rewrite upsertPrice_unfold.
  destruct (find (sameKey env rid sid) rows) as [existing|] eqn:Efind.
  - rewrite find_map_same by (intro; apply sameKey_rewritten). rewrite Hfind.
    cbn [option_map].
    assert (Hsame : rewritten env rid sid r' existing row = row).
    { unfold rewritten. destruct (Z.eqb_spec (rsp_id row) (rsp_id existing)) as [Hid|];
        trivial.
      apply find_some in Hfind, Efind.
      destruct Hfind as [Hin Hkey], Efind as [Hin' Hkey'].
      assert (row = existing) by now apply (NoDup_ids_same rows Hnd).
      subst existing.
      destruct (sameKey_fields _ _ _ Hkey) as [H1 [H2 _]].
      destruct (sameKey_fields _ _ _ Hkey') as [G1 [G2 _]].
      elim Hother. split; congruence. }
    rewrite Hsame. exists row. now split.
  - exists row. split; [now apply find_app_some | exact Hrow].
Qed.

Section PlanFacts.

Variable cache : EquivalenceCache.
Variable allIngredients : list Ingredient.
Variable allRecipeIngredients : list RecipeIngredient.
Variable catalog : jsstr -> CachedStoreData.

Local Abbreviation outcome :=
  (pairOutcome regexpTest env cache allIngredients allRecipeIngredients catalog).
Local Abbreviation write :=
  (writeRow regexpTest env cache allIngredients allRecipeIngredients catalog).
Local Abbreviation failure :=
  (errorOf regexpTest env cache allIngredients allRecipeIngredients catalog).
Local Abbreviation written :=
  (okOf regexpTest env cache allIngredients allRecipeIngredients catalog).
Local Abbreviation holds :=
  (settledKey regexpTest env cache allIngredients allRecipeIngredients catalog).

Lemma processPair_outcome (store : Store) (recipe : Recipe)
    (rows : list RecipeStorePrice) :
  processPair regexpTest env cache allIngredients allRecipeIngredients store
    (catalog (store_id store)) recipe rows
  = match outcome (store_id store, recipe_id recipe) with
    | Normal r => Normal (upsertPrice env rows (recipe_id recipe) (store_id store) r)
    | Throw e => Throw e
    end.
Proof.
  unfold processPair, pairOutcome.
  change (priceRecipeAtStore regexpTest cache allIngredients allRecipeIngredients
            (mkRecipe (recipe_id recipe) [] None) (catalog (store_id store)))
    with (priceRecipeAtStore regexpTest cache allIngredients allRecipeIngredients
            recipe (catalog (store_id store))).
  destruct (priceRecipeAtStore _ _ _ _ _ _) as [r|e]; cbn [bind]; [|reflexivity].
  now destruct (fails_priceRow env (recipe_id recipe) (store_id store)).
Qed.

Lemma writeRow_cons (key : jsstr * jsstr) (keys : list (jsstr * jsstr))
    (rows : list RecipeStorePrice) :
  fold_left write (key :: keys) rows
  = fold_left write keys
      (match outcome key with
       | Normal r => upsertPrice env rows (snd key) (fst key) r
       | Throw _ => rows
       end).
Proof. reflexivity. Qed.

Lemma errorOf_cons (key : jsstr * jsstr) (keys : list (jsstr * jsstr)) :
  flat_map failure (key :: keys)
  = match outcome key with
    | Normal _ => []
    | Throw e => [pairErrorMessage (snd key) (fst key) e]
    end ++ flat_map failure keys.
Proof. reflexivity. Qed.

Lemma okOf_cons (key : jsstr * jsstr) (keys : list (jsstr * jsstr)) :
  list_sum (map written (key :: keys))
  = (match outcome key with Normal _ => 1 | Throw _ => 0 end
     + list_sum (map written keys))%nat.
Proof. reflexivity. Qed.

Lemma set_recipeStorePrices_twice (d : Database) (rows rows' : list RecipeStorePrice) :
  set_recipeStorePrices (set_recipeStorePrices d rows) rows'
  = set_recipeStorePrices d rows'.
Proof. reflexivity. Qed.

Lemma recipeLoop_plan (store : Store) (recipes : list Recipe) :
  forall st,
    recipeLoop regexpTest env cache allIngredients allRecipeIngredients store
      (catalog (store_id store)) recipes st
    = let keys := keysOf (store_id store) (map recipe_id recipes) in
      mkRunState
        (set_recipeStorePrices (run_db st)
           (fold_left write keys (tbl_recipeStorePrices (run_db st))))
        (run_errors st ++ flat_map failure keys)
        (run_recipesProcessed st)
        (run_storesProcessed st + list_sum (map written keys)).
Proof.
  induction recipes as [|recipe recipes IH]; intro st.
  - cbn. rewrite set_recipeStorePrices_same, app_nil_r, Nat.add_0_r. now destruct st.
  - cbn [recipeLoop]. rewrite processPair_outcome, IH. cbv zeta.
    change (keysOf (store_id store) (map recipe_id (recipe :: recipes)))
      with ((store_id store, recipe_id recipe)
            :: keysOf (store_id store) (map recipe_id recipes)).
    rewrite writeRow_cons, errorOf_cons, okOf_cons. cbn [fst snd].
    destruct (outcome (store_id store, recipe_id recipe)) as [r|e];
      cbn [run_db run_errors run_recipesProcessed run_storesProcessed app].
    + rewrite set_recipeStorePrices_twice. f_equal. lia.
    + rewrite <- app_assoc. reflexivity.
Qed.

Lemma storeLoop_plan (recipes : list Recipe) (allStores : list Store) :
  forall st,
    (forall storeId, loadStoreData env (run_db st) storeId = catalog storeId) ->
    storeLoop regexpTest env cache recipes allIngredients allRecipeIngredients
      allStores st
    = let keys := allKeys env (map recipe_id recipes) allStores in
      (mkRunState
         (set_recipeStorePrices (run_db st)
            (fold_left write keys (tbl_recipeStorePrices (run_db st))))
         (run_errors st ++ flat_map failure keys)
         (match processedStores env allStores with
          | [] => run_recipesProcessed st
          | _ :: _ => List.length recipes
          end)
         (run_storesProcessed st + list_sum (map written keys)),
       firstStoreFailure env allStores).
Proof.
  induction allStores as [|store rest IH]; intros st Hcat.
  - cbn. rewrite set_recipeStorePrices_same, app_nil_r, Nat.add_0_r. now destruct st.
  - cbn [storeLoop processedStores firstStoreFailure]. unfold allKeys.
    cbn [processedStores].
    destruct (fails_storeCatalog env (store_id store)) as [e|].
    + cbn. rewrite set_recipeStorePrices_same, app_nil_r, Nat.add_0_r. now destruct st.
    + rewrite Hcat, recipeLoop_plan. cbv zeta.
      cbn [run_db run_errors run_recipesProcessed run_storesProcessed].
      rewrite IH
        by (intro; cbn [run_db]; rewrite <- Hcat; now destruct (run_db st)).
      cbv zeta.
      cbn [run_db run_errors run_recipesProcessed run_storesProcessed
           tbl_recipeStorePrices set_recipeStorePrices flat_map].
      unfold allKeys.
      rewrite fold_left_app, flat_map_app, map_app, list_sum_app, <- app_assoc,
        Nat.add_assoc.
      f_equal. f_equal. now destruct (processedStores env rest).
Qed.

Lemma writeRow_distinctIds (rows : list RecipeStorePrice) (key : jsstr * jsstr) :
  distinctIds rows -> distinctIds (write rows key).
Proof.
  intro H. unfold writeRow. destruct (outcome key); trivial.
  now apply upsertPrice_distinctIds.
Qed.

Lemma writeRow_settles (rows : list RecipeStorePrice) (key other : jsstr * jsstr) :
  distinctIds rows ->
  other = key \/ holds rows other ->
  holds (write rows key) other.
Proof.
  intros Hnd H. unfold settledKey, writeRow.
  destruct (outcome other) as [r0|e0] eqn:Eother; trivial.
  destruct H as [->|H].
  - rewrite Eother. apply upsertPrice_settles.
  - unfold settledKey in H. rewrite Eother in H.
    destruct (outcome key) as [r|e] eqn:Ekey; trivial.
    destruct (list_eq_dec N.eq_dec (snd key) (snd other)) as [E1|N1];
      [destruct (list_eq_dec N.eq_dec (fst key) (fst other)) as [E2|N2]|].
    + assert (key = other) by (destruct key, other; cbn in *; congruence).
      subst other. rewrite Ekey in Eother. injection Eother as <-.
      apply upsertPrice_settles.
    + apply upsertPrice_keeps_settled; trivial. intros [_ C]. now elim N2.
    + apply upsertPrice_keeps_settled; trivial. intros [C _]. now elim N1.
Qed.

Lemma writeRows_settle (keys : list (jsstr * jsstr)) :
  forall rows,
    distinctIds rows ->
    distinctIds (fold_left write keys rows)
    /\ forall other, In other keys \/ holds rows other ->
                     holds (fold_left write keys rows) other.
Proof.
  induction keys as [|key keys IH]; intros rows Hnd; cbn [fold_left].
  - split; trivial. now intros other [[]|H].
  - destruct (IH (write rows key) (writeRow_distinctIds rows key Hnd)) as [H1 H2].
    split; trivial. intros other H. apply H2.
    destruct H as [[<-|H]|H].
    + right. apply writeRow_settles; trivial. now left.
    + now left.
    + right. apply writeRow_settles; trivial. now right.
Qed.

Lemma writeRows_of_settled (keys : list (jsstr * jsstr)) (rows : list RecipeStorePrice) :
  distinctIds rows ->
  (forall key, In key keys -> holds rows key) ->
  fold_left write keys rows = rows.
Proof.
  intros Hnd. induction keys as [|key keys IH]; intro H; cbn [fold_left]; trivial.
  assert (E : write rows key = rows).
  { specialize (H key (or_introl eq_refl)). unfold settledKey in H. unfold writeRow.
    destruct (outcome key); trivial. now apply upsertPrice_settled_same. }
  rewrite E. apply IH. intros k Hk. apply H. now right.
Qed.

Lemma writeRows_twice (keys : list (jsstr * jsstr)) (rows : list RecipeStorePrice) :
  distinctIds rows ->
  fold_left write keys (fold_left write keys rows) = fold_left write keys rows.
Proof.
  intro Hnd. destruct (writeRows_settle keys rows Hnd) as [H1 H2].
  apply writeRows_of_settled; trivial. intros key Hkey. apply H2. now left.
Qed.

End PlanFacts.

Lemma updateEstimatedPrices_twice (d : Database) :
  updateEstimatedPrices (updateEstimatedPrices d) = updateEstimatedPrices d.
Proof.
  pose (f := fun r =>
               match minCompleteCost (tbl_recipeStorePrices d) (recipe_id r) with
               | Some min_price => mkRecipe (recipe_id r) (recipe_name r) (Some min_price)
               | None => r
               end).
  change (set_recipes d (map f (map f (tbl_recipes d)))
          = set_recipes d (map f (tbl_recipes d))).
  apply f_equal. rewrite map_map. apply map_ext. intro r. unfold f.
  destruct (minCompleteCost (tbl_recipeStorePrices d) (recipe_id r)) as [m|] eqn:E;
    cbn [recipe_id recipe_name]; now rewrite E.
Qed.

Lemma updateEstimatedPrices_ids (d : Database) :
  map recipe_id (tbl_recipes (updateEstimatedPrices d)) = map recipe_id (tbl_recipes d).
Proof.
  unfold updateEstimatedPrices. cbn [tbl_recipes set_recipes]. rewrite map_map.
  apply map_ext. intro r. now destruct (minCompleteCost _ _).
Qed.

Lemma runBody_replay (cache : EquivalenceCache) (d : Database) :
  distinctIds (tbl_recipeStorePrices d) ->
  runBody regexpTest ADONIS PROVIGO env cache
    (run_db (fst (runBody regexpTest ADONIS PROVIGO env cache d)))
  = runBody regexpTest ADONIS PROVIGO env cache d.
Proof.
  intro Hnd. unfold runBody.
  destruct (fails_baseCatalogs env) as [e|] eqn:Ebase; [reflexivity|].
  set (stores := removeExcludedStores ADONIS PROVIGO (tbl_stores d)).
  rewrite (storeLoop_plan cache (tbl_ingredients d) (tbl_recipeIngredients d)
             (loadStoreData env d) (tbl_recipes d) stores (mkRunState d [] 0 0))
    by reflexivity.
  cbv zeta. cbn [run_db run_errors run_recipesProcessed run_storesProcessed app].
  set (keys := allKeys env (map recipe_id (tbl_recipes d)) stores).
  set (write := writeRow regexpTest env cache (tbl_ingredients d) (tbl_recipeIngredients d)
                  (loadStoreData env d)).
  pose proof (writeRows_twice cache (tbl_ingredients d) (tbl_recipeIngredients d)
                (loadStoreData env d) keys (tbl_recipeStorePrices d) Hnd) as Htwice.
  fold write in Htwice.
  set (rowsF := fold_left write keys (tbl_recipeStorePrices d)) in *.
  destruct (firstStoreFailure env stores) as [e|] eqn:Efatal;
    [|destruct (fails_rollup env) as [e|] eqn:Erollup]; cbn [fst run_db].
  - cbn [tbl_recipes tbl_stores tbl_ingredients tbl_recipeIngredients
         set_recipeStorePrices].
    fold stores.
    rewrite (storeLoop_plan cache (tbl_ingredients d) (tbl_recipeIngredients d)
               (loadStoreData env d) (tbl_recipes d) stores) by reflexivity.
    cbv zeta. cbn [run_db run_errors run_recipesProcessed run_storesProcessed app
                   tbl_recipeStorePrices set_recipeStorePrices].
    fold keys. fold write. fold rowsF. rewrite Htwice, Efatal. reflexivity.
  - cbn [tbl_recipes tbl_stores tbl_ingredients tbl_recipeIngredients
         set_recipeStorePrices].
    fold stores.
    rewrite (storeLoop_plan cache (tbl_ingredients d) (tbl_recipeIngredients d)
               (loadStoreData env d) (tbl_recipes d) stores) by reflexivity.
    cbv zeta. cbn [run_db run_errors run_recipesProcessed run_storesProcessed app
                   tbl_recipeStorePrices set_recipeStorePrices].
    fold keys. fold write. fold rowsF. rewrite Htwice, Efatal. reflexivity.
  - set (d1 := set_recipeStorePrices d rowsF).
    assert (Hst : tbl_stores (updateEstimatedPrices d1) = tbl_stores d) by reflexivity.
    assert (Hin : tbl_ingredients (updateEstimatedPrices d1) = tbl_ingredients d)
      by reflexivity.
    assert (Hri : tbl_recipeIngredients (updateEstimatedPrices d1)
                  = tbl_recipeIngredients d) by reflexivity.
    assert (Hrows : tbl_recipeStorePrices (updateEstimatedPrices d1) = rowsF)
      by reflexivity.
    assert (Hids : map recipe_id (tbl_recipes (updateEstimatedPrices d1))
                   = map recipe_id (tbl_recipes d))
      by (rewrite updateEstimatedPrices_ids; reflexivity).
    assert (Hlen : List.length (tbl_recipes (updateEstimatedPrices d1))
                   = List.length (tbl_recipes d)).
    { rewrite <- (length_map recipe_id), Hids. apply length_map. }
    rewrite Hst, Hin, Hri. fold stores.
    rewrite (storeLoop_plan cache (tbl_ingredients d) (tbl_recipeIngredients d)
               (loadStoreData env d) (tbl_recipes (updateEstimatedPrices d1)) stores)
      by reflexivity.
    cbv zeta. cbn [run_db run_errors run_recipesProcessed run_storesProcessed app].
    rewrite Hids, Hlen, Hrows. fold keys. fold write. rewrite Htwice, Efatal.
    replace (set_recipeStorePrices (updateEstimatedPrices d1) rowsF)
      with (updateEstimatedPrices d1) by reflexivity.
    now rewrite updateEstimatedPrices_twice.
Qed.

End ReplayFacts.

Section RunTwice.

Variable regexpTest : jsstr -> jsstr -> completion bool.
Variable ADONIS PROVIGO : jsstr.
Variable env : Environment.

Lemma autoReset_twice (w : World) :
  autoReset env (autoReset env w) = autoReset env w.
Proof.
  unfold autoReset.
  destruct (isCalculating w) eqn:E1; [|now rewrite E1].
  destruct (calculationStartTime w) as [startTime|] eqn:E2; [|now rewrite E1, E2].
  destruct (startTime =? 0)%Z eqn:E3; [now rewrite E1, E2, E3|].
  destruct (MAX_CALCULATION_TIME_MS <? now_atEntry env - startTime)%Z eqn:E4.
  - reflexivity.
  - now rewrite E1, E2, E3, E4.
Qed.

Lemma selectEquivalences_catalogs (d d' : Database) :
  catalogsOf d' = catalogsOf d -> selectEquivalences d' = selectEquivalences d.
Proof.
  unfold catalogsOf, selectEquivalences. intro H. injection H as _ H1 _ _ _ _ H2.
  now rewrite H1, H2.
Qed.

Lemma loadIngredientEquivalences_replay (w0 w2 : World) :
  selectEquivalences (db w2) = selectEquivalences (db w0) ->
  equivalenceCache w2 = equivalenceCache (loadIngredientEquivalences env w0) ->
  lastEquivalenceCacheLoad w2
  = lastEquivalenceCacheLoad (loadIngredientEquivalences env w0) ->
  equivalenceCache (loadIngredientEquivalences env w2)
  = equivalenceCache (loadIngredientEquivalences env w0)
  /\ lastEquivalenceCacheLoad (loadIngredientEquivalences env w2)
     = lastEquivalenceCacheLoad (loadIngredientEquivalences env w0).
Proof.
  intros Hsel. remember (loadIngredientEquivalences env w0) as w1 eqn:E1.
  intros Hc Hl. unfold loadIngredientEquivalences in E1 |- *.
  rewrite Hc, Hl, Hsel.
  destruct ((now_atCacheLoad env - lastEquivalenceCacheLoad w0 <? EQUIVALENCE_CACHE_TTL)%Z
            && (0 <? List.length (equivalenceCache w0))%nat) eqn:E0.
  - subst w1. rewrite E0. now split.
  - destruct (fails_equivalences env) as [e|] eqn:Ef.
    + subst w1. rewrite E0. now split.
    + subst w1. cbn [equivalenceCache lastEquivalenceCacheLoad] in *.
      match goal with
      | |- context [if ?c then w2 else _] => destruct c
      end; cbn [equivalenceCache lastEquivalenceCacheLoad]; split; trivial.
Qed.

(** X22: a second call to [runRecipePriceCalculation], made on the state
    that the first call left and reading the same clock, dates and
    database faults, returns the same summary and leaves that state as it
    is: no row is added, and every row and every estimated price is
    written again with the value it has.  The ids of the rows are taken to
    be distinct. *)
Theorem second_run_changes_nothing (w : World) :
  distinctIds (tbl_recipeStorePrices (db w)) ->
  runRecipePriceCalculation regexpTest ADONIS PROVIGO env
    (snd (runRecipePriceCalculation regexpTest ADONIS PROVIGO env w))
  = runRecipePriceCalculation regexpTest ADONIS PROVIGO env w.
Proof.
  intro Hnd. unfold runRecipePriceCalculation at 2 3.
  destruct (isCalculating (autoReset env w)) eqn:Elock.
  - cbn [snd]. unfold runRecipePriceCalculation.
    now rewrite autoReset_twice, Elock.
  - set (w1 := loadIngredientEquivalences env (acquireLock env (autoReset env w))).
    assert (Hdb : db w1 = db w).
    { unfold w1. rewrite loadIngredientEquivalences_db. cbn [db acquireLock].
      apply autoReset_db. }
    pose proof (runBody_replay regexpTest ADONIS PROVIGO env (equivalenceCache w1)
                  (db w1)) as Hreplay.
    rewrite Hdb in Hreplay at 1. specialize (Hreplay Hnd).
    pose proof (runBody_only_prices regexpTest ADONIS PROVIGO env
                  (equivalenceCache w1) (db w1)) as [Hcat _].
    destruct (runBody regexpTest ADONIS PROVIGO env (equivalenceCache w1) (db w1))
      as [st fatal] eqn:Ebody.
    cbn [fst snd] in *.
    set (wF := mkWorld (run_db st) false None (equivalenceCache w1)
                 (lastEquivalenceCacheLoad w1)).
    unfold runRecipePriceCalculation.
    assert (Hreset : autoReset env wF = wF) by reflexivity.
    rewrite Hreset. cbn [isCalculating wF].
    destruct (loadIngredientEquivalences_replay
                (acquireLock env (autoReset env w)) (acquireLock env wF))
      as [Hc Hl]; try reflexivity.
    { cbn [db acquireLock wF]. rewrite autoReset_db, <- Hdb.
      now apply selectEquivalences_catalogs. }
    fold w1 in Hc, Hl. rewrite Hc, Hl, loadIngredientEquivalences_db.
    cbn [db acquireLock wF]. rewrite Hreplay. reflexivity.
Qed.

End RunTwice.

Lemma second_run_changes_nothing_witness :
  Sample.run (snd (Sample.run Sample.idle)) = Sample.run Sample.idle.
Proof.
  apply (second_run_changes_nothing Sample.noRegexp Preview.STORE_IDS_ADONIS
           Preview.STORE_IDS_PROVIGO Sample.environment Sample.idle).
  unfold distinctIds. simpl. constructor; [intros []|constructor].
Defined.

(** ** Instances of the further properties *)

Section Instances.
Local Open Scope Q_scope.

Lemma short_words_score_exact_matches_only_witness :
  baseScore [js "ail"; js "sel"] [js "ail"; js "taille"]
  == count (hasExactWord [js "ail"; js "taille"]) [js "ail"; js "sel"]
     / inject_Z (Z.of_nat (List.length [js "ail"; js "sel"])).
Proof.
  apply (short_words_score_exact_matches_only [js "ail"; js "sel"] [js "ail"; js "taille"]).
  intros w [<-|[<-|[]]]; cbn; lia.
Defined.

Lemma selected_price_within_caps_witness :
  exists pricing,
    findBestPrice Sample.noRegexp (js "boeuf") None igaCatalog = Normal pricing
    /\ price pricing <= getIngredientPriceCap (js "boeuf")
    /\ price pricing <= GLOBAL_MAX_INGREDIENT_PRICE
    /\ 3 <= getIngredientPriceCap (js "boeuf")
    /\ (source pricing = Estimate
        <-> noPriceFound Sample.noRegexp (js "boeuf") igaCatalog = true).
Proof.
  eexists. split; [reflexivity|].
  apply (selected_price_within_caps Sample.noRegexp (js "boeuf") None igaCatalog _
           eq_refl eq_refl).
Defined.

Lemma literal_names_are_always_priced_witness :
  exists pricing,
    findBestPrice Sample.noRegexp (js "Bœuf haché") (Some (js "Viandes")) igaCatalog
    = Normal pricing
    /\ price pricing <= GLOBAL_MAX_INGREDIENT_PRICE.
Proof.
  apply (literal_names_are_always_priced Sample.noRegexp (js "Bœuf haché")
           (Some (js "Viandes")) igaCatalog).
  - reflexivity.
  - reflexivity.
Defined.

Lemma unit_price_costing_iff_unified_witness :
  exists pricing,
    findBestPrice Sample.noRegexp (js "boeuf") None igaCatalog = Normal pricing
    /\ (usesUnitPrice pricing = true <-> source pricing = Unified)
    /\ (source pricing <> Unified -> normalizedUnit pricing = None).
Proof.
  eexists. split; [reflexivity|].
  apply (unit_price_costing_iff_unified Sample.noRegexp (js "boeuf") None igaCatalog _
           eq_refl).
Defined.

Lemma exact_unified_match_wins_witness :
  findUnifiedPrice (js "Boeuf") igaCatalog
  = findUnifiedPrice (js "Boeuf")
      (mkCachedStoreData [snd (Sample.beefAt "iga" 7)] [] []).
Proof.
  apply (exact_unified_match_wins (js "Boeuf")
           [mkUnifiedPriceData (Some (js "poulet")) (Some 9) None (Some 9) 1 (js "kg")]
           [] (snd (Sample.beefAt "iga" 7)) [mkPromo (js "boeuf haché") 5] []).
  - reflexivity.
  - intros x [<-|[]]. reflexivity.
Defined.

Lemma weight_or_volume_unit_ignores_the_cache_witness :
  calculateProportionalCost [] 250 (js "g") 4.99 (js "oeufs")
  = calculateProportionalCost [(js "oeufs", mkEquivalence 50 (js "g"))] 250 (js "g")
      4.99 (js "oeufs").
Proof.
  apply (weight_or_volume_unit_ignores_the_cache []
           [(js "oeufs", mkEquivalence 50 (js "g"))] 250 (js "g") 4.99 (js "oeufs")).
  reflexivity.
Defined.

Lemma unknown_weight_costs_at_most_two_packages_witness :
  calculateProportionalCost [] 12 (js "unité") 4 (js "kiwano") <= 2 * 4.
Proof.
  apply (unknown_weight_costs_at_most_two_packages [] 12 (js "unité") 4 (js "kiwano")).
  - reflexivity.
  - reflexivity.
  - vm_compute. discriminate.
Defined.

Lemma priced_pair_respects_ceilings_witness :
  exists r,
    priceRecipeAtStore Sample.noRegexp [] (tbl_ingredients Sample.database)
      (tbl_recipeIngredients Sample.database) (mkRecipe (js "r1") (js "Steak") None)
      igaCatalog
    = Normal r
    /\ readsPlainKeys (tbl_ingredients Sample.database)
         (linesOf (tbl_recipeIngredients Sample.database)
            (mkRecipe (js "r1") (js "Steak") None)) = true
    /\ totalCost r <= MAX_RECIPE_TOTAL.
Proof.
  assert (E : exists r,
             priceRecipeAtStore Sample.noRegexp [] (tbl_ingredients Sample.database)
               (tbl_recipeIngredients Sample.database)
               (mkRecipe (js "r1") (js "Steak") None) igaCatalog
             = Normal r)
    by (vm_compute; eexists; reflexivity).
  destruct E as [r E]. exists r. split; [exact E|]. split; [reflexivity|].
  apply (priced_pair_respects_ceilings Sample.noRegexp [] (tbl_ingredients Sample.database)
           (tbl_recipeIngredients Sample.database) (mkRecipe (js "r1") (js "Steak") None)
           igaCatalog r E).
  reflexivity.
Defined.

(** A lock taken 701 seconds before the call. *)
Lemma stuck_lock_is_reset_automatically_witness :
  Sample.run (mkWorld Sample.database true (Some (-700000)%Z) [] 0)
  = Sample.run (forceResetCalculationFlag
                  (mkWorld Sample.database true (Some (-700000)%Z) [] 0)).
Proof.
  apply (stuck_lock_is_reset_automatically Sample.noRegexp Preview.STORE_IDS_ADONIS
           Preview.STORE_IDS_PROVIGO Sample.environment
           (mkWorld Sample.database true (Some (-700000)%Z) [] 0) (-700000)%Z).
  - reflexivity.
  - reflexivity.
  - discriminate.
  - vm_compute. reflexivity.
Defined.

End Instances.
